(** * The client-side source bundler ([handleDownload]) of the two pages

    Both pages (the pybind11 page and the memory-pool page) carry a
    [handleDownload] handler that fetches the deployed [index.html] and a
    fixed list of source files, strips import/export declarations with four
    regular-expression replacements, concatenates the results below a master
    import block, injects the whole as an inline script and hands a two-entry
    zip to [saveAs].

    The development has these layers:
    - [JS]: the part of the JavaScript string and RegExp semantics the
      handlers use (UTF-16 code units, a backtracking matcher,
      [GetSubstitution], [String.prototype.replace], [includes]);
    - [Bundler]: the handler itself, in a small effect/exception monad, once
      per page ([Pybind11], [MemoryPool]), run in one piece;
    - [Async]: the same handlers as the steps they take between their
      [await]s, for what happens when clicks fall between them;
    - [MemoryPoolVisualizer], [BridgeAnimation]: the animated diagrams;
    - the properties of all of these. *)

From Stdlib Require Import String Ascii List NArith ZArith Bool Arith Lia.
Import ListNotations.

(* ===================================================================== *)
(** * JavaScript strings                                                  *)
(* ===================================================================== *)

Module JS.

(** A JavaScript string is a sequence of UTF-16 code units. *)
Definition char := N.
Definition text := list char.

Definition bytes_of_string (s : string) : list N :=
  map (fun a => N_of_ascii a) (list_ascii_of_string s).

(** The literals of the source files are written here as UTF-8 string
    literals; [utf16] decodes them to the code units the engine sees. *)
Fixpoint utf16_of_utf8 (bs : list N) : text :=
  match bs with
  | [] => []
  | b :: r =>
    if (b <? 128)%N then b :: utf16_of_utf8 r
    else if (b <? 224)%N then
      match r with
      | b2 :: r' => ((b - 192) * 64 + (b2 - 128))%N :: utf16_of_utf8 r'
      | [] => [65533%N]
      end
    else if (b <? 240)%N then
      match r with
      | b2 :: b3 :: r' =>
        ((b - 224) * 4096 + (b2 - 128) * 64 + (b3 - 128))%N :: utf16_of_utf8 r'
      | _ => [65533%N]
      end
    else
      match r with
      | b2 :: b3 :: b4 :: r' =>
        let cp := ((b - 240) * 262144 + (b2 - 128) * 4096
                   + (b3 - 128) * 64 + (b4 - 128))%N in
        let v := (cp - 65536)%N in
        (55296 + v / 1024)%N :: (56320 + v mod 1024)%N :: utf16_of_utf8 r'
      | _ => [65533%N]
      end
  end.

Definition utf16 (s : string) : text := utf16_of_utf8 (bytes_of_string s).

(** Code units that need a name. *)
Definition c_dquote : char := 34%N.   (* the double quote *)
Definition c_squote : char := 39%N.   (* ' *)
Definition c_dollar : char := 36%N.   (* $ *)
Definition c_amp    : char := 38%N.   (* & *)
Definition c_btick  : char := 96%N.   (* ` *)
Definition c_lt     : char := 60%N.   (* < *)
Definition c_semi   : char := 59%N.   (* ; *)
Definition c_nl     : char := 10%N.   (* \n *)

Definition dq : text := [c_dquote].
Definition nl : text := [c_nl].

(** ** Substring search: [String.prototype.includes] and the search step of
    [String.prototype.replace] with a string pattern. *)

(** [strip_prefix p s] is the rest of [s] after its prefix [p], if [p] is
    one. *)
Fixpoint strip_prefix (p s : text) : option text :=
  match p with
  | [] => Some s
  | c :: p' =>
    match s with
    | [] => None
    | x :: s' => if (x =? c)%N then strip_prefix p' s' else None
    end
  end.

(** [find_first p s]: the text before and after the first occurrence of [p]
    in [s] (StringIndexOf from index 0). *)
Fixpoint find_first (p s : text) : option (text * text) :=
  match strip_prefix p s with
  | Some rest => Some ([], rest)
  | None =>
    match s with
    | [] => None
    | x :: s' =>
      match find_first p s' with
      | Some (before, after) => Some (x :: before, after)
      | None => None
      end
    end
  end.

Definition includes (s p : text) : bool :=
  match find_first p s with Some _ => true | None => false end.

(* ===================================================================== *)
(** * Regular expressions                                                 *)
(* ===================================================================== *)

(** The fragment of the pattern language the handlers use: literal
    characters, character classes, concatenation, alternation, greedy and
    lazy repetition, and numbered capturing groups.  No flags other than
    [g] occur, so matching is case sensitive and works on code units. *)
Inductive regex : Type :=
| Empty
| Lit (c : char)
| Class (p : char -> bool)
| Seq (r1 r2 : regex)
| Alt (r1 r2 : regex)
| Star (greedy : bool) (r : regex)
| Group (i : nat) (r : regex).

(** [r+] and [r?] (both greedy) and a literal word. *)
Definition Plus (r : regex) : regex := Seq r (Star true r).
Definition Opt (r : regex) : regex := Alt r Empty.
Fixpoint Word (w : text) : regex :=
  match w with
  | [] => Empty
  | c :: w' => Seq (Lit c) (Word w')
  end.

(** [\s]: WhiteSpace and LineTerminator code points. *)
Definition is_space (c : char) : bool :=
  ((c =? 9) || (c =? 10) || (c =? 11) || (c =? 12) || (c =? 13) || (c =? 32)
   || (c =? 160) || (c =? 5760) || ((8192 <=? c) && (c <=? 8202))
   || (c =? 8232) || (c =? 8233) || (c =? 8239) || (c =? 8287)
   || (c =? 12288) || (c =? 65279))%N.

(** The classes [\s\S] (any code unit), "either quote" and "neither
    quote". *)
Definition is_any (c : char) : bool := is_space c || negb (is_space c).
Definition is_quote (c : char) : bool := ((c =? c_squote) || (c =? c_dquote))%N.
Definition not_quote (c : char) : bool := negb (is_quote c).

(** Captures: entry [i-1] holds the text of group [i], [None] when the group
    did not take part in the match. *)
Definition captures := list (option text).

Fixpoint set_capture (i : nat) (v : text) (cs : captures) : captures :=
  match i, cs with
  | _, [] => []
  | O, cs => cs
  | S O, _ :: cs' => Some v :: cs'
  | S i', c :: cs' => c :: set_capture i' v cs'
  end.

Fixpoint ngroups (r : regex) : nat :=
  match r with
  | Empty | Lit _ | Class _ => 0
  | Seq r1 r2 | Alt r1 r2 => Nat.max (ngroups r1) (ngroups r2)
  | Star _ r0 => ngroups r0
  | Group i r0 => Nat.max i (ngroups r0)
  end.

(** The backtracking matcher, in continuation-passing style as in the
    language specification: [rmatch r s cs k] matches [r] at the head of [s]
    and hands the rest of the input and the captures to [k]; alternatives are
    tried in priority order (left alternative first, longest first for a
    greedy repetition, shortest first for a lazy one), and the first one for
    which the continuation succeeds wins.  An iteration of a repetition that
    consumes nothing is rejected. *)
Definition result := option (text * captures).
Definition cont := text -> captures -> result.

Fixpoint rmatch (r : regex) (s : text) (cs : captures) (k : cont) : result :=
  match r with
  | Empty => k s cs
  | Lit c =>
    match s with
    | x :: s' => if (x =? c)%N then k s' cs else None
    | [] => None
    end
  | Class p =>
    match s with
    | x :: s' => if p x then k s' cs else None
    | [] => None
    end
  | Seq r1 r2 => rmatch r1 s cs (fun s' cs' => rmatch r2 s' cs' k)
  | Alt r1 r2 =>
    match rmatch r1 s cs k with
    | Some x => Some x
    | None => rmatch r2 s cs k
    end
  | Star greedy r0 =>
    (fix loop (n : nat) (s : text) (cs : captures) {struct n} : result :=
       match n with
       | O => k s cs
       | S n' =>
         let again (_ : unit) :=
           rmatch r0 s cs
             (fun s' cs' =>
                if length s' <? length s then loop n' s' cs' else None) in
         if greedy then
           match again tt with
           | Some x => Some x
           | None => k s cs
           end
         else
           match k s cs with
           | Some x => Some x
           | None => again tt
           end
       end) (length s) s cs
  | Group i r0 =>
    rmatch r0 s cs
      (fun s' cs' =>
         k s' (set_capture i (firstn (length s - length s') s) cs'))
  end.

(** One attempt of the pattern at the head of [s]. *)
Definition rexec (r : regex) (s : text) : result :=
  rmatch r s (repeat None (ngroups r)) (fun s' cs' => Some (s', cs')).

(* ===================================================================== *)
(** * GetSubstitution and replace                                         *)
(* ===================================================================== *)

Definition is_digit (c : char) : bool := ((48 <=? c) && (c <=? 57))%N.
Definition digit_val (c : char) : nat := N.to_nat (c - 48).

Definition capture_text (cs : captures) (index : nat) : text :=
  match nth_error cs (index - 1) with
  | Some (Some t) => t
  | _ => []
  end.

(** [GetSubstitution matched before after captures template]: the expansion
    of a replacement template.  [before] and [after] are the parts of the
    subject string before and after the match.  The patterns have no named
    groups, so [$<] is literal. *)
Fixpoint GetSubstitution (matched before after : text) (cs : captures)
         (template : text) : text :=
  match template with
  | [] => []
  | c :: t =>
    if negb (c =? c_dollar)%N then
      c :: GetSubstitution matched before after cs t
    else
      match t with
      | [] => [c]
      | d :: t' =>
        if (d =? c_dollar)%N then
          c_dollar :: GetSubstitution matched before after cs t'
        else if (d =? c_amp)%N then
          matched ++ GetSubstitution matched before after cs t'
        else if (d =? c_btick)%N then
          before ++ GetSubstitution matched before after cs t'
        else if (d =? c_squote)%N then
          after ++ GetSubstitution matched before after cs t'
        else if is_digit d then
          let one (_ : unit) :=
            let index := digit_val d in
            if (1 <=? index) && (index <=? length cs) then
              capture_text cs index
                ++ GetSubstitution matched before after cs t'
            else c :: d :: GetSubstitution matched before after cs t' in
          match t' with
          | e :: t'' =>
            if is_digit e then
              let index := 10 * digit_val d + digit_val e in
              if length cs <? index then one tt
              else if 1 <=? index then
                capture_text cs index
                  ++ GetSubstitution matched before after cs t''
              else c :: d :: e :: GetSubstitution matched before after cs t''
            else one tt
          | [] => one tt
          end
        else
          c :: d :: GetSubstitution matched before after cs t'
      end
  end.

(** [String.prototype.replace] with a string pattern: the first occurrence
    only, and the replacement is a template (there are no captures). *)
Definition replace_string (s pattern template : text) : text :=
  match find_first pattern s with
  | None => s
  | Some (before, after) =>
    before ++ GetSubstitution pattern before after [] template ++ after
  end.

(** [String.prototype.replace] with a global pattern: the matches are found
    left to right, each search resuming where the previous match ended (one
    code unit further after an empty match); the text between matches is
    kept.  [before] is the part of the subject already passed. *)
Fixpoint replace_from (fuel : nat) (r : regex) (template : text)
         (before s : text) : text :=
  match fuel with
  | O => s
  | S fuel' =>
    match rexec r s with
    | Some (rest, cs) =>
      let matched := firstn (length s - length rest) s in
      let out := GetSubstitution matched before rest cs template in
      match matched with
      | [] =>
        match s with
        | [] => out
        | c :: s' =>
          out ++ c :: replace_from fuel' r template (before ++ [c]) s'
        end
      | _ :: _ =>
        out ++ replace_from fuel' r template (before ++ matched) rest
      end
    | None =>
      match s with
      | [] => []
      | c :: s' => c :: replace_from fuel' r template (before ++ [c]) s'
      end
    end
  end.

Definition replace_all (s : text) (r : regex) (template : text) : text :=
  replace_from (S (length s)) r template [] s.

End JS.

(* ===================================================================== *)
(** * The bundler                                                         *)
(* ===================================================================== *)

Module Bundler.
Import JS.

(** ** The world around the handler *)

(** A value that is thrown and caught: an object made by [new Error(...)],
    or the reason the platform rejected a promise with (the [TypeError] of a
    failed fetch, the error of a body that cannot be read). *)
Inductive error : Type :=
| Error (message : text)
| Rejection (reason : text).

(** What [res.text()] does: the promise resolves to the text, or rejects. *)
Inductive body_result : Type :=
| Readable (t : text)
| Unreadable (reason : text).

(** What [fetch(url)] does: the promise rejects (network failure), or it
    resolves to a response with its [ok] flag and the outcome of
    [text()]. *)
Inductive fetch_result : Type :=
| Rejected (reason : text)
| Resolved (ok : bool) (body : body_result).

Definition network := text -> fetch_result.

(** The zip object: its entries, in insertion order; [zip.file(name, data)]
    replaces an entry of the same name where it stands. *)
Definition archive := list (text * text).

Definition text_eqb (a b : text) : bool :=
  if list_eq_dec N.eq_dec a b then true else false.

Fixpoint zip_file (zip : archive) (name data : text) : archive :=
  match zip with
  | [] => [(name, data)]
  | (n, d) :: zip' =>
    if text_eqb n name then (name, data) :: zip'
    else (n, d) :: zip_file zip' name data
  end.

(** The observable actions of the handler, in the order they happen, with
    their arguments.  The zip serialisation ([generateAsync]) and [saveAs]
    are library calls: [SaveAs] records the zip object that is serialised
    and the file name. *)
Inductive effect : Type :=
| SetIsDownloading (b : bool)
| Fetch (url : text)
| ConsoleWarn (msg : text) (e : error)
| ConsoleError (e : error)
| Alert (msg : text)
| ZipFile (name data : text)
| SaveAs (zip : archive) (filename : text).

(** The component state the handler reads and writes, and the log. *)
Record world : Type := World { isDownloading : bool; trace : list effect }.

(** ** A monad for effects and exceptions *)

Inductive outcome (A : Type) : Type :=
| Done (a : A)
| Thrown (e : error).
Arguments Done {A} a.
Arguments Thrown {A} e.

Definition M (A : Type) : Type := world -> outcome A * world.

Definition ret {A} (a : A) : M A := fun w => (Done a, w).
Definition throw {A} (e : error) : M A := fun w => (Thrown e, w).
Definition bind {A B} (m : M A) (f : A -> M B) : M B :=
  fun w =>
    match m w with
    | (Done a, w') => f a w'
    | (Thrown e, w') => (Thrown e, w')
    end.
(** [try { body } catch (e) { handler e }] *)
Definition try_catch {A} (body : M A) (handler : error -> M A) : M A :=
  fun w =>
    match body w with
    | (Done a, w') => (Done a, w')
    | (Thrown e, w') => handler e w'
    end.
(** [try { body } finally { final }] *)
Definition try_finally {A} (body : M A) (final : M unit) : M A :=
  fun w =>
    match body w with
    | (r, w') =>
      match final w' with
      | (Done _, w'') => (r, w'')
      | (Thrown e, w'') => (Thrown e, w'')
      end
    end.

Declare Scope js_scope.
Delimit Scope js_scope with js.
Notation "x <- m ;; k" := (bind m (fun x => k))
  (at level 61, m at next level, right associativity) : js_scope.
Notation "m ;; k" := (bind m (fun _ => k))
  (at level 61, right associativity) : js_scope.
Local Open Scope js_scope.

Definition emit (e : effect) : M unit :=
  fun w => (Done tt, World (isDownloading w) (trace w ++ [e])).

Definition setIsDownloading (b : bool) : M unit :=
  fun w => (Done tt, World b (trace w ++ [SetIsDownloading b])).

(** [for (const x of xs) { acc = body x acc }] *)
Fixpoint for_of {A B} (xs : list A) (body : A -> B -> M B) (acc : B) : M B :=
  match xs with
  | [] => ret acc
  | x :: xs' => acc' <- body x acc ;; for_of xs' body acc'
  end.

(** [const res = await fetch(url);
     if (!res.ok) throw new Error(`Failed to fetch ${url}`);
     await res.text()] *)
Definition fetch_text (net : network) (url : text) : M text :=
  emit (Fetch url) ;;
  match net url with
  | Rejected reason => throw (Rejection reason)
  | Resolved false _ => throw (Error (utf16 "Failed to fetch " ++ url))
  | Resolved true (Unreadable reason) => throw (Rejection reason)
  | Resolved true (Readable t) => ret t
  end.

(** ** The patterns of the four replacements *)

Definition kw (w : string) : regex := Word (utf16 w).

(** [/import\s+[\s\S]*?from\s+[Q][^Q]+[Q];?/g], where [Q] stands for
    the two quote characters (single and double) of the source's class. *)
Definition re_import_from : regex :=
  Seq (kw "import") (Seq (Plus (Class is_space)) (Seq (Star false (Class is_any))
  (Seq (kw "from") (Seq (Plus (Class is_space)) (Seq (Class is_quote)
  (Seq (Plus (Class not_quote)) (Seq (Class is_quote) (Opt (Lit c_semi))))))))).

(** [/import\s+[Q][^Q]+[Q];?/g] *)
Definition re_import_side : regex :=
  Seq (kw "import") (Seq (Plus (Class is_space)) (Seq (Class is_quote)
  (Seq (Plus (Class not_quote)) (Seq (Class is_quote) (Opt (Lit c_semi)))))).

(** [/export\s+default\s+/g] *)
Definition re_export_default : regex :=
  Seq (kw "export") (Seq (Plus (Class is_space))
  (Seq (kw "default") (Plus (Class is_space)))).

(** [/export\s+(const|function|class|interface|type|enum)/g] *)
Definition re_export_decl : regex :=
  Seq (kw "export") (Seq (Plus (Class is_space))
  (Group 1 (Alt (kw "const") (Alt (kw "function") (Alt (kw "class")
           (Alt (kw "interface") (Alt (kw "type") (kw "enum")))))))).

(** ** The parts the two handlers share word for word *)

(** The manifest. *)
Definition filesToBundle : list text :=
  [ utf16 "types.ts";
    utf16 "components/QuantumScene.tsx";
    utf16 "components/Diagrams.tsx";
    utf16 "App.tsx";
    utf16 "index.tsx" ].

(** [`\n\n/* --- Source: ${file} --- */\n${code}\n`] *)
Definition source_block (file code : text) : text :=
  utf16 "

/* --- Source: " ++ file ++ utf16 " --- */
" ++ code ++ nl.

(** [`\n/* Error loading ${file} */\n`] *)
Definition error_block (file : text) : text :=
  utf16 "
/* Error loading " ++ file ++ utf16 " */
".

Definition babelScript : text :=
  utf16 "<script src=" ++ dq
  ++ utf16 "https://unpkg.com/@babel/standalone/babel.min.js" ++ dq
  ++ utf16 "></script>".

Definition mainScript (combinedCode : text) : text :=
  utf16 "
    <script type=" ++ dq ++ utf16 "text/babel" ++ dq
  ++ utf16 " data-type=" ++ dq ++ utf16 "module" ++ dq
  ++ utf16 " data-presets=" ++ dq ++ utf16 "typescript,react" ++ dq
  ++ utf16 ">
" ++ combinedCode ++ utf16 "
    </script>".

Definition body_close : text := utf16 "</body>".

(** [if (html.includes('</body>')) html = html.replace('</body>', ...)
     else html += ...] *)
Definition inject (html combinedCode : text) : text :=
  if includes html body_close then
    replace_string html body_close
      (babelScript ++ nl ++ mainScript combinedCode ++ nl ++ body_close)
  else
    html ++ (babelScript ++ nl ++ mainScript combinedCode).

(** ** The pybind11 page *)

Module Pybind11.

Definition masterImports : text := utf16 "
import React, { useState, useEffect, useRef } from 'react';
import ReactDOM from 'react-dom/client';
import * as THREE from 'three';
import { Canvas, useFrame } from '@react-three/fiber';
import { Float, MeshDistortMaterial, Sphere, Icosahedron, Box, Environment, Stars } from '@react-three/drei';
import { motion } from 'framer-motion';
import { ArrowDown, Menu, X, ExternalLink, Code2, AlertTriangle, Layers, Download, Loader2, Check, Copy, Terminal, ArrowRight, ArrowLeftRight, Hammer, FileCode, Monitor, Lock, Trash2, Split, Scale, CheckCircle2, XCircle } from 'lucide-react';
import JSZip from 'jszip';
import saveAs from 'file-saver';
".

Definition README : text := utf16 "# pybind11 Website Source (bundled)

## 如何运行 (How to Run)

此版本已将所有 TypeScript 源码合并到 `index.html` 中，方便查看和调试。

### 步骤 (Steps)
1. 解压文件。
2. 在解压目录打开终端。
3. 启动一个本地服务器 (由于 CORS 限制，直接双击 html 可能无法加载 CDN 资源):
   
   **Python:**
   ```bash
   python -m http.server
   ```
   
   **Node.js:**
   ```bash
   npx serve
   ```

4. 在浏览器访问 `http://localhost:8000` (或 3000)。

### 依赖 (Dependencies)
本网页运行时依赖 React, Three.js 等 CDN 资源，请确保**网络连接正常**。
".

(** The four replacements applied to a fetched file. *)
Definition transform (code : text) : text :=
  let code := replace_all code re_import_from [] in
  let code := replace_all code re_import_side [] in
  let code := replace_all code re_export_default [] in
  let code := replace_all code re_export_decl (utf16 "$1") in
  code.

(** The body of the [for] loop, with its own [try]/[catch]. *)
Definition bundle_file (net : network) (file combinedCode : text) : M text :=
  try_catch
    (code <- fetch_text net file ;;
     ret (combinedCode ++ source_block file (transform code)))
    (fun e =>
       emit (ConsoleWarn (utf16 "Error processing " ++ file) e) ;;
       ret (combinedCode ++ error_block file)).

(** Everything inside the outer [try]. *)
Definition bundle (net : network) : M unit :=
  let zip : archive := [] in
  html <- fetch_text net (utf16 "index.html") ;;
  combinedCode <- for_of filesToBundle (bundle_file net) masterImports ;;
  let html := inject html combinedCode in
  emit (ZipFile (utf16 "index.html") html) ;;
  let zip := zip_file zip (utf16 "index.html") html in
  emit (ZipFile (utf16 "README.md") README) ;;
  let zip := zip_file zip (utf16 "README.md") README in
  emit (SaveAs zip (utf16 "pybind11-website-bundled.zip")).

(** The [try]/[catch]/[finally] statement: what an invocation that passed
    the guard still has to do once [setIsDownloading(true)] is done. *)
Definition guarded (net : network) : M unit :=
  try_finally
    (try_catch (bundle net)
       (fun err =>
          emit (ConsoleError err) ;;
          emit (Alert (utf16 "打包下载失败 (Bundling Failed)"))))
    (setIsDownloading false).

Definition handleDownload (net : network) : M unit :=
  fun w =>
    if isDownloading w then (Done tt, w)
    else (setIsDownloading true ;; guarded net) w.

End Pybind11.

(** ** The memory-pool page *)

Module MemoryPool.

Definition masterImports : text := utf16 "
import React, { useState, useEffect, useRef, useMemo } from 'react';
import ReactDOM from 'react-dom/client';
import * as THREE from 'three';
import { Canvas, useFrame } from '@react-three/fiber';
import { Float, Box, Environment, Stars, Instances, Instance } from '@react-three/drei';
import { motion, AnimatePresence } from 'framer-motion';
import { ArrowDown, Menu, X, ExternalLink, Code2, AlertTriangle, Layers, Download, Loader2, Check, Copy, Terminal, ArrowRight, Clock, Zap, Cpu, Hammer, FileCode, Monitor, Lock, Trash2, Split, Scale, CheckCircle2, XCircle, Server, Database, Bug, BookOpen, Component, Braces, AlertCircle, Info, Flame, Target, ShieldAlert, Workflow } from 'lucide-react';
import JSZip from 'jszip';
import saveAs from 'file-saver';
".

Definition README : text := utf16 "# Memory Pool Website Source

See index.html for bundled source.".

Definition transform (code : text) : text :=
  let code := replace_all code re_import_from [] in
  let code := replace_all code re_import_side [] in
  let code := replace_all code re_export_default [] in
  let code := replace_all code re_export_decl (utf16 "$1") in
  code.

Definition bundle_file (net : network) (file combinedCode : text) : M text :=
  try_catch
    (code <- fetch_text net file ;;
     ret (combinedCode ++ source_block file (transform code)))
    (fun _ => ret (combinedCode ++ error_block file)).

Definition bundle (net : network) : M unit :=
  let zip : archive := [] in
  html <- fetch_text net (utf16 "index.html") ;;
  combinedCode <- for_of filesToBundle (bundle_file net) masterImports ;;
  let html := inject html combinedCode in
  emit (ZipFile (utf16 "index.html") html) ;;
  let zip := zip_file zip (utf16 "index.html") html in
  emit (ZipFile (utf16 "README.md") README) ;;
  let zip := zip_file zip (utf16 "README.md") README in
  emit (SaveAs zip (utf16 "memory-pool-site.zip")).

Definition guarded (net : network) : M unit :=
  try_finally
    (try_catch (bundle net)
       (fun _ => emit (Alert (utf16 "打包下载失败"))))
    (setIsDownloading false).

Definition handleDownload (net : network) : M unit :=
  fun w =>
    if isDownloading w then (Done tt, w)
    else (setIsDownloading true ;; guarded net) w.

End MemoryPool.

End Bundler.


(* ===================================================================== *)
(** * The handlers between their awaits                                   *)
(* ===================================================================== *)

(** [handleDownload] is an [async] function: at every [await] it hands
    control back to the event loop, and other events of the page (a click
    on the button among them) are handled before it goes on.  Here the
    handlers are written as the steps they take, so that an invocation can
    be stopped at an [await] and resumed later. *)

Module Async.
Import JS Bundler.

Inductive prog (A : Type) : Type :=
| Ret (a : A)                                     (* return *)
| Throw (e : error)                               (* throw *)
| Act (e : effect) (k : prog A)                   (* a call that is logged *)
| ReadFlag (k : bool -> prog A)                   (* reads [isDownloading] *)
| WriteFlag (b : bool) (k : prog A)               (* [setIsDownloading(b)] *)
| AwaitFetch (url : text) (k : fetch_result -> prog A)
                                                  (* [await fetch(url)] *)
| AwaitPromise (k : prog A).                      (* [await] on a promise
                                                     that the page itself
                                                     settles *)
Arguments Ret {A} a.
Arguments Throw {A} e.
Arguments Act {A} e k.
Arguments ReadFlag {A} k.
Arguments WriteFlag {A} b k.
Arguments AwaitFetch {A} url k.
Arguments AwaitPromise {A} k.

Fixpoint bind {A B} (m : prog A) (f : A -> prog B) : prog B :=
  match m with
  | Ret a => f a
  | Throw e => Throw e
  | Act e k => Act e (bind k f)
  | ReadFlag k => ReadFlag (fun b => bind (k b) f)
  | WriteFlag b k => WriteFlag b (bind k f)
  | AwaitFetch url k => AwaitFetch url (fun r => bind (k r) f)
  | AwaitPromise k => AwaitPromise (bind k f)
  end.

(** [try { body } catch (e) { handler e }] *)
Fixpoint try_catch {A} (body : prog A) (handler : error -> prog A) : prog A :=
  match body with
  | Ret a => Ret a
  | Throw e => handler e
  | Act e k => Act e (try_catch k handler)
  | ReadFlag k => ReadFlag (fun b => try_catch (k b) handler)
  | WriteFlag b k => WriteFlag b (try_catch k handler)
  | AwaitFetch url k => AwaitFetch url (fun r => try_catch (k r) handler)
  | AwaitPromise k => AwaitPromise (try_catch k handler)
  end.

(** [try { body } finally { final }] *)
Fixpoint try_finally {A} (body : prog A) (final : prog unit) : prog A :=
  match body with
  | Ret a => bind final (fun _ => Ret a)
  | Throw e => bind final (fun _ => Throw e)
  | Act e k => Act e (try_finally k final)
  | ReadFlag k => ReadFlag (fun b => try_finally (k b) final)
  | WriteFlag b k => WriteFlag b (try_finally k final)
  | AwaitFetch url k => AwaitFetch url (fun r => try_finally (k r) final)
  | AwaitPromise k => AwaitPromise (try_finally k final)
  end.

Declare Scope async_scope.
Delimit Scope async_scope with async.
Notation "x <- m ;; k" := (bind m (fun x => k))
  (at level 61, m at next level, right associativity) : async_scope.
Notation "m ;; k" := (bind m (fun _ => k))
  (at level 61, right associativity) : async_scope.
Local Open Scope async_scope.

Definition emit (e : effect) : prog unit := Act e (Ret tt).
Definition setIsDownloading (b : bool) : prog unit := WriteFlag b (Ret tt).

(** [for (const x of xs) { acc = body x acc }] *)
Fixpoint for_of {A B} (xs : list A) (body : A -> B -> prog B) (acc : B)
  : prog B :=
  match xs with
  | [] => Ret acc
  | x :: xs' => acc' <- body x acc ;; for_of xs' body acc'
  end.

(** [const res = await fetch(url);
     if (!res.ok) throw new Error(`Failed to fetch ${url}`);
     await res.text()] *)
Definition fetch_text (url : text) : prog text :=
  AwaitFetch url (fun res =>
    match res with
    | Rejected reason => Throw (Rejection reason)
    | Resolved ok body =>
      if negb ok then Throw (Error (utf16 "Failed to fetch " ++ url))
      else AwaitPromise
             match body with
             | Readable t => Ret t
             | Unreadable reason => Throw (Rejection reason)
             end
    end).

(** ** The pybind11 page *)

Module Pybind11.

Definition bundle_file (file combinedCode : text) : prog text :=
  try_catch
    (code <- fetch_text file ;;
     Ret (combinedCode ++ source_block file (Bundler.Pybind11.transform code)))
    (fun e =>
       emit (ConsoleWarn (utf16 "Error processing " ++ file) e) ;;
       Ret (combinedCode ++ error_block file)).

Definition bundle : prog unit :=
  let zip : archive := [] in
  html <- fetch_text (utf16 "index.html") ;;
  combinedCode <- for_of filesToBundle bundle_file Bundler.Pybind11.masterImports ;;
  let html := inject html combinedCode in
  emit (ZipFile (utf16 "index.html") html) ;;
  let zip := zip_file zip (utf16 "index.html") html in
  emit (ZipFile (utf16 "README.md") Bundler.Pybind11.README) ;;
  let zip := zip_file zip (utf16 "README.md") Bundler.Pybind11.README in
  AwaitPromise (emit (SaveAs zip (utf16 "pybind11-website-bundled.zip"))).

Definition handleDownload : prog unit :=
  ReadFlag (fun isDownloading =>
    if isDownloading then Ret tt
    else
      setIsDownloading true ;;
      try_finally
        (try_catch bundle
           (fun err =>
              emit (ConsoleError err) ;;
              emit (Alert (utf16 "打包下载失败 (Bundling Failed)"))))
        (setIsDownloading false)).

End Pybind11.

(** ** The memory-pool page *)

Module MemoryPool.

Definition bundle_file (file combinedCode : text) : prog text :=
  try_catch
    (code <- fetch_text file ;;
     Ret (combinedCode ++ source_block file (Bundler.MemoryPool.transform code)))
    (fun _ => Ret (combinedCode ++ error_block file)).

Definition bundle : prog unit :=
  let zip : archive := [] in
  html <- fetch_text (utf16 "index.html") ;;
  combinedCode <- for_of filesToBundle bundle_file Bundler.MemoryPool.masterImports ;;
  let html := inject html combinedCode in
  emit (ZipFile (utf16 "index.html") html) ;;
  let zip := zip_file zip (utf16 "index.html") html in
  emit (ZipFile (utf16 "README.md") Bundler.MemoryPool.README) ;;
  let zip := zip_file zip (utf16 "README.md") Bundler.MemoryPool.README in
  AwaitPromise (emit (SaveAs zip (utf16 "memory-pool-site.zip"))).

Definition handleDownload : prog unit :=
  ReadFlag (fun isDownloading =>
    if isDownloading then Ret tt
    else
      setIsDownloading true ;;
      try_finally
        (try_catch bundle
           (fun _ => emit (Alert (utf16 "打包下载失败"))))
        (setIsDownloading false)).

End MemoryPool.

(** ** Running a handler *)

(** An invocation that waits at an [await]: for the response to a fetch,
    or for a promise of the page. *)
Inductive suspended : Type :=
| AtFetch (url : text) (k : fetch_result -> prog unit)
| AtPromise (k : prog unit).

(** Run the steps up to the next [await], or to the end.  [fetch(url)] is
    called, and logged, before the invocation waits for its response.  An
    invocation that ends has returned or has thrown; nothing observes
    which. *)
Fixpoint advance (m : prog unit) (w : world) : option suspended * world :=
  match m with
  | Ret _ => (None, w)
  | Throw _ => (None, w)
  | Act e k => advance k (World (isDownloading w) (trace w ++ [e]))
  | ReadFlag k => advance (k (isDownloading w)) w
  | WriteFlag b k =>
    advance k (World b (trace w ++ [Bundler.SetIsDownloading b]))
  | AwaitFetch url k =>
    (Some (AtFetch url k), World (isDownloading w) (trace w ++ [Fetch url]))
  | AwaitPromise k => (Some (AtPromise k), w)
  end.

(** What a waiting invocation goes on with when its promise settles; [net]
    tells how a fetch is answered. *)
Definition resume (net : network) (inv : suspended) : prog unit :=
  match inv with
  | AtFetch url k => k (net url)
  | AtPromise k => k
  end.

(** Run all the steps with no other event in between, every fetch answered
    by [net]. *)
Fixpoint complete {A} (net : network) (m : prog A) (w : world)
  : outcome A * world :=
  match m with
  | Ret a => (Done a, w)
  | Throw e => (Thrown e, w)
  | Act e k => complete net k (World (isDownloading w) (trace w ++ [e]))
  | ReadFlag k => complete net (k (isDownloading w)) w
  | WriteFlag b k =>
    complete net k (World b (trace w ++ [Bundler.SetIsDownloading b]))
  | AwaitFetch url k =>
    complete net (k (net url))
             (World (isDownloading w) (trace w ++ [Fetch url]))
  | AwaitPromise k => complete net k w
  end.

End Async.

(* ===================================================================== *)
(** * The animated diagrams                                               *)
(* ===================================================================== *)

(** ** The free-list visualizer of the memory-pool page *)

Module MemoryPoolVisualizer.

(** An entry of the [blocks] array: [true] (free), [false] (used), or a
    hole, which reads as [undefined]. *)
Definition entry := option bool.

Inductive action_t : Type := IDLE | ALLOC | FREE.

(** The state of the component.  [pointerIndex] is [None] when it holds
    [undefined]. *)
Record component : Type := Component {
  blocks : list entry;
  pointerIndex : option Z;
  action : action_t
}.

(** [useState([true, true, true, true, false, false])], [useState(0)],
    [useState("IDLE")]. *)
Definition initial : component :=
  Component [Some true; Some true; Some true; Some true; Some false; Some false]
            (Some 0%Z) IDLE.

(** [b === true], [b === false] and [!b]. *)
Definition is_true (b : entry) : bool :=
  match b with Some true => true | _ => false end.
Definition is_false (b : entry) : bool :=
  match b with Some false => true | _ => false end.
Definition falsy (b : entry) : bool :=
  match b with Some true => false | _ => true end.

(** [Array.prototype.findIndex]: the first index whose entry passes the
    test, [-1] when there is none. *)
Fixpoint findIndex_from (f : entry -> bool) (l : list entry) (i : Z) : Z :=
  match l with
  | [] => (-1)%Z
  | x :: l' => if f x then i else findIndex_from f l' (i + 1)%Z
  end.
Definition findIndex (f : entry -> bool) (l : list entry) : Z :=
  findIndex_from f l 0%Z.

(** [blocks.map((b, i) => !b ? i : -1)] *)
Fixpoint map_index (l : list entry) (i : Z) : list Z :=
  match l with
  | [] => []
  | b :: l' => (if falsy b then i else (-1)%Z) :: map_index l' (i + 1)%Z
  end.

(** [blocks.map(...).filter(i => i !== -1)] *)
Definition usedIndices (bs : list entry) : list Z :=
  filter (fun i => negb (i =? -1)%Z) (map_index bs 0%Z).

(** [next[i] = v] on an array: inside the array the entry is replaced;
    past its end the array grows, with holes in between; an index that is
    [undefined] or negative names a property, not an entry. *)
Fixpoint set_nth (l : list entry) (n : nat) (v : bool) : list entry :=
  match l, n with
  | [], O => [Some v]
  | [], S n' => None :: set_nth [] n' v
  | _ :: l', O => Some v :: l'
  | x :: l', S n' => x :: set_nth l' n' v
  end.
Definition array_set (l : list entry) (i : option Z) (v : bool) : list entry :=
  match i with
  | Some z => if (0 <=? z)%Z then set_nth l (Z.to_nat z) v else l
  | None => l
  end.

(** The callback handed to [setTimeout]:
    [setBlocks(prev => { const next = [...prev]; next[index] = value;
    return next; })]. *)
Record update : Type := Update { index : option Z; value : bool }.

Definition apply_update (u : update) (st : component) : component :=
  Component (array_set (blocks st) (index u) (value u))
            (pointerIndex st) (action st).

(** The two random draws of a tick, as the callback uses them:
    [Math.random() > 0.4], and [Math.floor(Math.random() * n)] for the
    number [n] of used blocks. *)
Record randoms : Type := Randoms { allocate : bool; pick : nat }.

(** The callback of [setInterval]: the new state and the callback it hands
    to [setTimeout], if any. *)
Definition tick (st : component) (rnd : randoms) : component * list update :=
  let freeIdx := findIndex is_true (blocks st) in
  let usedIdx := findIndex is_false (blocks st) in
  if allocate rnd && negb (freeIdx =? -1)%Z then
    (Component (blocks st) (Some freeIdx) ALLOC, [Update (Some freeIdx) false])
  else if negb (usedIdx =? -1)%Z then
    let toFree := nth_error (usedIndices (blocks st)) (pick rnd) in
    (Component (blocks st) toFree FREE, [Update toFree true])
  else (st, []).

(** The component with its pending timers.  All timers have the same delay,
    so they fire in the order they were set. *)
Record system : Type := System { comp : component; timers : list update }.

Inductive event : Type :=
| Tick (rnd : randoms)
| Fire.

Definition step (s : system) (e : event) : option system :=
  match e with
  | Tick rnd =>
    let (st', ups) := tick (comp s) rnd in
    Some (System st' (timers s ++ ups))
  | Fire =>
    match timers s with
    | [] => None
    | u :: ts => Some (System (apply_update u (comp s)) ts)
    end
  end.

Fixpoint run (s : system) (es : list event) : option system :=
  match es with
  | [] => Some s
  | e :: es' =>
    match step s e with
    | Some s' => run s' es'
    | None => None
    end
  end.

Definition start : system := System initial [].

(** The number of free blocks. *)
Definition free_count (bs : list entry) : nat :=
  List.length (filter is_true bs).

(** The render.  A block shows the [Head] marker when
    [isFree && i === blocks.findIndex(b => b)]; [truthy] is the test that
    [isFree &&] and [b => b] apply to an entry. *)
Definition truthy (b : entry) : bool := negb (falsy b).

Fixpoint head_marks_from (all l : list entry) (i : Z) : list Z :=
  match l with
  | [] => []
  | b :: l' =>
    (if truthy b && (i =? findIndex truthy all)%Z then [i] else [])
      ++ head_marks_from all l' (i + 1)%Z
  end.

(** The indices of the blocks rendered with the [Head] marker. *)
Definition head_marks (bs : list entry) : list Z := head_marks_from bs bs 0%Z.

End MemoryPoolVisualizer.

(** ** The bridge animation of the pybind11 page *)

Module BridgeAnimation.

(** [setPhase(p => (p + 1) % 4)] *)
Definition next_phase (p : Z) : Z := Z.rem (p + 1) 4.

(** [left: phase === 0 ? '0%' : phase === 1 ? '50%' : phase === 2 ? '100%'
    : '50%'], in per cent. *)
Definition left (phase : Z) : Z :=
  if (phase =? 0)%Z then 0%Z
  else if (phase =? 1)%Z then 50%Z
  else if (phase =? 2)%Z then 100%Z
  else 50%Z.

(** [rotate: phase * 90] *)
Definition rotate (phase : Z) : Z := (phase * 90)%Z.

(** [backgroundColor: phase === 1 || phase === 3 ? '#FFD43B' : '#306998'] *)
Inductive colour : Type := Yellow | Blue.
Definition backgroundColor (phase : Z) : colour :=
  if (phase =? 1)%Z || (phase =? 3)%Z then Yellow else Blue.

(** The phase after [n] ticks of the interval, from [useState(0)]. *)
Fixpoint phase_after (n : nat) : Z :=
  match n with
  | O => 0%Z
  | S n' => next_phase (phase_after n')
  end.

End BridgeAnimation.
(* ===================================================================== *)
(** * Vocabulary for the properties                                       *)
(* ===================================================================== *)

Import JS Bundler.
Arguments utf16 : simpl never.

(** The two pages. *)
Inductive page : Type := Pybind11Page | MemoryPoolPage.

Definition handleDownload (p : page) : network -> M unit :=
  match p with
  | Pybind11Page => Pybind11.handleDownload
  | MemoryPoolPage => MemoryPool.handleDownload
  end.

Definition bundle_file (p : page) : network -> text -> text -> M text :=
  match p with
  | Pybind11Page => Pybind11.bundle_file
  | MemoryPoolPage => MemoryPool.bundle_file
  end.

Definition masterImports (p : page) : text :=
  match p with
  | Pybind11Page => Pybind11.masterImports
  | MemoryPoolPage => MemoryPool.masterImports
  end.

Definition README (p : page) : text :=
  match p with
  | Pybind11Page => Pybind11.README
  | MemoryPoolPage => MemoryPool.README
  end.

Definition transform (p : page) : text -> text :=
  match p with
  | Pybind11Page => Pybind11.transform
  | MemoryPoolPage => MemoryPool.transform
  end.

(** The literal file name each page passes to [saveAs]. *)
Definition download_name (p : page) : text :=
  match p with
  | Pybind11Page => utf16 "pybind11-website-bundled.zip"
  | MemoryPoolPage => utf16 "memory-pool-site.zip"
  end.

(** The effects of the [catch] block around the whole bundle, for the
    caught value [e]. *)
Definition failure_report (p : page) (e : error) : list effect :=
  match p with
  | Pybind11Page =>
    [ConsoleError e; Alert (utf16 "打包下载失败 (Bundling Failed)")]
  | MemoryPoolPage => [Alert (utf16 "打包下载失败")]
  end.

(** The effects of the [catch] block around one file, for the caught value
    [e]. *)
Definition file_failure_report (p : page) (file : text) (e : error)
  : list effect :=
  match p with
  | Pybind11Page => [ConsoleWarn (utf16 "Error processing " ++ file) e]
  | MemoryPoolPage => []
  end.

(** A fetch succeeds when the promise resolves, the response is [ok] and
    its body can be read. *)
Definition fetched (net : network) (url : text) : option text :=
  match net url with
  | Resolved true (Readable t) => Some t
  | _ => None
  end.

(** What is thrown when the document at [url] is asked for and does not
    arrive: the reason of the rejected fetch, the error the handler makes
    for a response that is not [ok], or the reason the body could not be
    read.  (For a document that arrives the value is not used.) *)
Definition failure (net : network) (url : text) : error :=
  match net url with
  | Rejected reason => Rejection reason
  | Resolved true (Unreadable reason) => Rejection reason
  | Resolved _ _ => Error (utf16 "Failed to fetch " ++ url)
  end.

Definition index_html : text := utf16 "index.html".
Definition readme_md : text := utf16 "README.md".

(** What one manifest file contributes to the combined code and to the
    log. *)
Definition file_block (p : page) (net : network) (file : text) : text :=
  match fetched net file with
  | Some code => source_block file (transform p code)
  | None => error_block file
  end.

Definition file_effects (p : page) (net : network) (file : text)
  : list effect :=
  Fetch file ::
  match fetched net file with
  | Some _ => []
  | None => file_failure_report p file (failure net file)
  end.

(** The value of [combinedCode] after the loop. *)
Definition combinedCode (p : page) (net : network) : text :=
  masterImports p ++ concat (map (file_block p net) filesToBundle).

(** The script block: [`${babelScript}\n${mainScript}`]. *)
Definition script_block (cc : text) : text :=
  babelScript ++ nl ++ mainScript cc.

(** The log of a bundle whose base document arrives. *)
Definition success_log (p : page) (net : network) (html : text)
  : list effect :=
  let html' := inject html (combinedCode p net) in
  [SetIsDownloading true; Fetch index_html]
  ++ concat (map (file_effects p net) filesToBundle)
  ++ [ZipFile index_html html'; ZipFile readme_md (README p);
      SaveAs [(index_html, html'); (readme_md, README p)] (download_name p);
      SetIsDownloading false].

(** The log of a bundle whose base document does not arrive. *)
Definition failure_log (p : page) (net : network) : list effect :=
  [SetIsDownloading true; Fetch index_html]
  ++ failure_report p (failure net index_html)
  ++ [SetIsDownloading false].

(** Observations on a log. *)
Definition alerts (tr : list effect) : list text :=
  flat_map (fun e => match e with Alert m => [m] | _ => [] end) tr.
Definition warnings (tr : list effect) : list text :=
  flat_map (fun e => match e with ConsoleWarn m _ => [m] | _ => [] end) tr.
Definition fetches (tr : list effect) : list text :=
  flat_map (fun e => match e with Fetch u => [u] | _ => [] end) tr.
Definition zip_entries (tr : list effect) : list (text * text) :=
  flat_map (fun e => match e with ZipFile n d => [(n, d)] | _ => [] end) tr.
Definition saves (tr : list effect) : list (archive * text) :=
  flat_map (fun e => match e with SaveAs z n => [(z, n)] | _ => [] end) tr.

(** [x] occurs in [s]. *)
Definition occurs (x s : text) : Prop := exists pre post, s = pre ++ x ++ post.

(** What a template expands to when the pattern is a string (no captures):
    only [$$], [$&], [$`] and [$'] are special. *)
Fixpoint expand0 (matched before after template : text) : text :=
  match template with
  | [] => []
  | c :: t =>
    if negb (c =? c_dollar)%N then c :: expand0 matched before after t
    else
      match t with
      | [] => [c]
      | d :: t' =>
        if (d =? c_dollar)%N then c_dollar :: expand0 matched before after t'
        else if (d =? c_amp)%N then matched ++ expand0 matched before after t'
        else if (d =? c_btick)%N then before ++ expand0 matched before after t'
        else if (d =? c_squote)%N then after ++ expand0 matched before after t'
        else c :: d :: expand0 matched before after t'
      end
  end.

(** ** The page between events

    An invocation of [handleDownload] runs until its first [await] and
    waits there; it goes on when the promise it waits for settles, and in
    between other events are handled: further clicks on the button, and the
    promises of other invocations.  Every invocation reads the flag of the
    latest render.  A session is the component state together with the
    invocations that wait at an [await], the oldest first. *)
Definition invocation (p : page) : Async.prog unit :=
  match p with
  | Pybind11Page => Async.Pybind11.handleDownload
  | MemoryPoolPage => Async.MemoryPool.handleDownload
  end.

Record session : Type :=
  Session { current : world; waiting : list Async.suspended }.

Inductive event : Type :=
| Click                             (* the user clicks the download button *)
| Settle (i : nat) (net : network). (* the promise that the [i]-th waiting
                                       invocation awaits settles *)

Definition to_list {A} (o : option A) : list A :=
  match o with
  | Some a => [a]
  | None => []
  end.

Definition step (p : page) (s : session) (e : event) : option session :=
  match e with
  | Click =>
    let (inv, w) := Async.advance (invocation p) (current s) in
    Some (Session w (waiting s ++ to_list inv))
  | Settle i net =>
    match nth_error (waiting s) i with
    | None => None
    | Some inv =>
      let (inv', w) := Async.advance (Async.resume net inv) (current s) in
      Some (Session w (firstn i (waiting s) ++ to_list inv'
                       ++ skipn (S i) (waiting s)))
    end
  end.

Fixpoint run (p : page) (s : session) (es : list event) : option session :=
  match es with
  | [] => Some s
  | e :: es' =>
    match step p s e with
    | Some s' => run p s' es'
    | None => None
    end
  end.

Definition initial : session := Session (World false []) [].

(** ** Some networks *)

(** Nothing can be fetched. *)
Definition offline : network := fun _ => Rejected (utf16 "Failed to fetch").

(** [serving docs]: the listed documents are served, every other request is
    answered with a response that is not [ok]. *)
Fixpoint serving (docs : list (text * text)) : network :=
  fun url =>
    match docs with
    | [] => Resolved false (Readable [])
    | (u, body) :: docs' =>
      if text_eqb url u then Resolved true (Readable body) else serving docs' url
    end.

Definition has_dollar (t : text) : bool :=
  existsb (fun c => (c =? c_dollar)%N) t.

(** A deployment that serves the base document and one source file. *)
Definition demo_site : network :=
  serving [(index_html, utf16 "<html><body></body></html>");
           (utf16 "types.ts", utf16 "export type T = number;")].

(** A deployment that serves the base document only. *)
Definition base_only : network :=
  serving [(index_html, utf16 "<html><body></body></html>")].

(** A deployment one of whose source files holds a dollar sign in quotes. *)
Definition dollar_site : network :=
  serving [(index_html, utf16 "<html><body></body></html>");
           (utf16 "types.ts", utf16 "export const unit = '$';")].

(** The same deployment with the quoted dollar sign replaced by the text
    that follows [</body>] in the base document. *)
Definition dollar_site_expanded : network :=
  serving [(index_html, utf16 "<html><body></body></html>");
           (utf16 "types.ts", utf16 "export const unit = '</html>;")].

(** [x] ends with a newline. *)
Definition ends_nl (x : text) : Prop := exists x', x = x' ++ nl.

(** The script block is the combined code between a fixed opening and a
    fixed closing text. *)
Definition script_head : text :=
  babelScript ++ nl ++ utf16 "
    <script type=" ++ dq ++ utf16 "text/babel" ++ dq
  ++ utf16 " data-type=" ++ dq ++ utf16 "module" ++ dq
  ++ utf16 " data-presets=" ++ dq ++ utf16 "typescript,react" ++ dq
  ++ utf16 ">
".
Definition script_tail : text := utf16 "
    </script>".

(** The steps neither read nor write the flag. *)
Fixpoint flag_free {A} (m : Async.prog A) : Prop :=
  match m with
  | Async.Ret _ | Async.Throw _ => True
  | Async.Act _ k => flag_free k
  | Async.ReadFlag _ | Async.WriteFlag _ _ => False
  | Async.AwaitFetch _ k => forall r, flag_free (k r)
  | Async.AwaitPromise k => flag_free k
  end.

(** Started with the flag at [flag], the steps wait at an [await] only
    while the flag is set, and end only with the flag cleared. *)
Fixpoint keeps_guard {A} (flag : bool) (m : Async.prog A) : Prop :=
  match m with
  | Async.Ret _ | Async.Throw _ => flag = false
  | Async.Act _ k => keeps_guard flag k
  | Async.ReadFlag k => keeps_guard flag (k flag)
  | Async.WriteFlag b k => keeps_guard b k
  | Async.AwaitFetch _ k => flag = true /\ forall r, keeps_guard true (k r)
  | Async.AwaitPromise k => flag = true /\ keeps_guard true k
  end.

Definition guarded_wait (inv : Async.suspended) : Prop :=
  match inv with
  | Async.AtFetch _ k => forall r, keeps_guard true (k r)
  | Async.AtPromise k => keeps_guard true k
  end.

(** In a well-formed session an invocation waits exactly when the flag is
    set, and then it is the only one. *)
Definition balanced (s : session) : Prop :=
  match waiting s with
  | [] => isDownloading (current s) = false
  | [inv] => isDownloading (current s) = true /\ guarded_wait inv
  | _ => False
  end.


(** ** The keywords [import] and [export] in a document *)

Definition starts_with (w s : text) : bool :=
  match strip_prefix w s with Some _ => true | None => false end.

Definition w_import : text := utf16 "import".
Definition w_export : text := utf16 "export".

(** The text reads [import] or [export] at its head. *)
Definition is_head (s : text) : bool :=
  starts_with w_import s || starts_with w_export s.

(** The pattern matches at the head of the text. *)
Definition matches (r : regex) (s : text) : bool :=
  match rexec r s with Some _ => true | None => false end.

(** One of the four patterns of the handlers matches at the head. *)
Definition anticipated (s : text) : bool :=
  matches re_import_from s || matches re_import_side s
  || matches re_export_default s || matches re_export_decl s.

(** Every place where the text reads [import] or [export] is the start of
    a line ([line_start] tells whether the head of the text is one) and one
    of the four patterns matches there. *)
Fixpoint keywords_anticipated (line_start : bool) (s : text) : bool :=
  (if is_head s then line_start && anticipated s else true)
  && match s with
     | [] => true
     | c :: s' => keywords_anticipated (c =? c_nl)%N s'
     end.

Definition anticipated_only (code : text) : bool :=
  keywords_anticipated true code.

(** ** Vocabulary for the rewrite passes *)

(** [a] is [b] with some code units deleted. *)
Inductive subseq : text -> text -> Prop :=
| subseq_nil : subseq [] []
| subseq_keep (c : char) (a b : text) : subseq a b -> subseq (c :: a) (c :: b)
| subseq_drop (c : char) (a b : text) : subseq a b -> subseq a (c :: b).

Fixpoint drop_while (p : char -> bool) (s : text) : text :=
  match s with
  | [] => []
  | c :: s' => if p c then drop_while p s' else s
  end.

(** The text reads [w] followed by a white-space code unit. *)
Definition word_then_space (w s : text) : bool :=
  match strip_prefix w s with
  | Some (c :: _) => is_space c
  | _ => false
  end.

(** The text reads [import] or [export] followed by white space. *)
Definition keyword_then_space (s : text) : bool :=
  word_then_space w_import s || word_then_space w_export s.

(** [f] holds at no position of the text. *)
Fixpoint nowhere (f : text -> bool) (s : text) : bool :=
  negb (f s)
  && match s with
     | [] => true
     | _ :: s' => nowhere f s'
     end.

(** The declaration keywords of the fourth pattern, in its order. *)
Definition decl_keywords : list text :=
  [utf16 "const"; utf16 "function"; utf16 "class"; utf16 "interface";
   utf16 "type"; utf16 "enum"].

(** The first of the keywords [kws] the text starts with, and what follows
    it. *)
Fixpoint first_keyword (kws : list text) (s : text) : option (text * text) :=
  match kws with
  | [] => None
  | kw :: kws' =>
    match strip_prefix kw s with
    | Some rest => Some (kw, rest)
    | None => first_keyword kws' s
    end
  end.

(** The initial continuation of a match. *)
Definition k_done : cont := fun s cs => Some (s, cs).

(** A continuation that only ever consumes input. *)
Definition consuming (k : cont) : Prop :=
  forall s cs rest cs', k s cs = Some (rest, cs') -> exists m, s = m ++ rest.

(** The loop of a repetition, as it stands inside [rmatch]. *)
Definition star_loop (body : text -> captures -> cont -> result)
           (greedy : bool) (k : cont) : nat -> text -> captures -> result :=
  fix loop (n : nat) (s : text) (cs : captures) {struct n} : result :=
    match n with
    | O => k s cs
    | S n' =>
      let again (_ : unit) :=
        body s cs
          (fun s' cs' =>
             if List.length s' <? List.length s then loop n' s' cs' else None) in
      if greedy then
        match again tt with
        | Some x => Some x
        | None => k s cs
        end
      else
        match k s cs with
        | Some x => Some x
        | None => again tt
        end
    end.

(** The text [pre] ends a line: what comes after it starts a line. *)
Definition line_start (pre : text) : Prop :=
  pre = [] \/ exists pre', pre = pre' ++ [c_nl].

(** Wherever the text reads [import] or [export], that place starts a line
    and [ok] holds of the text from there on. *)
Definition guarded_keywords (ok : text -> Prop) (t : text) : Prop :=
  forall pre u, t = pre ++ u -> is_head u = true -> line_start pre /\ ok u.

(** The tail of the first pattern: [from], white space, a quoted path and an
    optional semicolon. *)
Definition re_from_clause : regex :=
  Seq (kw "from") (Seq (Plus (Class is_space)) (Seq (Class is_quote)
  (Seq (Plus (Class not_quote)) (Seq (Class is_quote) (Opt (Lit c_semi)))))).

(** The text reads [default] followed by white space. *)
Definition default_then_space (x : text) : bool :=
  word_then_space (utf16 "default") x.

(** The text starts with one of the six declaration keywords. *)
Definition keyword_next (x : text) : bool :=
  match first_keyword decl_keywords x with Some _ => true | None => false end.

(** A pattern of the shape [export], white space, [f]. *)
Definition export_form (f : text -> bool) (s : text) : bool :=
  match strip_prefix w_export s with
  | Some (c :: s1) => is_space c && f (drop_while is_space s1)
  | _ => false
  end.

(** ** The scan of a pass, half way

    While [replace] scans a document, [out] is what it has produced and [s]
    what it still has to read.  A keyword that pattern [r] has passed over
    without a match is a survivor: one of the [later] patterns matches
    there.  The keywords still ahead are matched by [r] or by a later
    pattern. *)
Definition survivor (r : regex) (later : text -> bool) (u : text) : Prop :=
  later u = true /\ rexec r u = None.

Definition pending (r : regex) (later : text -> bool) (out s : text) : Prop :=
  forall pre u, out ++ s = pre ++ u -> is_head u = true ->
    line_start pre /\
    (survivor r later u \/
     (List.length out <= List.length pre /\
      (rexec r u <> None \/ later u = true))).

(** The same for the last pass, which leaves no survivor. *)
Definition pending_decl (out s : text) : Prop :=
  forall pre u, out ++ s = pre ++ u -> is_head u = true ->
    line_start pre /\ List.length out <= List.length pre /\
    matches re_export_decl u = true.

(** The patterns that come after the first, after the second and after the
    third replacement. *)
Definition after_import_from (u : text) : bool :=
  matches re_import_side u || matches re_export_default u
  || matches re_export_decl u.
Definition after_import_side (u : text) : bool :=
  matches re_export_default u || matches re_export_decl u.
Definition after_export_default (u : text) : bool :=
  matches re_export_decl u.

(** A source file written the way the patterns anticipate. *)
Definition anticipated_sample : text := utf16 "import React, {
  useState
} from 'react';
import './style.css';
const a = 1;
import x from 'y';
export default App;
export   const n = 2;
export interface I {}".



(** What is left of [rest] once an optional semicolon at its head is
    taken. *)
Definition skip_semicolon (rest : text) : text :=
  match rest with
  | c :: r => if (c =? c_semi)%N then r else rest
  | [] => []
  end.

(** The manifest files whose fetch fails. *)
Definition failed_files (net : network) : list text :=
  filter (fun f => match fetched net f with None => true | Some _ => false end)
         filesToBundle.

(** The log without what is written to the console. *)
Definition off_console (tr : list effect) : list effect :=
  filter (fun e => match e with
                   | ConsoleWarn _ _ | ConsoleError _ => false
                   | _ => true
                   end) tr.

(** A network whose every response is an error status. *)
Definition all_errors : network := serving [].

(** The [from] clause matches at none of the first [n] positions of the
    text. *)
Fixpoint no_clause_within (n : nat) (s : text) : bool :=
  match n with
  | O => true
  | S n' =>
    negb (matches re_from_clause s)
    && match s with
       | [] => true
       | _ :: s' => no_clause_within n' s'
       end
  end.

(** The clause [from ...] matches at the head of [z]. *)
Definition from_clause_at (z : text) : Prop :=
  rmatch re_from_clause z [] k_done <> None.

(** ** Vocabulary for the free-list visualizer *)

(** A write that targets one of the first [n] entries, or no entry. *)
Definition targets_within (n : nat) (u : MemoryPoolVisualizer.update) : Prop :=
  match MemoryPoolVisualizer.index u with
  | Some z => (0 <= z < Z.of_nat n)%Z
  | None => True
  end.

(** The array has six entries and no hole, and every pending write targets
    one of them. *)
Definition six_blocks (s : MemoryPoolVisualizer.system) : Prop :=
  List.length (MemoryPoolVisualizer.blocks (MemoryPoolVisualizer.comp s)) = 6 /\
  Forall (fun b => b <> None)
         (MemoryPoolVisualizer.blocks (MemoryPoolVisualizer.comp s)) /\
  Forall (targets_within 6) (MemoryPoolVisualizer.timers s).
(* ===================================================================== *)
(** * Running the handlers                                                *)
(* ===================================================================== *)

Section Run.

Variable net : network.

Lemma fetch_text_run (url : text) (w : world) :
  fetch_text net url w =
  (match fetched net url with
   | Some t => Done t
   | None => Thrown (failure net url)
   end,
   World (isDownloading w) (trace w ++ [Fetch url])).
Proof.
  unfold fetch_text, fetched, failure, bind, emit, ret, throw.
  cbn [isDownloading trace].
  destruct (net url) as [r|[|] [t|r]]; reflexivity.
Qed.

Lemma bundle_file_run (p : page) (file cc : text) (w : world) :
  bundle_file p net file cc w =
  (Done (cc ++ file_block p net file),
   World (isDownloading w) (trace w ++ file_effects p net file)).
Proof.
  destruct p; cbn [bundle_file];
    unfold Pybind11.bundle_file, MemoryPool.bundle_file, try_catch, bind;
    rewrite fetch_text_run; unfold file_block, file_effects;
    destruct (fetched net file) as [code|];
    cbn [ret emit isDownloading trace transform file_failure_report];
    rewrite <- ?app_assoc; reflexivity.
Qed.

Lemma for_of_bundle_run (p : page) (files : list text) (cc : text) (w : world) :
  for_of files (bundle_file p net) cc w =
  (Done (cc ++ concat (map (file_block p net) files)),
   World (isDownloading w)
         (trace w ++ concat (map (file_effects p net) files))).
Proof.
  revert cc w. induction files as [|f files IH]; intros cc w.
  - cbn. rewrite !app_nil_r. destruct w; reflexivity.
  - cbn [for_of map concat]. unfold bind at 1. rewrite bundle_file_run.
    rewrite IH. cbn [isDownloading trace]. rewrite <- !app_assoc. reflexivity.
Qed.

Lemma handleDownload_busy (p : page) (w : world) :
  isDownloading w = true -> handleDownload p net w = (Done tt, w).
Proof.
  intros H. destruct p; cbn [handleDownload];
    unfold Pybind11.handleDownload, MemoryPool.handleDownload;
    rewrite H; reflexivity.
Qed.

Lemma handleDownload_success (p : page) (w : world) (html : text) :
  isDownloading w = false ->
  fetched net index_html = Some html ->
  handleDownload p net w =
  (Done tt, World false (trace w ++ success_log p net html)).
Proof.
  intros Hidle Hbase.
  destruct p; cbn [handleDownload];
    unfold Pybind11.handleDownload, MemoryPool.handleDownload;
    rewrite Hidle;
    unfold Pybind11.guarded, MemoryPool.guarded, Pybind11.bundle,
      MemoryPool.bundle, try_finally, try_catch, bind, setIsDownloading;
    rewrite fetch_text_run; fold index_html; rewrite Hbase;
    [ change Pybind11.bundle_file with (bundle_file Pybind11Page)
    | change MemoryPool.bundle_file with (bundle_file MemoryPoolPage) ];
    rewrite for_of_bundle_run; cbn [isDownloading trace emit];
    unfold success_log, combinedCode;
    cbn [masterImports README download_name];
    rewrite <- !app_assoc; reflexivity.
Qed.

Lemma handleDownload_first (p : page) (html : text) :
  fetched net index_html = Some html ->
  handleDownload p net (World false []) =
  (Done tt, World false (success_log p net html)).
Proof.
  intros Hbase. now rewrite (handleDownload_success p (World false []) html).
Qed.

Lemma handleDownload_failure (p : page) (w : world) :
  isDownloading w = false ->
  fetched net index_html = None ->
  handleDownload p net w = (Done tt, World false (trace w ++ failure_log p net)).
Proof.
  intros Hidle Hbase.
  destruct p; cbn [handleDownload];
    unfold Pybind11.handleDownload, MemoryPool.handleDownload;
    rewrite Hidle;
    unfold Pybind11.guarded, MemoryPool.guarded, Pybind11.bundle,
      MemoryPool.bundle, try_finally, try_catch, bind, setIsDownloading;
    rewrite fetch_text_run; fold index_html; rewrite Hbase;
    cbn [isDownloading trace emit]; unfold failure_log;
    cbn [failure_report]; rewrite <- !app_assoc; reflexivity.
Qed.

End Run.

(* ===================================================================== *)
(** * Facts about the string operations                                   *)
(* ===================================================================== *)


Lemma list_length_ind (A : Type) (P : list A -> Prop) :
  (forall l, (forall l', List.length l' < List.length l -> P l') -> P l) ->
  forall l, P l.
Proof.
  intros H l. remember (List.length l) as n eqn:E.
  revert l E. induction n as [n IH] using lt_wf_ind.
  intros l E. apply H. intros l' Hlt. apply (IH (List.length l')); lia.
Qed.

Lemma strip_prefix_app (p s : text) : strip_prefix p (p ++ s) = Some s.
Proof.
  induction p as [|c p IH]; cbn; [reflexivity|].
  rewrite N.eqb_refl. exact IH.
Qed.

Lemma strip_prefix_Some (p s r : text) :
  strip_prefix p s = Some r -> s = p ++ r.
Proof.
  revert s. induction p as [|c p IH]; intros s H; cbn in H.
  - now inversion H.
  - destruct s as [|x s]; [discriminate|].
    destruct (N.eqb_spec x c); [|discriminate].
    subst. cbn. f_equal. now apply IH.
Qed.

Lemma find_first_Some (p s b a : text) :
  find_first p s = Some (b, a) -> s = b ++ p ++ a.
Proof.
  revert b. induction s as [|x s IH]; intros b H.
  - cbn in H. destruct (strip_prefix p []) eqn:E; [|discriminate].
    inversion H; subst. now apply strip_prefix_Some in E.
  - cbn in H. destruct (strip_prefix p (x :: s)) eqn:E.
    + inversion H; subst. now apply strip_prefix_Some in E.
    + destruct (find_first p s) as [[b' a']|]; [|discriminate].
      inversion H; subst. cbn. f_equal. now apply IH.
Qed.

Lemma find_first_eq (p s : text) :
  find_first p s =
  match strip_prefix p s with
  | Some rest => Some ([], rest)
  | None =>
    match s with
    | [] => None
    | x :: s' =>
      match find_first p s' with
      | Some (before, after) => Some (x :: before, after)
      | None => None
      end
    end
  end.
Proof. destruct s; reflexivity. Qed.

Lemma find_first_app (p x y : text) :
  exists b a, find_first p (x ++ p ++ y) = Some (b, a).
Proof.
  induction x as [|c x IH].
  - exists [], y. cbn [app]. now rewrite find_first_eq, strip_prefix_app.
  - destruct IH as (b & a & IH). rewrite find_first_eq. cbn [app].
    destruct (strip_prefix p (c :: x ++ p ++ y)); [eauto|].
    rewrite IH. eauto.
Qed.

(** ** Templates without captures *)

Lemma is_digit_not_dollar (e : char) : is_digit e = true -> (e =? c_dollar)%N = false.
Proof.
  unfold is_digit, c_dollar. intros H. apply andb_prop in H as [H _].
  apply N.leb_le in H. apply N.eqb_neq. lia.
Qed.

Lemma GetSubstitution_no_captures (m b a tpl : text) :
  GetSubstitution m b a [] tpl = expand0 m b a tpl.
Proof.
  induction tpl as [tpl IH] using list_length_ind.
  destruct tpl as [|c t]; [reflexivity|].
  cbn [GetSubstitution expand0].
  destruct (negb (c =? c_dollar)%N) eqn:Ec.
  { f_equal. apply IH. cbn. lia. }
  destruct t as [|d t']; [reflexivity|].
  assert (IH' : GetSubstitution m b a [] t' = expand0 m b a t')
    by (apply IH; cbn; lia).
  destruct (d =? c_dollar)%N; [now rewrite IH'|].
  destruct (d =? c_amp)%N; [now rewrite IH'|].
  destruct (d =? c_btick)%N; [now rewrite IH'|].
  destruct (d =? c_squote)%N; [now rewrite IH'|].
  destruct (is_digit d) eqn:Ed; [|now rewrite IH'].
  assert (One : (if (1 <=? digit_val d) && (digit_val d <=? @List.length (option text) [])
                 then capture_text [] (digit_val d) ++ GetSubstitution m b a [] t'
                 else c :: d :: GetSubstitution m b a [] t')
                = c :: d :: expand0 m b a t').
  { cbn [List.length]. rewrite IH'.
    destruct (digit_val d); cbn; reflexivity. }
  destruct t' as [|e t'']; [exact One|].
  destruct (is_digit e) eqn:Ee; [|exact One].
  cbn [List.length].
  destruct (10 * digit_val d + digit_val e) eqn:Ei.
  - cbn [Nat.ltb Nat.leb]. cbn [expand0].
    rewrite (is_digit_not_dollar _ Ee). cbn [negb].
    do 3 f_equal. apply IH. cbn. lia.
  - change (0 <? S n) with true. cbv iota. exact One.
Qed.

Lemma expand0_plain (m b a tpl : text) :
  ~ In c_dollar tpl -> expand0 m b a tpl = tpl.
Proof.
  induction tpl as [|c t IH]; intros H; [reflexivity|].
  cbn [expand0]. destruct (N.eqb_spec c c_dollar) as [->|_].
  - exfalso. apply H. now left.
  - cbn [negb]. f_equal. apply IH. intros Hin. apply H. now right.
Qed.

(** Expansion distributes over a split of the template that does not cut a
    [$] token: the left part must not end with [$]. *)
Ltac len := cbn [List.length]; auto with arith.

Lemma expand0_app (m b a x y : text) :
  last x 0%N <> c_dollar ->
  expand0 m b a (x ++ y) = expand0 m b a x ++ expand0 m b a y.
Proof.
  induction x as [x IH] using list_length_ind. intros Hlast.
  destruct x as [|c t]; [reflexivity|].
  assert (Ht : forall u, List.length u < List.length (c :: t) ->
                         (u = [] \/ last u 0%N = last (c :: t) 0%N) ->
                         expand0 m b a (u ++ y) = expand0 m b a u ++ expand0 m b a y).
  { intros u Hu [->|Hl]; [reflexivity|]. apply IH; [exact Hu|]. intros E. apply Hlast. now rewrite <- Hl. }
  cbn [app expand0].
  destruct (negb (c =? c_dollar)%N) eqn:Ec.
  { cbn [app]. f_equal. apply Ht; [len|]. destruct t; [now left|now right]. }
  destruct t as [|d t'].
  { exfalso. apply Hlast. cbn. apply negb_false_iff in Ec. now apply N.eqb_eq in Ec. }
  assert (IH' : expand0 m b a (t' ++ y) = expand0 m b a t' ++ expand0 m b a y).
  { apply Ht; [len|]. destruct t'; [now left|now right]. }
  cbn [app]. rewrite IH'.
  destruct (d =? c_dollar)%N; [reflexivity|].
  destruct (d =? c_amp)%N; [now rewrite app_assoc|].
  destruct (d =? c_btick)%N; [now rewrite app_assoc|].
  destruct (d =? c_squote)%N; [now rewrite app_assoc|].
  reflexivity.
Qed.

(** ** Injection into the base document *)

Lemma inject_without_marker (html cc : text) :
  find_first body_close html = None ->
  inject html cc = html ++ script_block cc.
Proof.
  intros H. unfold inject, includes. now rewrite H.
Qed.

Lemma inject_with_marker (html cc b a : text) :
  find_first body_close html = Some (b, a) ->
  inject html cc =
  b ++ expand0 body_close b a (script_block cc ++ nl ++ body_close) ++ a.
Proof.
  intros H. unfold inject, includes, replace_string. rewrite H.
  rewrite GetSubstitution_no_captures. unfold script_block.
  now rewrite <- !app_assoc.
Qed.

(* ===================================================================== *)
(** * Logs                                                                *)
(* ===================================================================== *)

Lemma alerts_app (a b : list effect) : alerts (a ++ b) = alerts a ++ alerts b.
Proof. apply flat_map_app. Qed.
Lemma warnings_app (a b : list effect) :
  warnings (a ++ b) = warnings a ++ warnings b.
Proof. apply flat_map_app. Qed.
Lemma zip_entries_app (a b : list effect) :
  zip_entries (a ++ b) = zip_entries a ++ zip_entries b.
Proof. apply flat_map_app. Qed.
Lemma saves_app (a b : list effect) : saves (a ++ b) = saves a ++ saves b.
Proof. apply flat_map_app. Qed.

Section FileEffects.

Variables (p : page) (net : network).

Lemma file_effects_quiet (files : list text) :
  alerts (concat (map (file_effects p net) files)) = [] /\
  zip_entries (concat (map (file_effects p net) files)) = [] /\
  saves (concat (map (file_effects p net) files)) = [].
Proof.
  induction files as [|f files (IHa & IHz & IHs)]; [now cbn|].
  cbn [map concat]. rewrite alerts_app, zip_entries_app, saves_app, IHa, IHz, IHs.
  unfold file_effects.
  destruct (fetched net f); destruct p; repeat split; reflexivity.
Qed.

Lemma success_log_alerts (html : text) : alerts (success_log p net html) = [].
Proof.
  unfold success_log. rewrite !alerts_app.
  destruct (file_effects_quiet filesToBundle) as (-> & _). reflexivity.
Qed.

Lemma success_log_saves (html : text) :
  saves (success_log p net html) =
  [([(index_html, inject html (combinedCode p net)); (readme_md, README p)],
    download_name p)].
Proof.
  unfold success_log. rewrite !saves_app.
  destruct (file_effects_quiet filesToBundle) as (_ & _ & ->). reflexivity.
Qed.

Lemma success_log_zip_entries (html : text) :
  zip_entries (success_log p net html) =
  [(index_html, inject html (combinedCode p net)); (readme_md, README p)].
Proof.
  unfold success_log. rewrite !zip_entries_app.
  destruct (file_effects_quiet filesToBundle) as (_ & -> & _). reflexivity.
Qed.

End FileEffects.

Lemma fetches_app (a b : list effect) : fetches (a ++ b) = fetches a ++ fetches b.
Proof. apply flat_map_app. Qed.

Lemma file_effects_fetches (p : page) (net : network) (files : list text) :
  fetches (concat (map (file_effects p net) files)) = files.
Proof.
  induction files as [|f files IH]; [reflexivity|].
  cbn [map concat]. rewrite fetches_app, IH. unfold file_effects.
  destruct (fetched net f); destruct p; reflexivity.
Qed.

Lemma success_log_fetches (p : page) (net : network) (html : text) :
  fetches (success_log p net html) = index_html :: filesToBundle.
Proof.
  unfold success_log. rewrite !fetches_app, file_effects_fetches.
  cbn [fetches flat_map app]. now rewrite app_nil_r.
Qed.

(** ** The manifest *)

Lemma filesToBundle_NoDup : NoDup filesToBundle.
Proof.
  unfold filesToBundle.
  repeat (constructor; [cbn [In]; vm_compute; intuition discriminate|]).
  constructor.
Qed.

Lemma manifest_split (file : text) :
  In file filesToBundle ->
  exists l1 l2, filesToBundle = l1 ++ file :: l2 /\ ~ In file l1 /\ ~ In file l2.
Proof.
  intros H. destruct (in_split _ _ H) as (l1 & l2 & E).
  exists l1, l2. split; [exact E|].
  pose proof filesToBundle_NoDup as ND. rewrite E in ND.
  apply NoDup_remove_2 in ND. split; intros Hin; apply ND, in_or_app; auto.
Qed.

Lemma file_block_ext (p : page) (net net' : network) (file : text) (l : list text) :
  (forall u, u <> file -> net' u = net u) -> ~ In file l ->
  map (file_block p net') l = map (file_block p net) l.
Proof.
  intros Hagree Hnot. apply map_ext_in. intros u Hu.
  unfold file_block, fetched. rewrite Hagree; [reflexivity|].
  intros ->. now apply Hnot.
Qed.

(** ** Dollar signs *)

Lemma has_dollar_app (x y : text) :
  has_dollar (x ++ y) = has_dollar x || has_dollar y.
Proof. apply existsb_app. Qed.

Lemma has_dollar_false (t : text) : has_dollar t = false -> ~ In c_dollar t.
Proof.
  unfold has_dollar. intros H Hin.
  assert (existsb (fun c => (c =? c_dollar)%N) t = true).
  { apply existsb_exists. exists c_dollar. split; [exact Hin|apply N.eqb_refl]. }
  congruence.
Qed.

Lemma script_block_dollar (cc : text) :
  has_dollar (script_block cc ++ nl ++ body_close) = has_dollar cc.
Proof.
  unfold script_block, mainScript. rewrite !has_dollar_app.
  repeat match goal with
         | |- context [has_dollar ?t] =>
           lazymatch t with
           | cc => fail
           | _ => change (has_dollar t) with false
           end
         end.
  cbn [orb]. now rewrite !orb_false_r.
Qed.

(** With no [$] in the combined code the script block lands in the document
    as it is: before the first [</body>], or at the end. *)
Lemma inject_plain (html cc : text) :
  has_dollar cc = false ->
  inject html cc =
  match find_first body_close html with
  | Some (b, a) => b ++ script_block cc ++ nl ++ body_close ++ a
  | None => html ++ script_block cc
  end.
Proof.
  intros H. destruct (find_first body_close html) as [[b a]|] eqn:E.
  - rewrite (inject_with_marker _ _ _ _ E), expand0_plain.
    + now rewrite <- !app_assoc.
    + apply has_dollar_false. now rewrite script_block_dollar.
  - now apply inject_without_marker.
Qed.

(* ===================================================================== *)
(** * Properties of the handlers                                          *)
(* ===================================================================== *)

(** ** The base document cannot be fetched *)

(** C2.  When the fetch of the base document fails (the promise rejects, the
    response is not ok, or its body cannot be read), the handler of either
    page adds no entry to the zip object and never calls [saveAs], shows
    exactly one alert, fetches nothing else, and leaves [isDownloading]
    false. *)
Theorem base_failure_aborts (p : page) (net : network) (w : world) :
  isDownloading w = false ->
  fetched net index_html = None ->
  exists tr,
    handleDownload p net w = (Done tt, World false (trace w ++ tr)) /\
    zip_entries tr = [] /\
    saves tr = [] /\
    List.length (alerts tr) = 1 /\
    fetches tr = [index_html].
Proof.
  intros Hidle Hbase. exists (failure_log p net).
  split; [now apply handleDownload_failure|].
  destruct p; repeat split; reflexivity.
Qed.

Lemma base_failure_aborts_witness :
  isDownloading (World false []) = false /\
  fetched offline index_html = None /\
  exists tr,
    handleDownload Pybind11Page offline (World false []) =
      (Done tt, World false (trace (World false []) ++ tr)) /\
    zip_entries tr = [] /\
    saves tr = [] /\
    List.length (alerts tr) = 1 /\
    fetches tr = [index_html].
Proof.
  split; [reflexivity|]. split; [reflexivity|].
  apply (base_failure_aborts Pybind11Page offline (World false []));
    reflexivity.
Defined.

(** ** The combined code *)

(** C4.  Whenever the base document arrives, the text placed in the inline
    script of [index.html] is the master import block followed, for the
    manifest paths in their order (types, the two components, the
    application, the entry point), by one block per path: for a fetched
    document the marker comment with its path, the rewritten document and a
    newline. *)
Theorem combined_code_layout (p : page) (net : network) (w : world) (html : text) :
  isDownloading w = false ->
  fetched net index_html = Some html ->
  let block file :=
    match fetched net file with
    | Some code =>
      utf16 "

/* --- Source: " ++ file ++ utf16 " --- */
" ++ transform p code ++ nl
    | None => error_block file
    end in
  let code :=
    masterImports p
    ++ block (utf16 "types.ts")
    ++ block (utf16 "components/QuantumScene.tsx")
    ++ block (utf16 "components/Diagrams.tsx")
    ++ block (utf16 "App.tsx")
    ++ block (utf16 "index.tsx") in
  exists tr,
    handleDownload p net w = (Done tt, World false (trace w ++ tr)) /\
    zip_entries tr = [(index_html, inject html code); (readme_md, README p)].
Proof.
  intros Hidle Hbase block code. exists (success_log p net html).
  split; [now apply handleDownload_success|].
  rewrite success_log_zip_entries. do 3 f_equal.
  unfold combinedCode, code, filesToBundle. cbn [map concat].
  rewrite app_nil_r. reflexivity.
Qed.

Lemma combined_code_layout_witness :
  isDownloading (World false []) = false /\
  fetched demo_site index_html = Some (utf16 "<html><body></body></html>") /\
  exists tr index',
    handleDownload MemoryPoolPage demo_site (World false []) =
      (Done tt, World false tr) /\
    zip_entries tr = [(index_html, index'); (readme_md, README MemoryPoolPage)].
Proof.
  split; [reflexivity|]. split; [reflexivity|].
  destruct (combined_code_layout MemoryPoolPage demo_site (World false [])
              (utf16 "<html><body></body></html>") eq_refl eq_refl)
    as (tr & Hrun & Hzip).
  exists tr. eexists. split; [exact Hrun|exact Hzip].
Defined.

(** ** The two pipelines *)

(** C9.  The four replacements of the pybind11 page and the four
    replacements of the memory-pool page are the same function of the
    fetched text. *)
Theorem transform_same_on_both_pages (code : text) :
  Pybind11.transform code = MemoryPool.transform code.
Proof. unfold Pybind11.transform, MemoryPool.transform. reflexivity. Qed.

(** ** Only the base document is fatal *)

Lemma error_blocks_plain (p : page) :
  has_dollar (masterImports p ++ concat (map error_block filesToBundle)) = false.
Proof. destruct p; vm_compute; reflexivity. Qed.

Lemma combinedCode_all_failed (p : page) (net : network) :
  (forall file, In file filesToBundle -> fetched net file = None) ->
  combinedCode p net = masterImports p ++ concat (map error_block filesToBundle).
Proof.
  intros H. unfold combinedCode. f_equal. f_equal.
  apply map_ext_in. intros f Hf. unfold file_block. now rewrite (H f Hf).
Qed.

Lemma script_block_written_out (cc : text) :
  script_block cc =
  (utf16 "<script src=" ++ [34%N]
   ++ utf16 "https://unpkg.com/@babel/standalone/babel.min.js" ++ [34%N]
   ++ utf16 "></script>")
  ++ utf16 "
" ++ (utf16 "
    <script type=" ++ [34%N] ++ utf16 "text/babel" ++ [34%N]
      ++ utf16 " data-type=" ++ [34%N] ++ utf16 "module" ++ [34%N]
      ++ utf16 " data-presets=" ++ [34%N] ++ utf16 "typescript,react" ++ [34%N]
      ++ utf16 ">
" ++ cc ++ utf16 "
    </script>").
Proof. reflexivity. Qed.

(** C10.  Whenever the base document arrives the handler runs to its end,
    shows no alert and saves one archive of two entries, whatever happens
    to the manifest files.  When every manifest fetch fails, [index.html] is
    the base document with the two script elements put before its first
    [</body>] (or at its end when it has none), and the inline script holds
    the master import block followed by one placeholder comment per manifest
    path, in manifest order, and nothing else. *)
Theorem only_base_failure_aborts (p : page) (net : network) (w : world) (html : text) :
  isDownloading w = false ->
  fetched net index_html = Some html ->
  exists tr index',
    handleDownload p net w = (Done tt, World false (trace w ++ tr)) /\
    alerts tr = [] /\
    zip_entries tr = [(utf16 "index.html", index'); (utf16 "README.md", README p)] /\
    saves tr = [([(index_html, index'); (readme_md, README p)], download_name p)] /\
    ((forall file, In file filesToBundle -> fetched net file = None) ->
     let placeholder file :=
       utf16 "
/* Error loading " ++ file ++ utf16 " */
" in
     let code :=
       masterImports p
       ++ placeholder (utf16 "types.ts")
       ++ placeholder (utf16 "components/QuantumScene.tsx")
       ++ placeholder (utf16 "components/Diagrams.tsx")
       ++ placeholder (utf16 "App.tsx")
       ++ placeholder (utf16 "index.tsx") in
     let scripts :=
       (utf16 "<script src=" ++ [34%N]
        ++ utf16 "https://unpkg.com/@babel/standalone/babel.min.js" ++ [34%N]
        ++ utf16 "></script>")
       ++ utf16 "
" ++ (utf16 "
    <script type=" ++ [34%N] ++ utf16 "text/babel" ++ [34%N]
           ++ utf16 " data-type=" ++ [34%N] ++ utf16 "module" ++ [34%N]
           ++ utf16 " data-presets=" ++ [34%N] ++ utf16 "typescript,react" ++ [34%N]
           ++ utf16 ">
" ++ code ++ utf16 "
    </script>") in
     index' =
     match find_first (utf16 "</body>") html with
     | Some (before, after) =>
       before ++ scripts ++ utf16 "
" ++ utf16 "</body>" ++ after
     | None => html ++ scripts
     end).
Proof.
  intros Hidle Hbase.
  exists (success_log p net html), (inject html (combinedCode p net)).
  split; [now apply handleDownload_success|].
  split; [apply success_log_alerts|].
  split; [apply success_log_zip_entries|].
  split; [apply success_log_saves|].
  intros Hall placeholder code scripts.
  assert (E : combinedCode p net = code).
  { rewrite (combinedCode_all_failed p net Hall). unfold code, filesToBundle.
    cbn [map concat]. now rewrite app_nil_r. }
  assert (Es : scripts = script_block code)
    by (symmetry; apply script_block_written_out).
  rewrite E, Es. apply inject_plain.
  rewrite <- E, (combinedCode_all_failed p net Hall). apply error_blocks_plain.
Qed.

Lemma only_base_failure_aborts_witness :
  isDownloading (World false []) = false /\
  fetched base_only index_html = Some (utf16 "<html><body></body></html>") /\
  (forall file, In file filesToBundle -> fetched base_only file = None) /\
  exists tr index',
    handleDownload MemoryPoolPage base_only (World false []) =
      (Done tt, World false tr) /\
    alerts tr = [] /\
    saves tr = [([(index_html, index'); (readme_md, README MemoryPoolPage)],
                 download_name MemoryPoolPage)] /\
    index' =
    utf16 "<html><body><script src=" ++ [34%N]
    ++ utf16 "https://unpkg.com/@babel/standalone/babel.min.js" ++ [34%N]
    ++ utf16 "></script>

    <script type=" ++ [34%N] ++ utf16 "text/babel" ++ [34%N]
    ++ utf16 " data-type=" ++ [34%N] ++ utf16 "module" ++ [34%N]
    ++ utf16 " data-presets=" ++ [34%N] ++ utf16 "typescript,react" ++ [34%N]
    ++ utf16 ">

import React, { useState, useEffect, useRef, useMemo } from 'react';
import ReactDOM from 'react-dom/client';
import * as THREE from 'three';
import { Canvas, useFrame } from '@react-three/fiber';
import { Float, Box, Environment, Stars, Instances, Instance } from '@react-three/drei';
import { motion, AnimatePresence } from 'framer-motion';
import { ArrowDown, Menu, X, ExternalLink, Code2, AlertTriangle, Layers, Download, Loader2, Check, Copy, Terminal, ArrowRight, Clock, Zap, Cpu, Hammer, FileCode, Monitor, Lock, Trash2, Split, Scale, CheckCircle2, XCircle, Server, Database, Bug, BookOpen, Component, Braces, AlertCircle, Info, Flame, Target, ShieldAlert, Workflow } from 'lucide-react';
import JSZip from 'jszip';
import saveAs from 'file-saver';

/* Error loading types.ts */

/* Error loading components/QuantumScene.tsx */

/* Error loading components/Diagrams.tsx */

/* Error loading App.tsx */

/* Error loading index.tsx */

    </script>
</body></html>".
Proof.
  assert (Hall : forall file, In file filesToBundle -> fetched base_only file = None).
  { intros file Hin. unfold filesToBundle in Hin. cbn [In] in Hin.
    repeat (destruct Hin as [<-|Hin]; [reflexivity|]). destruct Hin. }
  split; [reflexivity|]. split; [reflexivity|]. split; [exact Hall|].
  destruct (only_base_failure_aborts MemoryPoolPage base_only (World false [])
              (utf16 "<html><body></body></html>") eq_refl eq_refl)
    as (tr & index' & Hrun & Ha & _ & Hs & Hidx).
  exists tr, index'. repeat split; try assumption.
  rewrite (Hidx Hall). vm_compute. reflexivity.
Defined.

(** ** The archive *)

(** C8, as stated, fails on the memory-pool page: the [README.md] it packs
    is a two-line note that names no command to start a local server. *)
Lemma memory_pool_readme_names_no_server :
  exists tr index',
    handleDownload MemoryPoolPage base_only (World false []) =
      (Done tt, World false tr) /\
    saves tr =
      [([(index_html, index');
         (readme_md, utf16 "# Memory Pool Website Source

See index.html for bundled source.")],
        utf16 "memory-pool-site.zip")] /\
    includes (README MemoryPoolPage) (utf16 "server") = false /\
    includes (README MemoryPoolPage) (utf16 "python") = false /\
    includes (README MemoryPoolPage) (utf16 "npx") = false.
Proof.
  eexists. eexists. split; [|split].
  - apply handleDownload_first. reflexivity.
  - rewrite success_log_saves. reflexivity.
  - repeat split; vm_compute; reflexivity.
Qed.

(** C8, amended.  Whenever the base document arrives, the zip object handed
    to [saveAs] has exactly two entries, [index.html] (the base document
    with the script block injected) and [README.md], and the file name is
    the page's literal.  The README does not depend on what was fetched; on
    the pybind11 page it names the commands [python -m http.server] and
    [npx serve], on the memory-pool page it is a two-line note without
    commands.  The two file names differ. *)
Theorem archive_contents (p : page) (net : network) (w : world) (html : text) :
  isDownloading w = false ->
  fetched net index_html = Some html ->
  exists tr,
    handleDownload p net w = (Done tt, World false (trace w ++ tr)) /\
    saves tr =
      [([(utf16 "index.html", inject html (combinedCode p net));
         (utf16 "README.md", README p)],
        match p with
        | Pybind11Page => utf16 "pybind11-website-bundled.zip"
        | MemoryPoolPage => utf16 "memory-pool-site.zip"
        end)] /\
    zip_entries tr =
      [(utf16 "index.html", inject html (combinedCode p net));
       (utf16 "README.md", README p)] /\
    includes (README Pybind11Page) (utf16 "python -m http.server") = true /\
    includes (README Pybind11Page) (utf16 "npx serve") = true /\
    README MemoryPoolPage = utf16 "# Memory Pool Website Source

See index.html for bundled source." /\
    download_name Pybind11Page <> download_name MemoryPoolPage.
Proof.
  intros Hidle Hbase. exists (success_log p net html).
  split; [now apply handleDownload_success|].
  split; [rewrite success_log_saves; destruct p; reflexivity|].
  split; [apply success_log_zip_entries|].
  repeat split; try (vm_compute; reflexivity).
  vm_compute. discriminate.
Qed.

Lemma archive_contents_witness :
  isDownloading (World false []) = false /\
  fetched demo_site index_html = Some (utf16 "<html><body></body></html>") /\
  exists tr,
    handleDownload Pybind11Page demo_site (World false []) =
      (Done tt, World false tr) /\
    List.length (saves tr) = 1 /\ List.length (zip_entries tr) = 2.
Proof.
  split; [reflexivity|]. split; [reflexivity|].
  destruct (archive_contents Pybind11Page demo_site (World false [])
              (utf16 "<html><body></body></html>") eq_refl eq_refl)
    as (tr & Hrun & Hs & Hz & _).
  exists tr. split; [exact Hrun|]. rewrite Hs, Hz. split; reflexivity.
Defined.

(** ** Re-entrancy *)

Section Guard.
Import Async.

Lemma flag_free_bind (A B : Type) (m : prog A) (f : A -> prog B) :
  flag_free m -> (forall a, flag_free (f a)) -> flag_free (bind m f).
Proof.
  intros Hm Hf. induction m as [a|e|e k IH|k IH|b k IH|url k IH|k IH];
    cbn [bind flag_free] in *; auto.
Qed.

Lemma flag_free_try_catch (A : Type) (body : prog A) (handler : error -> prog A) :
  flag_free body -> (forall e, flag_free (handler e)) ->
  flag_free (try_catch body handler).
Proof.
  intros Hm Hh. induction body as [a|e|e k IH|k IH|b k IH|url k IH|k IH];
    cbn [try_catch flag_free] in *; auto.
Qed.

Lemma flag_free_for_of (A B : Type) (body : A -> B -> prog B) (xs : list A) :
  (forall x acc, flag_free (body x acc)) ->
  forall acc, flag_free (for_of xs body acc).
Proof.
  intros Hb. induction xs as [|x xs IH]; intros acc; cbn [for_of].
  - exact I.
  - apply flag_free_bind; [apply Hb|exact IH].
Qed.

Lemma flag_free_fetch_text (url : text) : flag_free (fetch_text url).
Proof.
  unfold fetch_text. cbn [flag_free]. intros [reason|[|] [t|reason]]; exact I.
Qed.

Lemma flag_free_bundle_file (p : page) (file cc : text) :
  flag_free (match p with
             | Pybind11Page => Pybind11.bundle_file file cc
             | MemoryPoolPage => MemoryPool.bundle_file file cc
             end).
Proof.
  destruct p; unfold Pybind11.bundle_file, MemoryPool.bundle_file;
    apply flag_free_try_catch;
    try (apply flag_free_bind; [apply flag_free_fetch_text|]);
    intros; exact I.
Qed.

Lemma flag_free_bundle (p : page) :
  flag_free (match p with
             | Pybind11Page => Pybind11.bundle
             | MemoryPoolPage => MemoryPool.bundle
             end).
Proof.
  destruct p; unfold Pybind11.bundle, MemoryPool.bundle.
  - apply flag_free_bind; [apply flag_free_fetch_text|]. intros html.
    apply flag_free_bind.
    + apply flag_free_for_of. intros f cc.
      exact (flag_free_bundle_file Pybind11Page f cc).
    + intros cc. exact I.
  - apply flag_free_bind; [apply flag_free_fetch_text|]. intros html.
    apply flag_free_bind.
    + apply flag_free_for_of. intros f cc.
      exact (flag_free_bundle_file MemoryPoolPage f cc).
    + intros cc. exact I.
Qed.

(** [finally { setIsDownloading(false) }] around steps that leave the flag
    alone: the flag set at the entry stays set at every [await] and is
    cleared at the end, however the steps end. *)
Lemma finally_keeps_guard (A : Type) (body : prog A) :
  flag_free body ->
  keeps_guard true (try_finally body (setIsDownloading false)).
Proof.
  induction body as [a|e|e k IH|k IH|b k IH|url k IH|k IH];
    cbn [try_finally flag_free keeps_guard bind setIsDownloading];
    intros H; auto; contradiction.
Qed.

Lemma invocation_keeps_guard (p : page) : keeps_guard false (invocation p).
Proof.
  destruct p; cbn [invocation];
    unfold Pybind11.handleDownload, MemoryPool.handleDownload;
    cbn [keeps_guard bind setIsDownloading]; apply finally_keeps_guard;
    apply flag_free_try_catch;
    [exact (flag_free_bundle Pybind11Page)|intros; exact I
    |exact (flag_free_bundle MemoryPoolPage)|intros; exact I].
Qed.

Lemma advance_keeps_guard (m : prog unit) :
  forall w, keeps_guard (isDownloading w) m ->
  match advance m w with
  | (None, w') => isDownloading w' = false
  | (Some inv, w') => isDownloading w' = true /\ guarded_wait inv
  end.
Proof.
  induction m as [a|e|e k IH|k IH|b k IH|url k IH|k IH];
    intros w H; cbn [advance keeps_guard] in *.
  - exact H.
  - exact H.
  - apply IH. exact H.
  - apply IH. exact H.
  - apply IH. exact H.
  - exact H.
  - exact H.
Qed.

(** An invocation that finds the flag set returns at its first statement. *)
Lemma invocation_busy (p : page) (w : world) :
  isDownloading w = true -> advance (invocation p) w = (None, w).
Proof.
  intros H. destruct p; cbn [invocation];
    unfold Pybind11.handleDownload, MemoryPool.handleDownload;
    cbn [advance]; rewrite H; reflexivity.
Qed.

Lemma step_balanced (p : page) (s s' : session) (e : event) :
  balanced s -> step p s e = Some s' -> balanced s'.
Proof.
  unfold balanced. destruct s as [w ws]. cbn [current waiting].
  intros Hb Hstep. destruct e as [|i net]; cbn [step current waiting] in Hstep.
  - destruct ws as [|inv [|inv' ws]]; [| |contradiction].
    + pose proof (advance_keeps_guard (invocation p) w) as Ha.
      rewrite Hb in Ha. specialize (Ha (invocation_keeps_guard p)).
      destruct (advance (invocation p) w) as [[inv|] w'];
        inversion Hstep; subst; cbn [current waiting to_list app]; exact Ha.
    + destruct Hb as [Hflag Hinv].
      rewrite (invocation_busy p w Hflag) in Hstep.
      inversion Hstep; subst. cbn [current waiting to_list app]. now split.
  - destruct ws as [|inv [|inv' ws]]; [| |contradiction].
    + destruct i; discriminate.
    + destruct Hb as [Hflag Hinv].
      destruct i as [|i]; [|destruct i; discriminate].
      cbn [nth_error] in Hstep.
      pose proof (advance_keeps_guard (resume net inv) w) as Ha.
      rewrite Hflag in Ha.
      assert (Hk : keeps_guard true (resume net inv))
        by (destruct inv; cbn [resume]; apply Hinv).
      specialize (Ha Hk).
      destruct (advance (resume net inv) w) as [[inv1|] w'];
        inversion Hstep; subst; cbn [current waiting to_list app firstn skipn];
        exact Ha.
Qed.

Lemma run_balanced (p : page) (es : list event) (s s' : session) :
  balanced s -> run p s es = Some s' -> balanced s'.
Proof.
  revert s. induction es as [|e es IH]; intros s Hb Hrun; cbn [run] in Hrun.
  - now inversion Hrun; subst.
  - destruct (step p s e) as [s1|] eqn:E; [|discriminate].
    apply (IH s1); [|exact Hrun]. exact (step_balanced p s s1 e Hb E).
Qed.

End Guard.

(** ** An invocation that is not interrupted

    Run with no other event between its awaits, the steps of a handler do
    what the handler does when it is run in one piece. *)

Section Uninterrupted.
Import Async.

Variable net : network.

Lemma bind_ext (A B : Type) (m1 m2 : M A) (f1 f2 : A -> M B) :
  (forall w, m1 w = m2 w) -> (forall a w, f1 a w = f2 a w) ->
  forall w, Bundler.bind m1 f1 w = Bundler.bind m2 f2 w.
Proof.
  intros Hm Hf w. unfold Bundler.bind. rewrite Hm.
  destruct (m2 w) as [[a|e] w']; [apply Hf|reflexivity].
Qed.

Lemma try_catch_ext (A : Type) (m1 m2 : M A) (h1 h2 : error -> M A) :
  (forall w, m1 w = m2 w) -> (forall e w, h1 e w = h2 e w) ->
  forall w, Bundler.try_catch m1 h1 w = Bundler.try_catch m2 h2 w.
Proof.
  intros Hm Hh w. unfold Bundler.try_catch. rewrite Hm.
  destruct (m2 w) as [[a|e] w']; [reflexivity|apply Hh].
Qed.

Lemma try_finally_ext (A : Type) (m1 m2 : M A) (f1 f2 : M unit) :
  (forall w, m1 w = m2 w) -> (forall w, f1 w = f2 w) ->
  forall w, Bundler.try_finally m1 f1 w = Bundler.try_finally m2 f2 w.
Proof.
  intros Hm Hf w. unfold Bundler.try_finally. rewrite Hm.
  destruct (m2 w) as [r w']. now rewrite Hf.
Qed.

Lemma complete_bind (A B : Type) (m : prog A) (f : A -> prog B) :
  forall w,
    complete net (bind m f) w
    = Bundler.bind (complete net m) (fun a => complete net (f a)) w.
Proof.
  induction m as [a|e|e k IH|k IH|b k IH|url k IH|k IH]; intros w;
    cbn [bind complete]; try reflexivity; try apply IH.
Qed.

Lemma complete_try_catch (A : Type) (body : prog A) (handler : error -> prog A) :
  forall w,
    complete net (try_catch body handler) w
    = Bundler.try_catch (complete net body)
                        (fun e => complete net (handler e)) w.
Proof.
  induction body as [a|e|e k IH|k IH|b k IH|url k IH|k IH]; intros w;
    cbn [try_catch complete]; try reflexivity; try apply IH.
Qed.

Lemma complete_try_finally (A : Type) (body : prog A) (final : prog unit) :
  forall w,
    complete net (try_finally body final) w
    = Bundler.try_finally (complete net body) (complete net final) w.
Proof.
  induction body as [a|e|e k IH|k IH|b k IH|url k IH|k IH]; intros w;
    cbn [try_finally complete]; try apply IH.
  - rewrite complete_bind. unfold Bundler.bind, Bundler.try_finally.
    cbn [complete]. destruct (complete net final w) as [[[]|e] w']; reflexivity.
  - rewrite complete_bind. unfold Bundler.bind, Bundler.try_finally.
    cbn [complete]. destruct (complete net final w) as [[[]|e'] w']; reflexivity.
Qed.

Lemma complete_for_of (A B : Type) (body : A -> B -> prog B)
      (body' : A -> B -> M B) (xs : list A) :
  (forall x acc w, complete net (body x acc) w = body' x acc w) ->
  forall acc w,
    complete net (for_of xs body acc) w = Bundler.for_of xs body' acc w.
Proof.
  intros Hb. induction xs as [|x xs IH]; intros acc w;
    cbn [for_of Bundler.for_of]; [reflexivity|].
  rewrite complete_bind. apply bind_ext; [apply Hb|exact IH].
Qed.

Lemma complete_fetch_text (url : text) (w : world) :
  complete net (fetch_text url) w = Bundler.fetch_text net url w.
Proof.
  unfold fetch_text, Bundler.fetch_text, Bundler.bind, Bundler.emit.
  cbn [complete]. destruct (net url) as [reason|[|] [t|reason]]; reflexivity.
Qed.

Lemma complete_invocation (p : page) (w : world) :
  complete net (invocation p) w = handleDownload p net w.
Proof.
  destruct p; cbn [invocation handleDownload];
    unfold Pybind11.handleDownload, MemoryPool.handleDownload,
      Bundler.Pybind11.handleDownload, Bundler.MemoryPool.handleDownload;
    cbn [complete]; destruct (isDownloading w); try reflexivity;
    cbn [bind setIsDownloading complete];
    unfold Bundler.bind at 1, Bundler.setIsDownloading at 1;
    rewrite complete_try_finally;
    unfold Bundler.Pybind11.guarded, Bundler.MemoryPool.guarded;
    (apply try_finally_ext; [|reflexivity]);
    intros w1; rewrite complete_try_catch;
    (apply try_catch_ext; [|reflexivity]);
    intros w2; unfold Pybind11.bundle, MemoryPool.bundle,
      Bundler.Pybind11.bundle, Bundler.MemoryPool.bundle;
    rewrite complete_bind;
    (apply bind_ext; [apply complete_fetch_text|]);
    intros html w3; rewrite complete_bind;
    (apply bind_ext; [|reflexivity]);
    apply complete_for_of; intros file cc w4;
    unfold Pybind11.bundle_file, MemoryPool.bundle_file,
      Bundler.Pybind11.bundle_file, Bundler.MemoryPool.bundle_file;
    rewrite complete_try_catch;
    (apply try_catch_ext; [|reflexivity]);
    intros w5; rewrite complete_bind;
    (apply bind_ext; [apply complete_fetch_text|reflexivity]).
Qed.

End Uninterrupted.

(** C6.  In every session reachable from the initial one by clicks and by
    promises settling in any order, at most one invocation waits at an
    [await], and one waits exactly when [isDownloading] is set.  While it is
    set, a click on the button is handled without any effect: the
    invocation returns at its first statement, the component state and the
    log are unchanged (nothing is fetched, no zip entry is made, nothing is
    saved) and no second invocation is left waiting. *)
Theorem reentrancy_guard (p : page) (es : list event) (s : session) :
  run p initial es = Some s ->
  List.length (waiting s) <= 1 /\
  (isDownloading (current s) = true <-> List.length (waiting s) = 1) /\
  (isDownloading (current s) = true ->
   Async.advance (invocation p) (current s) = (None, current s) /\
   step p s Click = Some s /\
   forall net, handleDownload p net (current s) = (Done tt, current s)).
Proof.
  intros Hrun.
  assert (Hb : balanced s)
    by (apply (run_balanced p es initial s); [reflexivity|exact Hrun]).
  unfold balanced in Hb. destruct s as [w ws]. cbn [current waiting] in *.
  split; [|split].
  - destruct ws as [|inv [|inv' ws]]; cbn [List.length]; [lia|lia|contradiction].
  - destruct ws as [|inv [|inv' ws]]; cbn [List.length]; [| |contradiction].
    + rewrite Hb. split; discriminate.
    + destruct Hb as [Hb _]. rewrite Hb. split; reflexivity.
  - intros Hbusy. split; [exact (invocation_busy p w Hbusy)|]. split.
    + cbn [step current waiting]. rewrite (invocation_busy p w Hbusy).
      cbn [to_list]. now rewrite app_nil_r.
    + intros net. exact (handleDownload_busy net p w Hbusy).
Qed.

Lemma reentrancy_guard_witness :
  exists s,
    run Pybind11Page initial
        [Click; Click; Settle 0 demo_site; Click; Settle 0 demo_site; Click]
    = Some s /\
    isDownloading (current s) = true /\
    fetches (trace (current s)) = [utf16 "index.html"; utf16 "types.ts"] /\
    List.length (waiting s) = 1 /\
    step Pybind11Page s Click = Some s.
Proof.
  destruct (run Pybind11Page initial
                [Click; Click; Settle 0 demo_site; Click; Settle 0 demo_site;
                 Click])
    as [s|] eqn:E; [|discriminate E].
  exists s.
  destruct (reentrancy_guard Pybind11Page
              [Click; Click; Settle 0 demo_site; Click; Settle 0 demo_site;
               Click] s E)
    as (_ & Hiff & Hbusy).
  assert (Hflag : isDownloading (current s) = true)
    by (injection E as <-; reflexivity).
  split; [reflexivity|]. split; [exact Hflag|].
  split; [injection E as <-; reflexivity|].
  split; [exact (proj1 Hiff Hflag)|exact (proj1 (proj2 (Hbusy Hflag)))].
Defined.

(** ** Injection *)

(** C5, at a deployment whose [types.ts] is [export const unit = '$';] and
    whose base document is [<html><body></body></html>]: the replacement
    text of [html.replace] is a template, so the [$'] of the bundled source
    is expanded to the text after the marker.  What lands before [</body>]
    is not the script block but the script block of a different source. *)
Theorem inject_expands_dollar_patterns (p : page) :
  exists tr index',
    handleDownload p dollar_site (World false []) = (Done tt, World false tr) /\
    zip_entries tr = [(index_html, index'); (readme_md, README p)] /\
    find_first body_close (utf16 "<html><body></body></html>") =
      Some (utf16 "<html><body>", utf16 "</html>") /\
    index' <> utf16 "<html><body>" ++ script_block (combinedCode p dollar_site)
              ++ nl ++ body_close ++ utf16 "</html>" /\
    index' = utf16 "<html><body>"
             ++ script_block (combinedCode p dollar_site_expanded)
             ++ nl ++ body_close ++ utf16 "</html>".
Proof.
  exists (success_log p dollar_site (utf16 "<html><body></body></html>")).
  eexists. split; [|split; [|split; [|split]]].
  - apply handleDownload_first. reflexivity.
  - apply success_log_zip_entries.
  - reflexivity.
  - intros H. apply (f_equal (@List.length char)) in H.
    destruct p; vm_compute in H; discriminate.
  - destruct p; vm_compute; reflexivity.
Qed.

(** ** A manifest file cannot be fetched *)

Lemma ends_nl_app (x y : text) : ends_nl y -> ends_nl (x ++ y).
Proof. intros (y' & ->). exists (x ++ y'). now rewrite app_assoc. Qed.

Lemma ends_nl_concat (x : text) (l : list text) :
  ends_nl x -> Forall ends_nl l -> ends_nl (x ++ concat l).
Proof.
  revert x. induction l as [|b l IH]; intros x Hx Hl.
  - cbn. now rewrite app_nil_r.
  - inversion Hl; subst. cbn [concat]. rewrite app_assoc.
    apply IH; [now apply ends_nl_app|assumption].
Qed.

Lemma ends_nl_last (x : text) : ends_nl x -> last x 0%N <> c_dollar.
Proof. intros (x' & ->). unfold nl. rewrite last_last. discriminate. Qed.

Lemma file_block_ends_nl (p : page) (net : network) (file : text) :
  ends_nl (file_block p net file).
Proof.
  unfold file_block, source_block, error_block.
  destruct (fetched net file).
  - repeat apply ends_nl_app. exists []. reflexivity.
  - repeat apply ends_nl_app. exists (utf16 " */"). reflexivity.
Qed.

Lemma masterImports_ends_nl (p : page) : ends_nl (masterImports p).
Proof.
  exists (removelast (masterImports p)). destruct p; vm_compute; reflexivity.
Qed.

Lemma error_block_plain (file : text) :
  In file filesToBundle -> has_dollar (error_block file) = false.
Proof.
  intros Hin. unfold filesToBundle in Hin. cbn [In] in Hin.
  repeat (destruct Hin as [<-|Hin]; [vm_compute; reflexivity|]). destruct Hin.
Qed.

Lemma script_block_eq (cc : text) :
  script_block cc = script_head ++ cc ++ script_tail.
Proof.
  unfold script_block, mainScript, script_head, script_tail.
  rewrite <- !app_assoc. reflexivity.
Qed.

(** A placeholder comment survives the injection. *)
Lemma inject_keeps_error_block (html before after file : text) :
  In file filesToBundle -> ends_nl before ->
  occurs (error_block file) (inject html (before ++ error_block file ++ after)).
Proof.
  intros Hin Hnl.
  destruct (find_first body_close html) as [[b a]|] eqn:E.
  - rewrite (inject_with_marker _ _ _ _ E), script_block_eq.
    replace ((script_head ++ (before ++ error_block file ++ after) ++ script_tail)
             ++ nl ++ body_close)
      with ((script_head ++ before) ++ error_block file
            ++ (after ++ script_tail ++ nl ++ body_close))
      by (rewrite <- !app_assoc; reflexivity).
    rewrite expand0_app by (apply ends_nl_last; apply ends_nl_app; exact Hnl).
    rewrite (expand0_app _ _ _ (error_block file)).
    2:{ apply ends_nl_last. unfold error_block. repeat apply ends_nl_app.
        exists (utf16 " */"). reflexivity. }
    assert (Hplain : ~ In c_dollar (error_block file)).
    { apply has_dollar_false. apply error_block_plain. exact Hin. }
    rewrite (expand0_plain body_close b a (error_block file) Hplain).
    exists (b ++ expand0 body_close b a (script_head ++ before)),
           (expand0 body_close b a (after ++ script_tail ++ nl ++ body_close) ++ a).
    rewrite <- !app_assoc. reflexivity.
  - rewrite (inject_without_marker _ _ E), script_block_eq.
    exists (html ++ script_head ++ before), (after ++ script_tail).
    rewrite <- !app_assoc. reflexivity.
Qed.

Lemma combinedCode_around (p : page) (net : network) (file : text) :
  In file filesToBundle ->
  exists before after,
    ends_nl before /\
    forall net', (forall u, u <> file -> net' u = net u) ->
      combinedCode p net' = before ++ file_block p net' file ++ after.
Proof.
  intros Hin. destruct (manifest_split file Hin) as (l1 & l2 & E & H1 & H2).
  exists (masterImports p ++ concat (map (file_block p net) l1)),
         (concat (map (file_block p net) l2)).
  split.
  - apply ends_nl_concat; [apply masterImports_ends_nl|].
    apply Forall_forall. intros b Hb. apply in_map_iff in Hb as (f & <- & _).
    apply file_block_ends_nl.
  - intros net' Hagree. unfold combinedCode. rewrite E, map_app, concat_app.
    cbn [map concat].
    rewrite (file_block_ext p net net' file l1 Hagree H1),
            (file_block_ext p net net' file l2 Hagree H2).
    now rewrite <- !app_assoc.
Qed.

Lemma file_failure_logged (p : page) (net : network) (file : text) (files : list text) :
  In file files -> fetched net file = None ->
  incl (file_failure_report p file (failure net file))
       (concat (map (file_effects p net) files)).
Proof.
  intros Hin Hfail e He. apply in_concat.
  exists (file_effects p net file). split; [now apply in_map|].
  unfold file_effects. rewrite Hfail. now right.
Qed.

Lemma memory_pool_never_warns (net : network) (files : list text) :
  warnings (concat (map (file_effects MemoryPoolPage net) files)) = [].
Proof.
  induction files as [|f files IH]; [reflexivity|].
  cbn [map concat]. rewrite warnings_app, IH. unfold file_effects.
  destruct (fetched net f); reflexivity.
Qed.

(** C3, as stated, fails on the memory-pool page: with only the base
    document served, every manifest fetch fails and nothing is written to
    the console. *)
Lemma memory_pool_file_failure_not_warned :
  exists tr,
    handleDownload MemoryPoolPage base_only (World false []) =
      (Done tt, World false tr) /\
    In (utf16 "types.ts") filesToBundle /\
    fetched base_only (utf16 "types.ts") = None /\
    warnings tr = [].
Proof.
  eexists. split; [|split; [|split]].
  - apply handleDownload_first. reflexivity.
  - now left.
  - reflexivity.
  - unfold success_log. rewrite !warnings_app.
    rewrite memory_pool_never_warns. reflexivity.
Qed.

(** C3, amended.  When the base document arrives and the fetch of a manifest
    file fails, the handler of either page goes on: it fetches every
    manifest file, shows no alert and saves the archive.  The [index.html]
    of the archive is the base document injected with the combined code, in
    which every manifest file has its block in manifest order: the
    placeholder comment naming the path for a file that was not fetched, the
    marker comment and the rewritten text for every file that was.  The
    placeholder of the failed file occurs in that [index.html].  The
    pybind11 page also writes a console warning naming the path; the
    memory-pool page writes nothing to the console. *)
Theorem file_failure_is_recoverable (p : page) (net : network) (w : world)
        (html file : text) :
  isDownloading w = false ->
  fetched net index_html = Some html ->
  In file filesToBundle ->
  fetched net file = None ->
  let placeholder f :=
    utf16 "
/* Error loading " ++ f ++ utf16 " */
" in
  let block f :=
    match fetched net f with
    | Some code =>
      utf16 "

/* --- Source: " ++ f ++ utf16 " --- */
" ++ transform p code ++ utf16 "
"
    | None => placeholder f
    end in
  let code :=
    masterImports p
    ++ block (utf16 "types.ts")
    ++ block (utf16 "components/QuantumScene.tsx")
    ++ block (utf16 "components/Diagrams.tsx")
    ++ block (utf16 "App.tsx")
    ++ block (utf16 "index.tsx") in
  exists tr,
    handleDownload p net w = (Done tt, World false (trace w ++ tr)) /\
    alerts tr = [] /\
    fetches tr = utf16 "index.html" :: filesToBundle /\
    zip_entries tr =
      [(utf16 "index.html", inject html code); (utf16 "README.md", README p)] /\
    saves tr =
      [([(utf16 "index.html", inject html code); (utf16 "README.md", README p)],
        download_name p)] /\
    occurs (placeholder file) (inject html code) /\
    match p with
    | Pybind11Page =>
      In (ConsoleWarn (utf16 "Error processing " ++ file) (failure net file)) tr /\
      In (utf16 "Error processing " ++ file) (warnings tr)
    | MemoryPoolPage =>
      warnings tr = [] /\
      forall e, In e tr ->
                match e with ConsoleWarn _ _ | ConsoleError _ => False | _ => True end
    end.
Proof.
  intros Hidle Hbase Hin Hfail placeholder block code.
  exists (success_log p net html).
  destruct (combinedCode_around p net file Hin) as (before & after & Hnl & Hcc).
  assert (Hhere : combinedCode p net = before ++ error_block file ++ after).
  { rewrite (Hcc net) by reflexivity. unfold file_block. now rewrite Hfail. }
  assert (E : combinedCode p net = code).
  { unfold combinedCode, code, filesToBundle. cbn [map concat].
    rewrite app_nil_r. reflexivity. }
  split; [now apply handleDownload_success|].
  split; [apply success_log_alerts|].
  split; [apply success_log_fetches|].
  split; [rewrite <- E; apply success_log_zip_entries|].
  split; [rewrite <- E; apply success_log_saves|].
  split.
  { rewrite <- E, Hhere.
    exact (inject_keeps_error_block html before after file Hin Hnl). }
  assert (Hlogged : incl (file_failure_report p file (failure net file))
                         (success_log p net html)).
  { intros e He. unfold success_log. apply in_or_app. right.
    apply in_or_app. left.
    exact (file_failure_logged p net file filesToBundle Hin Hfail e He). }
  destruct p.
  - assert (Hw : In (ConsoleWarn (utf16 "Error processing " ++ file)
                                 (failure net file))
                    (success_log Pybind11Page net html))
      by (apply Hlogged; now left).
    split; [exact Hw|].
    unfold warnings. apply in_flat_map.
    exists (ConsoleWarn (utf16 "Error processing " ++ file) (failure net file)).
    split; [exact Hw|now left].
  - split.
    + unfold success_log. rewrite !warnings_app.
      rewrite memory_pool_never_warns. reflexivity.
    + intros e He. unfold success_log in He.
      apply in_app_or in He as [He|He].
      { cbn [In] in He. destruct He as [<-|[<-|[]]]; exact I. }
      apply in_app_or in He as [He|He].
      { apply in_concat in He as (l & Hl & He).
        apply in_map_iff in Hl as (f & <- & _). unfold file_effects in He.
        destruct He as [<-|He]; [exact I|].
        destruct (fetched net f); destruct He. }
      cbn [In] in He. destruct He as [<-|[<-|[<-|[<-|[]]]]]; exact I.
Qed.

Lemma file_failure_is_recoverable_witness :
  isDownloading (World false []) = false /\
  fetched demo_site index_html = Some (utf16 "<html><body></body></html>") /\
  In (utf16 "App.tsx") filesToBundle /\
  fetched demo_site (utf16 "App.tsx") = None /\
  exists tr index',
    handleDownload Pybind11Page demo_site (World false []) =
      (Done tt, World false tr) /\
    alerts tr = [] /\
    saves tr = [([(index_html, index'); (readme_md, README Pybind11Page)],
                 download_name Pybind11Page)] /\
    occurs (utf16 "
/* Error loading App.tsx */
") index' /\
    occurs (utf16 "

/* --- Source: types.ts --- */
type T = number;
") index' /\
    In (utf16 "Error processing App.tsx") (warnings tr).
Proof.
  assert (Hin : In (utf16 "App.tsx") filesToBundle) by (do 3 right; now left).
  split; [reflexivity|]. split; [reflexivity|]. split; [exact Hin|].
  split; [reflexivity|].
  destruct (file_failure_is_recoverable Pybind11Page demo_site (World false [])
              (utf16 "<html><body></body></html>")
              (utf16 "App.tsx") eq_refl eq_refl Hin eq_refl)
    as (tr & Hrun & Ha & _ & _ & Hs & Hocc & _ & Hwarn).
  exists tr. eexists.
  split; [exact Hrun|]. split; [exact Ha|]. split; [exact Hs|].
  split; [exact Hocc|]. split; [|exact Hwarn].
  exists (utf16 "<html><body>" ++ script_head ++ masterImports Pybind11Page),
         (utf16 "
/* Error loading components/QuantumScene.tsx */

/* Error loading components/Diagrams.tsx */

/* Error loading App.tsx */

/* Error loading index.tsx */
" ++ script_tail ++ utf16 "
</body></html>").
  vm_compute. reflexivity.
Defined.

(* ===================================================================== *)
(** * The matcher on the four patterns                                    *)
(* ===================================================================== *)

Lemma is_any_true (c : char) : is_any c = true.
Proof. unfold is_any. apply orb_negb_r. Qed.

Lemma rmatch_Word (w s : text) (cs : captures) (k : cont) :
  rmatch (Word w) s cs k =
  match strip_prefix w s with
  | Some r => k r cs
  | None => None
  end.
Proof.
  revert s. induction w as [|c w IH]; intros s; [reflexivity|].
  cbn [Word rmatch strip_prefix]. destruct s as [|x s]; [reflexivity|].
  destruct (x =? c)%N; [apply IH|reflexivity].
Qed.

Lemma rmatch_Seq_Word (w : text) (r : regex) (s : text) (cs : captures) (k : cont) :
  rmatch (Seq (Word w) r) s cs k =
  match strip_prefix w s with
  | Some s' => rmatch r s' cs k
  | None => None
  end.
Proof. cbn [rmatch]. apply rmatch_Word. Qed.

Section StarOfClass.

Variable p : char -> bool.

Lemma star_stop (g : bool) (s : text) (cs : captures) (k : cont) :
  match s with [] => True | c :: _ => p c = false end ->
  rmatch (Star g (Class p)) s cs k = k s cs.
Proof.
  intros H. destruct s as [|c s]; [reflexivity|].
  cbn [rmatch List.length]. rewrite H.
  destruct g; [reflexivity|]. now destruct (k (c :: s) cs).
Qed.

Lemma star_greedy_cons (c : char) (s : text) (cs : captures) (k : cont) :
  p c = true ->
  rmatch (Star true (Class p)) (c :: s) cs k =
  match rmatch (Star true (Class p)) s cs k with
  | Some x => Some x
  | None => k (c :: s) cs
  end.
Proof.
  intros H. cbn [rmatch List.length]. rewrite H.
  replace (List.length s <? S (List.length s)) with true
    by (symmetry; apply Nat.ltb_lt; auto with arith).
  reflexivity.
Qed.

Lemma star_lazy_cons (c : char) (s : text) (cs : captures) (k : cont) :
  p c = true ->
  rmatch (Star false (Class p)) (c :: s) cs k =
  match k (c :: s) cs with
  | Some x => Some x
  | None => rmatch (Star false (Class p)) s cs k
  end.
Proof.
  intros H. cbn [rmatch List.length]. rewrite H.
  replace (List.length s <? S (List.length s)) with true
    by (symmetry; apply Nat.ltb_lt; auto with arith).
  reflexivity.
Qed.

Lemma drop_while_head (s : text) :
  match drop_while p s with [] => True | c :: _ => p c = false end.
Proof.
  induction s as [|c s IH]; [exact I|].
  cbn [drop_while]. destruct (p c) eqn:E; [exact IH|exact E].
Qed.

(** A continuation that, on input starting with a [p] code unit, either
    fails or behaves as on the input without it, sees a greedy run of [p]
    as if the whole run had been skipped. *)
Lemma star_greedy_skip (k : cont) :
  (forall c x cs, p c = true -> k (c :: x) cs = None \/ k (c :: x) cs = k x cs) ->
  forall s cs,
    rmatch (Star true (Class p)) s cs k = k (drop_while p s) cs /\
    (k s cs = None \/ k s cs = k (drop_while p s) cs).
Proof.
  intros Hk s cs. induction s as [|c s [IH1 IH2]].
  - split; [reflexivity|now right].
  - cbn [drop_while]. destruct (p c) eqn:E.
    + assert (Hc : k (c :: s) cs = None \/ k (c :: s) cs = k (drop_while p s) cs).
      { destruct (Hk c s cs E) as [H|H]; [now left|].
        rewrite H. exact IH2. }
      split; [|exact Hc].
      rewrite (star_greedy_cons c s cs k E), IH1.
      destruct (k (drop_while p s) cs) eqn:Ek; [reflexivity|].
      destruct Hc as [H|H]; [exact H|now rewrite H].
    + split; [|now right]. apply star_stop. exact E.
Qed.

(** A continuation that never fails sees the whole greedy run skipped. *)
Lemma star_greedy_total (k : cont) :
  (forall x cs, k x cs <> None) ->
  forall s cs, rmatch (Star true (Class p)) s cs k = k (drop_while p s) cs.
Proof.
  intros Hk s cs. induction s as [|c s IH]; [reflexivity|].
  cbn [drop_while]. destruct (p c) eqn:E.
  - rewrite (star_greedy_cons c s cs k E), IH.
    destruct (k (drop_while p s) cs) eqn:Ek; [reflexivity|].
    now apply Hk in Ek.
  - apply star_stop. exact E.
Qed.

Lemma rmatch_Plus (s : text) (cs : captures) (k : cont) :
  rmatch (Plus (Class p)) s cs k =
  match s with
  | c :: s' => if p c then rmatch (Star true (Class p)) s' cs k else None
  | [] => None
  end.
Proof. reflexivity. Qed.

End StarOfClass.

(** ** Matches consume a prefix *)

Lemma k_done_consuming : consuming k_done.
Proof. intros s cs rest cs' H. inversion H; subst. now exists []. Qed.

Lemma rmatch_consuming (r : regex) :
  forall k, consuming k -> forall cs, consuming (fun s _ => rmatch r s cs k).
Proof.
  induction r as [|c|p|r1 IH1 r2 IH2|r1 IH1 r2 IH2|g r IH|i r IH];
    intros k Hk cs s _ rest cs' H; cbn [rmatch] in H.
  - exact (Hk _ _ _ _ H).
  - destruct s as [|x s]; [discriminate|]. destruct (x =? c)%N; [|discriminate].
    destruct (Hk _ _ _ _ H) as (m & ->). now exists (x :: m).
  - destruct s as [|x s]; [discriminate|]. destruct (p x); [|discriminate].
    destruct (Hk _ _ _ _ H) as (m & ->). now exists (x :: m).
  - refine (IH1 (fun s' cs' => rmatch r2 s' cs' k) _ cs s cs rest cs' H).
    intros s1 cs1 rest1 cs1' H1. exact (IH2 k Hk cs1 s1 cs1 rest1 cs1' H1).
  - destruct (rmatch r1 s cs k) as [x|] eqn:E.
    + inversion H; subst. exact (IH1 k Hk cs s cs rest cs' E).
    + exact (IH2 k Hk cs s cs rest cs' H).
  - change (star_loop (rmatch r) g k (List.length s) s cs = Some (rest, cs')) in H.
    revert H. generalize (List.length s). intros n. revert s cs rest cs'.
    induction n as [|n IHn]; intros s cs rest cs' H.
    + exact (Hk _ _ _ _ H).
    + assert (Hagain :
                 rmatch r s cs
                   (fun s' cs' =>
                      if List.length s' <? List.length s
                      then star_loop (rmatch r) g k n s' cs' else None)
                 = Some (rest, cs') ->
                 exists m, s = m ++ rest).
      { intros Hx. refine (IH _ _ cs s cs rest cs' Hx).
        intros s1 cs1 rest1 cs1' H1.
        destruct (List.length s1 <? List.length s); [|discriminate].
        exact (IHn s1 cs1 rest1 cs1' H1). }
      cbn [star_loop] in H. cbv zeta in H. destruct g.
      * match type of H with
        | match ?a with _ => _ end = _ => destruct a as [x|] eqn:Ea
        end.
        -- inversion H; subst. apply Hagain. reflexivity.
        -- exact (Hk _ _ _ _ H).
      * destruct (k s cs) as [x|] eqn:Ek.
        -- inversion H; subst. exact (Hk _ _ _ _ Ek).
        -- exact (Hagain H).
  - refine (IH (fun s' cs' => k s' (set_capture i (firstn (List.length s - List.length s') s) cs'))
               _ cs s cs rest cs' H).
    intros s1 cs1 rest1 cs1' H1. exact (Hk _ _ _ _ H1).
Qed.

Lemma rexec_consumes (r : regex) (s rest : text) (cs : captures) :
  rexec r s = Some (rest, cs) -> exists m, s = m ++ rest.
Proof.
  intros H.
  exact (rmatch_consuming r k_done k_done_consuming _ s [] rest cs H).
Qed.

(** ** What a match of the four patterns looks like *)

Lemma strip_prefix_space (w : text) (c : char) (x : text) :
  match w with l :: _ => is_space l = false | [] => False end ->
  is_space c = true ->
  strip_prefix w (c :: x) = None.
Proof.
  destruct w as [|l w]; [intros []|]. intros Hl Hc. cbn [strip_prefix].
  destruct (N.eqb_spec c l) as [->|_]; [congruence|reflexivity].
Qed.

(** Every pattern is a keyword, white space, and a remainder: a match
    starts with the keyword and a white-space code unit, and what is left
    of the input is a suffix of what follows them. *)
Lemma rexec_keyword_space (w : text) (r : regex) (s rest : text) (cs : captures) :
  rexec (Seq (Word w) (Seq (Plus (Class is_space)) r)) s = Some (rest, cs) ->
  exists c s1 m,
    strip_prefix w s = Some (c :: s1) /\ is_space c = true /\ s1 = m ++ rest.
Proof.
  unfold rexec. rewrite rmatch_Seq_Word.
  destruct (strip_prefix w s) as [[|c s1]|]; try discriminate.
  cbn [rmatch]. fold (Plus (Class is_space)). rewrite rmatch_Plus.
  destruct (is_space c) eqn:Ec; [|discriminate].
  intros H. exists c, s1.
  destruct (rmatch_consuming (Star true (Class is_space))
              (fun s' cs' => rmatch r s' cs' k_done)
              (fun s1 cs1 rest1 cs1' H1 =>
                 rmatch_consuming r k_done k_done_consuming cs1 s1 cs1 rest1 cs1' H1)
              _ s1 [] rest cs H) as (m & Hm).
  now exists m.
Qed.

Lemma rexec_nonempty (w : text) (r : regex) (s rest : text) (cs : captures) :
  rexec (Seq (Word w) (Seq (Plus (Class is_space)) r)) s = Some (rest, cs) ->
  word_then_space w s = true /\
  exists c m, s = (w ++ c :: m) ++ rest.
Proof.
  intros H. destruct (rexec_keyword_space w r s rest cs H) as (c & s1 & m & Hw & Hc & ->).
  split.
  - unfold word_then_space. now rewrite Hw.
  - exists c, m. apply strip_prefix_Some in Hw. rewrite Hw.
    now rewrite <- app_assoc.
Qed.

(** The fourth pattern, computed: [export], white space, and the first of
    the six keywords that follows; the keyword is captured. *)
Lemma first_keyword_Some (kws : list text) (x kw rest : text) :
  first_keyword kws x = Some (kw, rest) -> In kw kws /\ x = kw ++ rest.
Proof.
  induction kws as [|k kws IH]; [discriminate|]. cbn [first_keyword].
  destruct (strip_prefix k x) as [r|] eqn:E.
  - intros H. inversion H; subst. split; [now left|].
    now apply strip_prefix_Some.
  - intros H. destruct (IH H) as (Hin & Hx). split; [now right|exact Hx].
Qed.

Lemma firstn_matched (m rest : text) :
  firstn (List.length (m ++ rest) - List.length rest) (m ++ rest) = m.
Proof.
  rewrite length_app. replace (List.length m + List.length rest - List.length rest)
    with (List.length m + 0) by lia.
  rewrite firstn_app_2. cbn. apply app_nil_r.
Qed.

Lemma rmatch_decl_keywords (x : text) :
  rmatch (Group 1 (Alt (kw "const") (Alt (kw "function") (Alt (kw "class")
           (Alt (kw "interface") (Alt (kw "type") (kw "enum")))))))
         x [None] k_done =
  match first_keyword decl_keywords x with
  | Some (kw, rest) => Some (rest, [Some kw])
  | None => None
  end.
Proof.
  unfold kw, decl_keywords. cbn [rmatch first_keyword].
  repeat (rewrite rmatch_Word;
          match goal with
          | |- context [strip_prefix ?w x] =>
            destruct (strip_prefix w x) as [r|] eqn:E;
            [ apply strip_prefix_Some in E; subst x; unfold k_done;
              rewrite firstn_matched; reflexivity | clear E ]
          end).
  reflexivity.
Qed.

Lemma rexec_export_decl (s : text) :
  rexec re_export_decl s =
  match strip_prefix w_export s with
  | Some (c :: s1) =>
    if is_space c then
      match first_keyword decl_keywords (drop_while is_space s1) with
      | Some (kw, rest) => Some (rest, [Some kw])
      | None => None
      end
    else None
  | _ => None
  end.
Proof.
  unfold rexec, re_export_decl. unfold kw at 1. rewrite rmatch_Seq_Word.
  fold w_export.
  destruct (strip_prefix w_export s) as [[|c s1]|]; try reflexivity.
  cbn [rmatch]. fold (Plus (Class is_space)). rewrite rmatch_Plus.
  destruct (is_space c); [|reflexivity].
  match goal with
  | |- rmatch (Star true (Class is_space)) s1 ?cs0 ?k = _ =>
    change cs0 with [@None text];
    assert (Hk : forall c x cs, is_space c = true ->
                   k (c :: x) cs = None \/ k (c :: x) cs = k x cs);
    [|destruct (star_greedy_skip is_space k Hk s1 [None]) as [-> _]]
  end.
  - intros c0 x cs Hc0. left. cbn [rmatch]. unfold kw.
    repeat (rewrite rmatch_Word, strip_prefix_space by (reflexivity || exact Hc0)).
    reflexivity.
  - apply (rmatch_decl_keywords (drop_while is_space s1)).
Qed.

(** ** Deleting code units *)

Lemma subseq_refl (a : text) : subseq a a.
Proof. induction a; constructor; assumption. Qed.

Lemma subseq_skip (m a b : text) : subseq a b -> subseq a (m ++ b).
Proof. intros H. induction m; [exact H|now constructor]. Qed.

Lemma subseq_same (o a b : text) : subseq a b -> subseq (o ++ a) (o ++ b).
Proof. intros H. induction o; [exact H|now constructor]. Qed.

Lemma subseq_trans (a b c : text) : subseq a b -> subseq b c -> subseq a c.
Proof.
  intros Hab Hbc. revert a Hab.
  induction Hbc as [|x b c Hbc IH|x b c Hbc IH]; intros a Hab.
  - exact Hab.
  - inversion Hab; subst; constructor; auto.
  - constructor. auto.
Qed.

Lemma subseq_length (a b : text) : subseq a b -> List.length a <= List.length b.
Proof. induction 1; cbn [List.length]; lia. Qed.

Lemma drop_while_split (p : char -> bool) (s : text) :
  exists run, s = run ++ drop_while p s /\ forallb p run = true.
Proof.
  induction s as [|c s (run & Hs & Hrun)]; [now exists []|].
  cbn [drop_while]. destruct (p c) eqn:E.
  - exists (c :: run). cbn [app forallb]. rewrite E, Hrun. split; [now f_equal|reflexivity].
  - now exists [].
Qed.

Lemma substitute_group1 (m b a v : text) :
  GetSubstitution m b a [Some v] (utf16 "$1") = v.
Proof. vm_compute. apply app_nil_r. Qed.

(** A match of the fourth pattern ends with the captured keyword. *)
Lemma rexec_export_decl_Some (s rest : text) (cs : captures) :
  rexec re_export_decl s = Some (rest, cs) ->
  exists c ws kw,
    s = (w_export ++ c :: ws) ++ kw ++ rest /\
    is_space c = true /\ forallb is_space ws = true /\
    In kw decl_keywords /\ cs = [Some kw].
Proof.
  rewrite rexec_export_decl.
  destruct (strip_prefix w_export s) as [[|c s1]|] eqn:Ew; try discriminate.
  destruct (is_space c) eqn:Ec; [|discriminate].
  destruct (first_keyword decl_keywords (drop_while is_space s1))
    as [[kw rest0]|] eqn:Ek; [|discriminate].
  intros H. inversion H; subst. clear H.
  apply first_keyword_Some in Ek as (Hin & Hd).
  destruct (drop_while_split is_space s1) as (ws & Hs1 & Hws).
  exists c, ws, kw. repeat split; try assumption.
  apply strip_prefix_Some in Ew. rewrite Ew, Hs1, Hd.
  now rewrite <- app_assoc.
Qed.

Section Pass.

Variables (r : regex) (template : text).

(** What is put in place of a match is the end of the match. *)
Hypothesis replacement_in_match :
  forall s rest cs before,
    rexec r s = Some (rest, cs) ->
    exists m,
      s = m ++ GetSubstitution (firstn (List.length s - List.length rest) s)
                 before rest cs template ++ rest.

Lemma replace_from_subseq (fuel : nat) :
  forall before s, subseq (replace_from fuel r template before s) s.
Proof.
  induction fuel as [|fuel IH]; intros before s; [apply subseq_refl|].
  cbn [replace_from]. destruct (rexec r s) as [[rest cs]|] eqn:E.
  - destruct (replacement_in_match s rest cs before E) as (m & Hs).
    remember (firstn (List.length s - List.length rest) s) as matched eqn:Hm.
    remember (GetSubstitution matched before rest cs template) as out eqn:Ho.
    destruct matched as [|x matched].
    + assert (Hlen : List.length s <= List.length rest).
      { apply (f_equal (@List.length char)) in Hm. cbn [List.length] in Hm.
        rewrite length_firstn in Hm. lia. }
      assert (Hout : out = []).
      { apply (f_equal (@List.length char)) in Hs.
        rewrite !length_app in Hs. destruct out; [reflexivity|].
        cbn [List.length] in Hs. lia. }
      rewrite Hout. destruct s as [|c s]; [constructor|].
      cbn [app]. constructor. apply IH.
    + assert (H : subseq (out ++ replace_from fuel r template
                                   (before ++ x :: matched) rest)
                         (m ++ out ++ rest)).
      { apply subseq_skip, subseq_same, IH. }
      now rewrite <- Hs in H.
  - destruct s as [|c s]; constructor. apply IH.
Qed.

Lemma replace_from_nowhere (f : text -> bool) :
  (forall u, f u = false -> rexec r u = None) ->
  forall fuel before s,
    nowhere f s = true -> replace_from fuel r template before s = s.
Proof.
  intros Hf. induction fuel as [|fuel IH]; intros before s Hs; [reflexivity|].
  cbn [replace_from]. destruct s as [|c s].
  - cbn [nowhere] in Hs. apply andb_prop in Hs as [Hs _].
    apply negb_true_iff in Hs. now rewrite (Hf _ Hs).
  - cbn [nowhere] in Hs. apply andb_prop in Hs as [Hs Hs'].
    apply negb_true_iff in Hs. rewrite (Hf _ Hs). f_equal. now apply IH.
Qed.

End Pass.

Lemma deletes_match (r : regex) :
  forall s rest cs (before : text),
    rexec r s = Some (rest, cs) ->
    exists m,
      s = m ++ GetSubstitution (firstn (List.length s - List.length rest) s)
                 before rest cs [] ++ rest.
Proof.
  intros s rest cs before H. destruct (rexec_consumes r s rest cs H) as (m & Hs).
  now exists m.
Qed.

Lemma keeps_keyword :
  forall s rest cs (before : text),
    rexec re_export_decl s = Some (rest, cs) ->
    exists m,
      s = m ++ GetSubstitution (firstn (List.length s - List.length rest) s)
                 before rest cs (utf16 "$1") ++ rest.
Proof.
  intros s rest cs before H.
  destruct (rexec_export_decl_Some s rest cs H) as (c & ws & kw & Hs & _ & _ & _ & ->).
  exists (w_export ++ c :: ws). now rewrite substitute_group1.
Qed.

Lemma no_match_without_keyword (w : string) (r : regex) (u : text) :
  keyword_then_space u = false ->
  (utf16 w = w_import \/ utf16 w = w_export) ->
  rexec (Seq (kw w) (Seq (Plus (Class is_space)) r)) u = None.
Proof.
  intros Hu Hw.
  destruct (rexec (Seq (kw w) (Seq (Plus (Class is_space)) r)) u)
    as [[rest cs]|] eqn:E; [|reflexivity].
  apply rexec_nonempty in E as [E _]. unfold keyword_then_space in Hu.
  apply orb_false_iff in Hu as [H1 H2].
  destruct Hw as [Hw|Hw]; rewrite Hw in E; congruence.
Qed.

(** ** What the four replacements never do *)

(** The rewritten text is the fetched text with code units deleted: the
    replacements insert nothing and reorder nothing, and the result is never
    longer than the document. *)
Theorem transform_only_deletes (p : page) (code : text) :
  subseq (transform p code) code /\
  List.length (transform p code) <= List.length code.
Proof.
  assert (H : subseq (transform p code) code).
  { destruct p; cbn [transform];
      unfold Pybind11.transform, MemoryPool.transform, replace_all.
    all: eapply subseq_trans;
      [apply (replace_from_subseq re_export_decl (utf16 "$1") keeps_keyword)|].
    all: eapply subseq_trans;
      [apply (replace_from_subseq re_export_default [] (deletes_match _))|].
    all: eapply subseq_trans;
      [apply (replace_from_subseq re_import_side [] (deletes_match _))|].
    all: apply (replace_from_subseq re_import_from [] (deletes_match _)). }
  split; [exact H|now apply subseq_length].
Qed.

Lemma passes_fixed (code : text) :
  nowhere keyword_then_space code = true ->
  forall r, In r [re_import_from; re_import_side; re_export_default; re_export_decl] ->
  forall fuel rep before, replace_from fuel r rep before code = code.
Proof.
  intros H r Hr fuel rep before.
  apply (replace_from_nowhere r rep keyword_then_space); [|exact H].
  intros u Hu.
  destruct Hr as [<-|[<-|[<-|[<-|[]]]]];
    apply no_match_without_keyword; solve [exact Hu | now left | now right].
Qed.

(** A document in which neither [import] nor [export] is ever followed by
    white space comes out of the four replacements unchanged, on either
    page; in particular identifiers that merely contain a keyword, and a
    keyword that is followed directly by a brace or a quote, are kept. *)
Theorem transform_leaves_other_text (p : page) (code : text) :
  nowhere keyword_then_space code = true ->
  transform p code = code.
Proof.
  intros H. pose proof (passes_fixed code H) as F.
  destruct p; cbn [transform];
    unfold Pybind11.transform, MemoryPool.transform, replace_all.
  all: rewrite (F re_import_from) by (now left).
  all: rewrite (F re_import_side) by (right; now left).
  all: rewrite (F re_export_default) by (right; right; now left).
  all: apply (F re_export_decl); right; right; right; now left.
Qed.

Lemma transform_leaves_other_text_witness :
  nowhere keyword_then_space
    (utf16 "import{a}from'./a';
const exporter = important(a);") = true /\
  transform Pybind11Page
    (utf16 "import{a}from'./a';
const exporter = important(a);")
  = utf16 "import{a}from'./a';
const exporter = important(a);".
Proof.
  split; [reflexivity|].
  apply (transform_leaves_other_text Pybind11Page). reflexivity.
Defined.

(* ===================================================================== *)
(** * The four patterns, computed                                         *)
(* ===================================================================== *)

Lemma w_import_eq : w_import = [105; 109; 112; 111; 114; 116]%N.
Proof. reflexivity. Qed.
Lemma w_export_eq : w_export = [101; 120; 112; 111; 114; 116]%N.
Proof. reflexivity. Qed.

Lemma matches_true (r : regex) (s : text) :
  matches r s = true <-> rexec r s <> None.
Proof.
  unfold matches. destruct (rexec r s); split; congruence.
Qed.

Lemma matches_false (r : regex) (s : text) :
  matches r s = false <-> rexec r s = None.
Proof.
  unfold matches. destruct (rexec r s); split; congruence.
Qed.

(** The third pattern: [export], white space, [default], white space. *)
Lemma matches_export_default (s : text) :
  matches re_export_default s =
  match strip_prefix w_export s with
  | Some (c :: s1) => is_space c && default_then_space (drop_while is_space s1)
  | _ => false
  end.
Proof.
  unfold matches, rexec, re_export_default. unfold kw at 1.
  rewrite rmatch_Seq_Word. fold w_export.
  destruct (strip_prefix w_export s) as [[|c s1]|]; try reflexivity.
  cbn [rmatch]. fold (Plus (Class is_space)). rewrite rmatch_Plus.
  destruct (is_space c); [|reflexivity]. cbn [andb].
  match goal with
  | |- context [rmatch (Star true (Class is_space)) s1 ?cs0 ?k] =>
    assert (Hk : forall c x cs, is_space c = true ->
                   k (c :: x) cs = None \/ k (c :: x) cs = k x cs);
    [|destruct (star_greedy_skip is_space k Hk s1 cs0) as [-> _]]
  end.
  - intros c0 x cs Hc0. left. unfold kw.
    rewrite rmatch_Word, strip_prefix_space by (reflexivity || exact Hc0).
    reflexivity.
  - unfold kw, default_then_space, word_then_space. rewrite rmatch_Word.
    destruct (strip_prefix (utf16 "default") (drop_while is_space s1))
      as [[|d s2]|]; try reflexivity.
    rewrite rmatch_Plus. destruct (is_space d); [|reflexivity].
    rewrite star_greedy_total by (intros; discriminate). reflexivity.
Qed.

(** The fourth pattern: [export], white space, a declaration keyword. *)
Lemma matches_export_decl (s : text) :
  matches re_export_decl s =
  match strip_prefix w_export s with
  | Some (c :: s1) => is_space c && keyword_next (drop_while is_space s1)
  | _ => false
  end.
Proof.
  unfold matches, keyword_next. rewrite rexec_export_decl.
  destruct (strip_prefix w_export s) as [[|c s1]|]; try reflexivity.
  destruct (is_space c); [|reflexivity]. cbn [andb].
  now destruct (first_keyword decl_keywords (drop_while is_space s1)) as [[? ?]|].
Qed.

(** ** The lazy gap of the first pattern *)

Lemma lazy_any_Some (k : cont) (s : text) (cs : captures) :
  rmatch (Star false (Class is_any)) s cs k <> None <->
  exists pre z, s = pre ++ z /\ k z cs <> None.
Proof.
  split.
  - induction s as [|c s IH]; intros H.
    + rewrite star_stop in H by exact I. now exists [], [].
    + rewrite star_lazy_cons in H by apply is_any_true.
      destruct (k (c :: s) cs) eqn:E.
      * exists [], (c :: s). split; [reflexivity|congruence].
      * destruct (IH H) as (pre & z & -> & Hz). now exists (c :: pre), z.
  - intros (pre & z & -> & Hz). induction pre as [|c pre IH].
    + cbn [app]. destruct z as [|c z].
      * now rewrite star_stop by exact I.
      * rewrite star_lazy_cons by apply is_any_true.
        destruct (k (c :: z) cs); congruence.
    + cbn [app]. rewrite star_lazy_cons by apply is_any_true.
      destruct (k (c :: pre ++ z) cs); [discriminate|exact IH].
Qed.

Lemma from_clause_not_space (c : char) (x : text) (cs : captures) :
  is_space c = true -> rmatch re_from_clause (c :: x) cs k_done = None.
Proof.
  intros Hc. unfold re_from_clause, kw.
  rewrite rmatch_Seq_Word, strip_prefix_space by (reflexivity || exact Hc).
  reflexivity.
Qed.

Lemma from_clause_nonempty : ~ from_clause_at [].
Proof. intros H. apply H. reflexivity. Qed.

(** The first pattern matches exactly where the text reads [import], a
    white-space code unit, and further on a [from] clause. *)
Lemma matches_import_from (s : text) :
  matches re_import_from s = true <->
  exists c s1 pre z,
    strip_prefix w_import s = Some (c :: s1) /\ is_space c = true /\
    s1 = pre ++ z /\ from_clause_at z.
Proof.
  rewrite matches_true. unfold rexec, re_import_from. unfold kw at 1.
  rewrite rmatch_Seq_Word. fold w_import.
  destruct (strip_prefix w_import s) as [[|c s1]|].
  2:{ cbn [rmatch]. fold (Plus (Class is_space)). rewrite rmatch_Plus.
      fold re_from_clause.
      change (repeat None (ngroups _)) with (@nil (option text)).
      destruct (is_space c) eqn:Ec.
      - match goal with
        | |- context [rmatch (Star true (Class is_space)) s1 ?cs0 ?k] =>
          assert (Hk : forall c x cs, is_space c = true ->
                         k (c :: x) cs = None \/ k (c :: x) cs = k x cs);
          [|destruct (star_greedy_skip is_space k Hk s1 cs0) as [-> _]]
        end.
        + intros c0 x cs Hc0. right. cbn [rmatch].
          change (rmatch (Star false (Class is_any)) (c0 :: x) cs
                    (fun s' cs' => rmatch re_from_clause s' cs' k_done)
                  = rmatch (Star false (Class is_any)) x cs
                      (fun s' cs' => rmatch re_from_clause s' cs' k_done)).
          rewrite star_lazy_cons by apply is_any_true.
          now rewrite from_clause_not_space.
        + cbn [rmatch].
          change (rmatch (Star false (Class is_any)) (drop_while is_space s1) []
                    (fun s' cs' => rmatch re_from_clause s' cs' k_done) <> None
                  <-> exists c0 s0 pre z,
                      Some (c :: s1) = Some (c0 :: s0) /\ is_space c0 = true /\
                      s0 = pre ++ z /\ from_clause_at z).
          rewrite lazy_any_Some. split.
          * intros (pre & z & Hd & Hz).
            destruct (drop_while_split is_space s1) as (run & Hs1 & _).
            exists c, s1, (run ++ pre), z. repeat split; try assumption.
            rewrite Hs1 at 1. rewrite Hd. now rewrite app_assoc.
          * intros (c0 & s0 & pre & z & Heq & _ & Hs0 & Hz).
            injection Heq as <- <-.
            revert s1 Hs0. induction pre as [|a pre IH]; intros s1 Hs1.
            -- exists [], z. split; [|exact Hz]. cbn [app] in *. subst s1.
               destruct z as [|a z]; [reflexivity|]. cbn [drop_while].
               destruct (is_space a) eqn:Ea; [|reflexivity].
               exfalso. apply Hz. now apply from_clause_not_space.
            -- subst s1. cbn [app drop_while]. destruct (is_space a).
               ++ apply (IH (pre ++ z)). reflexivity.
               ++ now exists (a :: pre), z.
      - split; [congruence|].
        intros (c0 & s0 & pre & z & Heq & Hc0 & _). inversion Heq; subst. congruence. }
  all: split; [intros H; exfalso; apply H; reflexivity|];
    intros (c0 & s0 & pre & z & Heq & _); discriminate.
Qed.

(** The second pattern, like every pattern, wants [import] and a white-space
    code unit at the head. *)
Lemma matches_keyword_space (w : string) (r : regex) (s : text) :
  matches (Seq (kw w) (Seq (Plus (Class is_space)) r)) s = true ->
  word_then_space (utf16 w) s = true.
Proof.
  rewrite matches_true.
  destruct (rexec (Seq (kw w) (Seq (Plus (Class is_space)) r)) s)
    as [[rest cs]|] eqn:E; [|congruence].
  intros _. now apply rexec_nonempty in E as [E _].
Qed.

(* ===================================================================== *)
(** * Keywords and line starts                                            *)
(* ===================================================================== *)

Lemma prefix_before_sep (w X P Q : text) (c : char) :
  w ++ X = P ++ c :: Q -> ~ In c w -> exists l, P = w ++ l /\ X = l ++ c :: Q.
Proof.
  revert P. induction w as [|a w IH]; intros P H Hc.
  - exists P. split; [reflexivity|exact H].
  - destruct P as [|b P].
    + cbn in H. injection H as <- _. exfalso. apply Hc. now left.
    + cbn in H. injection H as <- H.
      destruct (IH P H) as (l & -> & ->); [intros Hin; apply Hc; now right|].
      now exists l.
Qed.

Lemma is_head_inv (u : text) :
  is_head u = true ->
  exists w y, (w = w_import \/ w = w_export) /\ u = w ++ y.
Proof.
  unfold is_head, starts_with. intros H. apply orb_prop in H as [H|H].
  - destruct (strip_prefix w_import u) as [y|] eqn:E; [|discriminate].
    exists w_import, y. split; [now left|now apply strip_prefix_Some].
  - destruct (strip_prefix w_export u) as [y|] eqn:E; [|discriminate].
    exists w_export, y. split; [now right|now apply strip_prefix_Some].
Qed.

Lemma is_head_app (w y : text) :
  w = w_import \/ w = w_export -> is_head (w ++ y) = true.
Proof.
  unfold is_head, starts_with. intros [->| ->]; rewrite strip_prefix_app;
    [reflexivity|apply orb_true_r].
Qed.

Lemma keyword_no_nl (w : text) :
  w = w_import \/ w = w_export -> ~ In c_nl w.
Proof. intros [->| ->]; vm_compute; intuition discriminate. Qed.

(** A keyword never contains a line break: whether a text reads a keyword
    at its head is decided before its first line break. *)
Lemma is_head_context (l x y : text) :
  is_head (l ++ c_nl :: x) = true -> is_head (l ++ c_nl :: y) = true.
Proof.
  intros H. apply is_head_inv in H as (w & r & Hw & E).
  symmetry in E. apply prefix_before_sep in E as (l2 & -> & _);
    [|now apply keyword_no_nl].
  rewrite <- app_assoc. now apply is_head_app.
Qed.

Lemma is_head_not_space (u : text) :
  is_head u = true -> drop_while is_space u = u.
Proof.
  intros H. apply is_head_inv in H as (w & y & [->| ->] & ->); reflexivity.
Qed.

Lemma is_head_not_keyword (u : text) :
  is_head u = true -> keyword_next u = false /\ default_then_space u = false.
Proof.
  intros H. apply is_head_inv in H as (w & y & [->| ->] & ->);
    split; vm_compute; reflexivity.
Qed.

Lemma decl_keyword_plain (kw : text) :
  In kw decl_keywords ->
  ~ In c_nl kw /\ (forall y, is_head (kw ++ y) = false) /\
  exists b kw', kw = kw' ++ [b] /\ b <> c_nl.
Proof.
  unfold decl_keywords. cbn [In]. intros H.
  repeat (destruct H as [<-|H];
          [split; [vm_compute; intuition discriminate|];
           split; [intros y; vm_compute; reflexivity|];
           eexists; eexists; split; [apply (@app_removelast_last char _ 0%N); discriminate|];
           vm_compute; discriminate|]).
  destruct H.
Qed.

Lemma first_keyword_complete (kws : list text) (kw x : text) :
  In kw kws -> first_keyword kws (kw ++ x) <> None.
Proof.
  induction kws as [|k kws IH]; [intros []|]. intros [->|Hin].
  - cbn [first_keyword]. now rewrite strip_prefix_app.
  - cbn [first_keyword]. destruct (strip_prefix k (kw ++ x)); [discriminate|].
    now apply IH.
Qed.

Lemma line_start_app (a b : text) (z : char) :
  line_start (a ++ b ++ [z]) <-> z = c_nl.
Proof.
  unfold line_start. split.
  - intros [H|(pre' & H)].
    + destruct a; [destruct b|]; discriminate.
    + rewrite app_assoc in H. now apply app_inj_tail in H as [_ ->].
  - intros ->. right. exists (a ++ b). now rewrite app_assoc.
Qed.

Lemma line_start_last (a : text) (z : char) :
  line_start (a ++ [z]) <-> z = c_nl.
Proof. apply (line_start_app [] a z). Qed.

Lemma nonempty_last (l : text) : l <> [] -> exists l' z, l = l' ++ [z].
Proof.
  intros H. exists (removelast l), (last l 0%N).
  now apply app_removelast_last.
Qed.

(** ** Patterns that survive deletions further on *)

Section ExportForm.

Variable f : text -> bool.
Hypothesis f_not_keyword : forall y, is_head y = true -> f y = false.
Hypothesis f_before_break :
  forall a l y y', is_space a = false ->
    f (a :: l ++ c_nl :: y) = true -> f (a :: l ++ c_nl :: y') = true.

Lemma after_space_stable (o y y' : text) :
  is_head y = true ->
  f (drop_while is_space (o ++ c_nl :: y)) = true ->
  f (drop_while is_space (o ++ c_nl :: y')) = true.
Proof.
  intros Hy. induction o as [|a o IH].
  - cbn [app drop_while].
    replace (is_space c_nl) with true by reflexivity.
    rewrite (is_head_not_space y Hy), (f_not_keyword y Hy). discriminate.
  - cbn [app drop_while]. destruct (is_space a) eqn:Ea; [exact IH|].
    now apply f_before_break.
Qed.

(** What follows a line break that is followed by a keyword does not
    decide whether [export], white space, [f] is read before it. *)
Lemma export_form_stable (o y y' : text) :
  is_head y = true ->
  export_form f (o ++ c_nl :: y) = true ->
  export_form f (o ++ c_nl :: y') = true.
Proof.
  intros Hy. unfold export_form.
  destruct (strip_prefix w_export (o ++ c_nl :: y)) as [[|c s1]|] eqn:E;
    try discriminate.
  intros H. apply andb_prop in H as [Hc Hf].
  apply strip_prefix_Some in E. symmetry in E.
  apply prefix_before_sep in E as (o1 & -> & E);
    [|apply keyword_no_nl; now right].
  rewrite <- app_assoc, strip_prefix_app.
  destruct o1 as [|a o1].
  - cbn [app] in *. injection E as -> ->.
    rewrite (is_head_not_space y Hy), (f_not_keyword y Hy) in Hf. discriminate.
  - cbn [app] in *. injection E as -> ->. rewrite Hc. cbn [andb].
    now apply (after_space_stable o1 y y').
Qed.

End ExportForm.

Lemma keyword_next_before_break (a : char) (l y y' : text) :
  is_space a = false ->
  keyword_next (a :: l ++ c_nl :: y) = true ->
  keyword_next (a :: l ++ c_nl :: y') = true.
Proof.
  intros _. unfold keyword_next.
  destruct (first_keyword decl_keywords (a :: l ++ c_nl :: y))
    as [[kw rest]|] eqn:E; [|discriminate].
  intros _. apply first_keyword_Some in E as (Hin & E).
  change (a :: l ++ c_nl :: y) with ((a :: l) ++ c_nl :: y) in E. symmetry in E.
  apply prefix_before_sep in E as (l2 & E & _);
    [|now apply decl_keyword_plain].
  change (a :: l ++ c_nl :: y') with ((a :: l) ++ c_nl :: y').
  rewrite E, <- app_assoc.
  destruct (first_keyword decl_keywords (kw ++ l2 ++ c_nl :: y')) eqn:E2;
    [reflexivity|].
  now apply first_keyword_complete in E2.
Qed.

Lemma default_before_break (a : char) (l y y' : text) :
  is_space a = false ->
  default_then_space (a :: l ++ c_nl :: y) = true ->
  default_then_space (a :: l ++ c_nl :: y') = true.
Proof.
  intros _. unfold default_then_space, word_then_space.
  destruct (strip_prefix (utf16 "default") (a :: l ++ c_nl :: y))
    as [[|d s2]|] eqn:E; try discriminate.
  intros Hd. apply strip_prefix_Some in E.
  change (a :: l ++ c_nl :: y) with ((a :: l) ++ c_nl :: y) in E. symmetry in E.
  apply prefix_before_sep in E as (l2 & E & E2);
    [|vm_compute; intuition discriminate].
  change (a :: l ++ c_nl :: y') with ((a :: l) ++ c_nl :: y').
  rewrite E, <- app_assoc, strip_prefix_app.
  destruct l2 as [|b l2]; cbn [app] in *; injection E2 as -> _; exact Hd.
Qed.

Lemma export_default_stable (o y y' : text) :
  is_head y = true ->
  matches re_export_default (o ++ c_nl :: y) = true ->
  matches re_export_default (o ++ c_nl :: y') = true.
Proof.
  rewrite !matches_export_default.
  apply (export_form_stable default_then_space).
  - intros u Hu. now apply is_head_not_keyword.
  - exact default_before_break.
Qed.

Lemma export_decl_stable (o y y' : text) :
  is_head y = true ->
  matches re_export_decl (o ++ c_nl :: y) = true ->
  matches re_export_decl (o ++ c_nl :: y') = true.
Proof.
  rewrite !matches_export_decl.
  apply (export_form_stable keyword_next).
  - intros u Hu. now apply is_head_not_keyword.
  - exact keyword_next_before_break.
Qed.

(* ===================================================================== *)
(** * One pass over a document whose keywords are anticipated             *)
(* ===================================================================== *)

Lemma app_eq_same_length (a b c d : text) :
  a ++ b = c ++ d -> List.length a = List.length c -> a = c /\ b = d.
Proof.
  revert c. induction a as [|x a IH]; intros [|y c] H Hlen; try discriminate.
  - now split.
  - cbn in H. injection H as -> H. cbn in Hlen.
    destruct (IH c H) as [-> ->]; [lia|]. now split.
Qed.

Lemma is_head_nil : is_head [] = false.
Proof. reflexivity. Qed.

Section DeletingPass.

Variables (r : regex) (later : text -> bool).

Hypothesis r_head :
  forall s rest cs, rexec r s = Some (rest, cs) ->
    is_head s = true /\ exists m, m <> [] /\ s = m ++ rest.

Hypothesis later_stable :
  forall o y y',
    is_head y = true -> rexec r y <> None ->
    later (o ++ c_nl :: y) = true -> rexec r (o ++ c_nl :: y) = None ->
    is_head (o ++ c_nl :: y') = true ->
    later (o ++ c_nl :: y') = true /\ rexec r (o ++ c_nl :: y') = None.

Lemma pending_after_match (out m rest : text) :
  m <> [] -> is_head (m ++ rest) = true -> rexec r (m ++ rest) <> None ->
  pending r later out (m ++ rest) -> pending r later out rest.
Proof.
  intros Hm Hhead Hmatch Hinv pre u Hsplit Hu.
  assert (Hout : line_start out) by (apply (Hinv out (m ++ rest) eq_refl Hhead)).
  destruct (app_eq_app _ _ _ _ Hsplit) as (l & [[Ho Hu']|[Hp Hr]]).
  - destruct l as [|b l].
    + rewrite app_nil_r in Ho. subst pre. cbn [app] in Hu'. subst u.
      destruct (Hinv (out ++ m) rest) as [_ Hprop];
        [now rewrite <- app_assoc|exact Hu|].
      split; [exact Hout|].
      destruct Hprop as [Hsv|[_ Hr]]; [now left|right; split; [lia|exact Hr]].
    + destruct (nonempty_last (b :: l)) as (l' & z & Hl); [discriminate|].
      rewrite Hl in Ho, Hu'.
      assert (Hz : z = c_nl).
      { rewrite Ho in Hout. now apply line_start_app in Hout. }
      subst z u. rewrite <- app_assoc in Hu. cbn [app] in Hu.
      assert (Huh : is_head (l' ++ c_nl :: m ++ rest) = true)
        by (apply (is_head_context l' rest); exact Hu).
      destruct (Hinv pre (l' ++ c_nl :: m ++ rest)) as [Hls Hprop];
        [rewrite Ho, <- !app_assoc; reflexivity|exact Huh|].
      split; [exact Hls|]. left.
      destruct Hprop as [[Hl1 Hl2]|[Hlen _]].
      * rewrite <- app_assoc. cbn [app].
        now apply (later_stable l' (m ++ rest) rest).
      * exfalso. rewrite Ho, !length_app in Hlen. cbn [List.length] in Hlen. lia.
  - subst pre rest.
    destruct (Hinv (out ++ m ++ l) u) as [Hls Hprop];
      [rewrite <- !app_assoc; reflexivity|exact Hu|].
    split.
    + destruct l as [|b l]; [rewrite app_nil_r; exact Hout|].
      destruct (nonempty_last (b :: l)) as (l' & z & Hl); [discriminate|].
      rewrite Hl in Hls |- *.
      rewrite (app_assoc out m) in Hls.
      apply line_start_app in Hls. now apply line_start_app.
    + destruct Hprop as [Hsv|[_ Hr]]; [now left|].
      right. split; [rewrite length_app; lia|exact Hr].
Qed.

Lemma pending_after_copy (out s : text) (c : char) :
  rexec r (c :: s) = None ->
  pending r later out (c :: s) -> pending r later (out ++ [c]) s.
Proof.
  intros E Hinv pre u Hsplit Hu.
  rewrite <- app_assoc in Hsplit. cbn [app] in Hsplit.
  destruct (Hinv pre u Hsplit Hu) as [Hls [Hsv|[Hlen Hr]]];
    (split; [exact Hls|]); [now left|].
  destruct (Nat.eq_dec (List.length out) (List.length pre)) as [Heq|Hne].
  - destruct (app_eq_same_length _ _ _ _ Hsplit Heq) as [_ <-].
    left. split; [|exact E]. destruct Hr as [Hr|Hr]; [congruence|exact Hr].
  - right. split; [rewrite length_app; cbn [List.length]; lia|exact Hr].
Qed.

Lemma deleting_pass_pending (fuel : nat) :
  forall s out before,
    List.length s < fuel -> pending r later out s ->
    guarded_keywords (survivor r later)
                     (out ++ replace_from fuel r [] before s).
Proof.
  induction fuel as [|fuel IH]; intros s out before Hlen Hinv; [lia|].
  cbn [replace_from]. destruct (rexec r s) as [[rest cs]|] eqn:E.
  - destruct (r_head _ _ _ E) as (Hhead & m & Hm & Hs). subst s.
    rewrite firstn_matched. destruct m as [|x m]; [congruence|].
    cbn [GetSubstitution app]. apply IH.
    + rewrite length_app in Hlen. cbn [List.length] in Hlen. lia.
    + apply (pending_after_match out (x :: m) rest); try assumption.
      rewrite E. discriminate.
  - destruct s as [|c s].
    + intros pre u Hsplit Hu.
      destruct (Hinv pre u Hsplit Hu) as [Hls [Hsv|[Hlen' _]]];
        [now split|].
      exfalso. rewrite app_nil_r in Hsplit. subst out.
      rewrite length_app in Hlen'. destruct u; [discriminate|].
      cbn [List.length] in Hlen'. lia.
    + replace (out ++ c :: replace_from fuel r [] (before ++ [c]) s)
        with ((out ++ [c]) ++ replace_from fuel r [] (before ++ [c]) s)
        by (now rewrite <- app_assoc).
      apply IH; [cbn [List.length] in Hlen; lia|].
      now apply pending_after_copy.
Qed.

(** If every keyword of the document starts a line and is matched there by
    [r] or by a later pattern, then after the replacement of [r] every
    keyword starts a line and is matched by a later pattern. *)
Lemma deleting_pass (t : text) :
  guarded_keywords (fun u => rexec r u <> None \/ later u = true) t ->
  guarded_keywords (survivor r later) (replace_all t r []).
Proof.
  intros Hg. unfold replace_all.
  apply (deleting_pass_pending (S (List.length t)) t [] []); [lia|].
  intros pre u Hsplit Hu. destruct (Hg pre u Hsplit Hu) as [Hls Hr].
  split; [exact Hls|]. right. split; [cbn; lia|exact Hr].
Qed.

End DeletingPass.

(* ===================================================================== *)
(** * The last pass and the whole rewrite                                 *)
(* ===================================================================== *)

Lemma pending_decl_after_match (out c_ws kw rest : text) :
  In kw decl_keywords ->
  pending_decl out ((w_export ++ c_ws) ++ kw ++ rest) ->
  pending_decl (out ++ kw) rest.
Proof.
  intros Hin Hinv pre u Hsplit Hu.
  destruct (decl_keyword_plain kw Hin) as (Hnonl & Hnohead & b & kw' & Hkw & Hb).
  assert (Hhead : is_head ((w_export ++ c_ws) ++ kw ++ rest) = true).
  { rewrite <- app_assoc. apply is_head_app. now right. }
  assert (Hout : line_start out) by (apply (Hinv out _ eq_refl Hhead)).
  destruct (app_eq_app _ _ _ _ Hsplit) as (l & [[Ho Hu']|[Hp Hr]]).
  - exfalso. subst u.
    destruct (app_eq_app _ _ _ _ Ho) as (l2 & [[Ho2 Hl]|[Hp2 Hk]]).
    + subst l. destruct l2 as [|b2 l2].
      * cbn [app] in Hu. rewrite Hnohead in Hu. discriminate.
      * destruct (nonempty_last (b2 :: l2)) as (l' & z & Hl); [discriminate|].
        rewrite Hl in Ho2, Hu.
        rewrite Ho2 in Hout. apply line_start_app in Hout. subst z.
        rewrite <- !app_assoc in Hu. cbn [app] in Hu.
        assert (Huh : is_head (l' ++ c_nl :: (w_export ++ c_ws) ++ kw ++ rest) = true)
          by (apply (is_head_context l' (kw ++ rest)); exact Hu).
        destruct (Hinv pre (l' ++ c_nl :: (w_export ++ c_ws) ++ kw ++ rest))
          as (_ & Hlen & _);
          [rewrite Ho2, <- !app_assoc; reflexivity|exact Huh|].
        rewrite Ho2, !length_app in Hlen. cbn [List.length] in Hlen. lia.
    + destruct (Hinv (out ++ (w_export ++ c_ws) ++ l2) (l ++ rest))
        as (Hls & _ & _);
        [rewrite Hk, <- !app_assoc; reflexivity|exact Hu|].
      destruct l2 as [|b2 l2].
      * cbn [app] in Hk. subst l. rewrite Hnohead in Hu. discriminate.
      * destruct (nonempty_last (b2 :: l2)) as (l' & z & Hl2); [discriminate|].
        rewrite Hl2 in Hls, Hk.
        rewrite (app_assoc out) in Hls. apply line_start_app in Hls. subst z.
        apply Hnonl. rewrite Hk. apply in_or_app. left.
        apply in_or_app. right. now left.
  - subst pre rest.
    destruct (Hinv (out ++ (w_export ++ c_ws) ++ kw ++ l) u) as (Hls & _ & Hm);
      [rewrite <- !app_assoc; reflexivity|exact Hu|].
    split; [|split; [rewrite (length_app (out ++ kw) l); apply Nat.le_add_r|exact Hm]].
    destruct l as [|bl l].
    + exfalso. rewrite app_nil_r, Hkw in Hls.
      rewrite !app_assoc in Hls. apply line_start_last in Hls. contradiction.
    + destruct (nonempty_last (bl :: l)) as (l' & z & Hl); [discriminate|].
      rewrite Hl in Hls |- *.
      rewrite !app_assoc in Hls. apply line_start_last in Hls.
      rewrite !app_assoc. now apply line_start_last.
Qed.

Lemma decl_pass_pending (fuel : nat) :
  forall s out before,
    List.length s < fuel -> pending_decl out s ->
    forall pre u,
      out ++ replace_from fuel re_export_decl (utf16 "$1") before s = pre ++ u ->
      is_head u = false.
Proof.
  induction fuel as [|fuel IH]; intros s out before Hlen Hinv; [lia|].
  cbn [replace_from]. destruct (rexec re_export_decl s) as [[rest cs]|] eqn:E.
  - destruct (rexec_export_decl_Some s rest cs E)
      as (c & ws & kw & Hs & Hc & Hws & Hin & ->).
    assert (Hm : firstn (List.length s - List.length rest) s
                 = (w_export ++ c :: ws) ++ kw).
    { rewrite Hs, app_assoc. apply firstn_matched. }
    assert (Hrest : List.length rest < fuel).
    { rewrite Hs, !length_app, w_export_eq in Hlen.
      cbn [List.length] in Hlen. lia. }
    rewrite Hm, substitute_group1.
    destruct ((w_export ++ c :: ws) ++ kw) as [|x mm] eqn:Emm.
    { rewrite w_export_eq in Emm. discriminate. }
    rewrite app_assoc. apply IH; [exact Hrest|].
    apply (pending_decl_after_match out (c :: ws) kw rest Hin).
    rewrite <- Hs. exact Hinv.
  - destruct s as [|c s].
    + intros pre u Hsplit. destruct (is_head u) eqn:Hu; [|reflexivity].
      exfalso. destruct (Hinv pre u Hsplit Hu) as (_ & Hl & _).
      rewrite app_nil_r in Hsplit. subst out. rewrite length_app in Hl.
      destruct u; [discriminate|]. cbn [List.length] in Hl. lia.
    + replace (out ++ c :: replace_from fuel re_export_decl (utf16 "$1")
                         (before ++ [c]) s)
        with ((out ++ [c]) ++ replace_from fuel re_export_decl (utf16 "$1")
                         (before ++ [c]) s)
        by (now rewrite <- app_assoc).
      apply IH; [cbn [List.length] in Hlen; lia|].
      intros pre u Hsplit Hu. rewrite <- app_assoc in Hsplit. cbn [app] in Hsplit.
      destruct (Hinv pre u Hsplit Hu) as (Hls & Hl & Hm).
      split; [exact Hls|]. split; [|exact Hm].
      destruct (Nat.eq_dec (List.length out) (List.length pre)) as [Heq|Hne].
      * exfalso. destruct (app_eq_same_length _ _ _ _ Hsplit Heq) as [_ <-].
        apply matches_true in Hm. congruence.
      * rewrite length_app. cbn [List.length]. lia.
Qed.

(** After the last replacement no keyword is left, if every keyword
    started a line and was matched by the last pattern. *)
Lemma decl_pass (t : text) :
  guarded_keywords (fun u => matches re_export_decl u = true) t ->
  forall pre u, replace_all t re_export_decl (utf16 "$1") = pre ++ u ->
                is_head u = false.
Proof.
  intros Hg. unfold replace_all.
  apply (decl_pass_pending (S (List.length t)) t [] []); [lia|].
  intros pre u Hsplit Hu. destruct (Hg pre u Hsplit Hu) as [Hls Hm].
  split; [exact Hls|]. split; [cbn; lia|exact Hm].
Qed.

(** ** The conditions of the three deleting passes *)

Lemma keyword_match_head (w : string) (r : regex) (s rest : text) (cs : captures) :
  utf16 w = w_import \/ utf16 w = w_export ->
  rexec (Seq (kw w) (Seq (Plus (Class is_space)) r)) s = Some (rest, cs) ->
  is_head s = true /\ exists m, m <> [] /\ s = m ++ rest.
Proof.
  intros Hw H. apply rexec_nonempty in H as (_ & c & m & ->). split.
  - rewrite <- !app_assoc. now apply is_head_app.
  - exists (utf16 w ++ c :: m). split; [|reflexivity].
    destruct (utf16 w); discriminate.
Qed.

Lemma export_headed (u : text) :
  after_import_side u = true -> word_then_space w_export u = true.
Proof.
  unfold after_import_side. intros H. apply orb_prop in H as [H|H].
  - exact (matches_keyword_space "export" _ u H).
  - exact (matches_keyword_space "export" _ u H).
Qed.

Lemma export_headed_no_import (w : string) (r : regex) (u : text) :
  utf16 w = w_import ->
  word_then_space w_export u = true ->
  rexec (Seq (kw w) (Seq (Plus (Class is_space)) r)) u = None.
Proof.
  intros Hw Hu.
  destruct (rexec (Seq (kw w) (Seq (Plus (Class is_space)) r)) u)
    as [[rest cs]|] eqn:E; [|reflexivity].
  apply rexec_nonempty in E as [E _]. rewrite Hw in E.
  unfold word_then_space in *.
  destruct (strip_prefix w_import u) as [x|] eqn:E1; [|discriminate].
  destruct (strip_prefix w_export u) as [y|] eqn:E2; [|discriminate].
  apply strip_prefix_Some in E1. apply strip_prefix_Some in E2.
  rewrite E1, w_import_eq, w_export_eq in E2. discriminate.
Qed.

Lemma after_import_side_stable (o y y' : text) :
  is_head y = true ->
  after_import_side (o ++ c_nl :: y) = true ->
  after_import_side (o ++ c_nl :: y') = true.
Proof.
  unfold after_import_side. intros Hy H. apply orb_prop in H as [H|H].
  - now rewrite (export_default_stable o y y' Hy H).
  - rewrite (export_decl_stable o y y' Hy H). apply orb_true_r.
Qed.

Lemma keyword_next_not_default (x : text) :
  keyword_next x = true -> default_then_space x = false.
Proof.
  unfold keyword_next.
  destruct (first_keyword decl_keywords x) as [[kw rest]|] eqn:E; [|discriminate].
  intros _. apply first_keyword_Some in E as (Hin & ->).
  unfold decl_keywords in Hin. cbn [In] in Hin.
  repeat (destruct Hin as [<-|Hin]; [vm_compute; reflexivity|]). destruct Hin.
Qed.

Lemma export_decl_not_default (u : text) :
  matches re_export_decl u = true -> rexec re_export_default u = None.
Proof.
  intros H. apply matches_false. rewrite matches_export_default.
  rewrite matches_export_decl in H.
  destruct (strip_prefix w_export u) as [[|c s1]|]; try reflexivity.
  apply andb_prop in H as [-> H]. cbn [andb].
  now apply keyword_next_not_default.
Qed.

Lemma import_from_further (o y : text) :
  word_then_space w_import (o ++ c_nl :: y) = true ->
  matches re_import_from y = true ->
  matches re_import_from (o ++ c_nl :: y) = true.
Proof.
  intros Ho Hy. apply matches_import_from in Hy
    as (c' & s1' & pre & z & Hy & _ & -> & Hz).
  apply strip_prefix_Some in Hy. subst y.
  unfold word_then_space in Ho.
  destruct (strip_prefix w_import (o ++ c_nl :: w_import ++ c' :: pre ++ z))
    as [[|c s1]|] eqn:E; try discriminate.
  apply matches_import_from. exists c, s1.
  apply strip_prefix_Some in E. symmetry in E.
  apply prefix_before_sep in E as (o1 & -> & E);
    [|apply keyword_no_nl; now left].
  assert (Hs1 : exists pre2, s1 = pre2 ++ z).
  { destruct o1 as [|a o1]; cbn [app] in E; injection E as _ ->.
    - exists (w_import ++ c' :: pre). now rewrite <- app_assoc.
    - exists (o1 ++ c_nl :: w_import ++ c' :: pre).
      rewrite <- !app_assoc. cbn [app]. now rewrite <- app_assoc. }
  destruct Hs1 as (pre2 & ->). exists pre2, z.
  rewrite <- app_assoc, strip_prefix_app.
  repeat split; try assumption.
  f_equal. symmetry. exact E.
Qed.

Lemma stable_import_from (o y y' : text) :
  is_head y = true -> rexec re_import_from y <> None ->
  after_import_from (o ++ c_nl :: y) = true ->
  rexec re_import_from (o ++ c_nl :: y) = None ->
  is_head (o ++ c_nl :: y') = true ->
  after_import_from (o ++ c_nl :: y') = true /\
  rexec re_import_from (o ++ c_nl :: y') = None.
Proof.
  intros Hy Hmy Hl Hnone _. unfold after_import_from in Hl.
  rewrite <- orb_assoc in Hl. apply orb_prop in Hl as [Hl|Hl].
  - exfalso. apply matches_false in Hnone.
    rewrite import_from_further in Hnone; [discriminate| |now apply matches_true].
    exact (matches_keyword_space "import" _ _ Hl).
  - pose proof (after_import_side_stable o y y' Hy Hl) as Hl'. split.
    + unfold after_import_from. rewrite <- orb_assoc.
      fold (after_import_side (o ++ c_nl :: y')). rewrite Hl'. apply orb_true_r.
    + apply (export_headed_no_import "import"); [reflexivity|].
      now apply export_headed.
Qed.

Lemma stable_import_side (o y y' : text) :
  is_head y = true -> rexec re_import_side y <> None ->
  after_import_side (o ++ c_nl :: y) = true ->
  rexec re_import_side (o ++ c_nl :: y) = None ->
  is_head (o ++ c_nl :: y') = true ->
  after_import_side (o ++ c_nl :: y') = true /\
  rexec re_import_side (o ++ c_nl :: y') = None.
Proof.
  intros Hy _ Hl _ _.
  pose proof (after_import_side_stable o y y' Hy Hl) as Hl'. split; [exact Hl'|].
  apply (export_headed_no_import "import"); [reflexivity|].
  now apply export_headed.
Qed.

Lemma stable_export_default (o y y' : text) :
  is_head y = true -> rexec re_export_default y <> None ->
  after_export_default (o ++ c_nl :: y) = true ->
  rexec re_export_default (o ++ c_nl :: y) = None ->
  is_head (o ++ c_nl :: y') = true ->
  after_export_default (o ++ c_nl :: y') = true /\
  rexec re_export_default (o ++ c_nl :: y') = None.
Proof.
  intros Hy _ Hl _ _. unfold after_export_default in *.
  pose proof (export_decl_stable o y y' Hy Hl) as Hl'. split; [exact Hl'|].
  now apply export_decl_not_default.
Qed.

(** ** Reading the condition off the document *)

Lemma keywords_anticipated_eq (b : bool) (s : text) :
  keywords_anticipated b s =
  (if is_head s then b && anticipated s else true)
  && match s with
     | [] => true
     | c :: s' => keywords_anticipated (c =? c_nl)%N s'
     end.
Proof. destruct s; reflexivity. Qed.

Lemma keywords_anticipated_spec (pre : text) :
  forall b s u,
    keywords_anticipated b s = true -> s = pre ++ u -> is_head u = true ->
    ((pre = [] /\ b = true) \/ exists pre', pre = pre' ++ [c_nl]) /\
    anticipated u = true.
Proof.
  induction pre as [|a pre IH]; intros b s u H -> Hu.
  - cbn [app] in H. rewrite keywords_anticipated_eq, Hu in H.
    apply andb_prop in H as [H _]. apply andb_prop in H as [-> ->].
    split; [now left|reflexivity].
  - cbn [app] in H. rewrite keywords_anticipated_eq in H.
    apply andb_prop in H as [_ H].
    destruct (IH _ _ u H eq_refl Hu) as [[[-> Ha]|(pre' & ->)] Hant];
      (split; [right|exact Hant]).
    + exists []. apply N.eqb_eq in Ha. now subst a.
    + now exists (a :: pre').
Qed.

Lemma anticipated_only_guarded (code : text) :
  anticipated_only code = true ->
  guarded_keywords (fun u => anticipated u = true) code.
Proof.
  intros H pre u Hsplit Hu.
  destruct (keywords_anticipated_spec pre true code u H Hsplit Hu)
    as [[[-> _]|Hpre] Hant]; (split; [|exact Hant]).
  - now left.
  - now right.
Qed.

Lemma guarded_keywords_weaken (ok ok' : text -> Prop) (t : text) :
  (forall u, ok u -> ok' u) -> guarded_keywords ok t -> guarded_keywords ok' t.
Proof.
  intros Himp Hg pre u Hsplit Hu. destruct (Hg pre u Hsplit Hu) as [Hls Hok].
  split; [exact Hls|now apply Himp].
Qed.

Lemma includes_false (t w : text) :
  (forall pre u, t = pre ++ u -> strip_prefix w u = None) ->
  includes t w = false.
Proof.
  unfold includes. intros H.
  assert (E : find_first w t = None).
  { induction t as [|c t IH].
    - rewrite find_first_eq, (H [] [] eq_refl). reflexivity.
    - rewrite find_first_eq, (H [] (c :: t) eq_refl).
      rewrite IH; [reflexivity|].
      intros pre u ->. now apply (H (c :: pre) u). }
  now rewrite E.
Qed.

Lemma not_head_includes (t : text) :
  (forall pre u, t = pre ++ u -> is_head u = false) ->
  includes t (utf16 "import") = false /\ includes t (utf16 "export") = false.
Proof.
  intros H. split; apply includes_false; intros pre u Hsplit;
    specialize (H pre u Hsplit); unfold is_head, starts_with in H;
    apply orb_false_iff in H as [H1 H2].
  - fold w_import. now destruct (strip_prefix w_import u).
  - fold w_export. now destruct (strip_prefix w_export u).
Qed.

Lemma transform_without_keywords (code : text) :
  anticipated_only code = true ->
  forall pre u,
    replace_all
      (replace_all
         (replace_all (replace_all code re_import_from []) re_import_side [])
         re_export_default [])
      re_export_decl (utf16 "$1") = pre ++ u ->
    is_head u = false.
Proof.
  intros H. apply decl_pass.
  apply (guarded_keywords_weaken (survivor re_export_default after_export_default));
    [intros u [Hu _]; exact Hu|].
  apply (deleting_pass re_export_default after_export_default).
  { intros s rest cs. apply (keyword_match_head "export"). now right. }
  { exact stable_export_default. }
  apply (guarded_keywords_weaken (survivor re_import_side after_import_side)).
  { intros u [Hu _]. unfold after_import_side in Hu.
    apply orb_prop in Hu as [Hu|Hu]; [left; now apply matches_true|now right]. }
  apply (deleting_pass re_import_side after_import_side).
  { intros s rest cs. apply (keyword_match_head "import"). now left. }
  { exact stable_import_side. }
  apply (guarded_keywords_weaken (survivor re_import_from after_import_from)).
  { intros u [Hu _]. unfold after_import_from in Hu.
    rewrite <- orb_assoc in Hu.
    apply orb_prop in Hu as [Hu|Hu]; [left; now apply matches_true|now right]. }
  apply (deleting_pass re_import_from after_import_from).
  { intros s rest cs. apply (keyword_match_head "import"). now left. }
  { exact stable_import_from. }
  apply (guarded_keywords_weaken (fun u => anticipated u = true));
    [|now apply anticipated_only_guarded].
  intros u Hu. unfold anticipated in Hu. unfold after_import_from.
  rewrite <- !orb_assoc in Hu. apply orb_prop in Hu as [Hu|Hu].
  - left. now apply matches_true.
  - right. now rewrite <- !orb_assoc.
Qed.

(** ** Rewrite completeness on anticipated documents *)

(** If, wherever the fetched document reads [import] or [export], that
    place is the start of a line and one of the four patterns matches
    there, then the rewritten text contains neither [import] nor
    [export]. *)
Theorem anticipated_keywords_are_removed (p : page) (code : text) :
  anticipated_only code = true ->
  includes (transform p code) (utf16 "import") = false /\
  includes (transform p code) (utf16 "export") = false.
Proof.
  intros H. apply not_head_includes.
  destruct p; cbn [transform]; unfold Pybind11.transform, MemoryPool.transform;
    now apply transform_without_keywords.
Qed.

Lemma anticipated_keywords_are_removed_witness :
  anticipated_only anticipated_sample = true /\
  includes (transform MemoryPoolPage anticipated_sample) (utf16 "import") = false /\
  includes (transform MemoryPoolPage anticipated_sample) (utf16 "export") = false.
Proof.
  assert (H : anticipated_only anticipated_sample = true)
    by (vm_compute; reflexivity).
  split; [exact H|].
  exact (anticipated_keywords_are_removed MemoryPoolPage anticipated_sample H).
Defined.

(* ===================================================================== *)
(** * Rewrite completeness in a bundle                                    *)
(* ===================================================================== *)




(* ===================================================================== *)
(** * What the first replacement deletes                                  *)
(* ===================================================================== *)

Lemma keyword_then_space_head (u : text) :
  is_head u = false -> keyword_then_space u = false.
Proof.
  unfold is_head, starts_with, keyword_then_space, word_then_space.
  intros H. apply orb_false_iff in H as [H1 H2].
  destruct (strip_prefix w_import u); [discriminate|].
  destruct (strip_prefix w_export u); [discriminate|]. reflexivity.
Qed.

Lemma no_heads_nowhere (t : text) :
  (forall pre u, t = pre ++ u -> is_head u = false) ->
  nowhere keyword_then_space t = true.
Proof.
  induction t as [|c t IH]; intros H; cbn [nowhere].
  - rewrite (keyword_then_space_head [] (H [] [] eq_refl)). reflexivity.
  - rewrite (keyword_then_space_head _ (H [] (c :: t) eq_refl)). cbn [negb andb].
    apply IH. intros pre u ->. now apply (H (c :: pre) u).
Qed.

(** On a document whose keywords are all anticipated the rewrite is
    idempotent: rewriting the rewritten text changes nothing. *)
Theorem transform_twice (p : page) (code : text) :
  anticipated_only code = true ->
  transform p (transform p code) = transform p code.
Proof.
  intros H.
  assert (N : nowhere keyword_then_space (transform p code) = true).
  { apply no_heads_nowhere.
    destruct p; cbn [transform]; unfold Pybind11.transform, MemoryPool.transform;
      now apply transform_without_keywords. }
  revert N. generalize (transform p code). intros t N.
  pose proof (passes_fixed t N) as F.
  destruct p; cbn [transform];
    unfold Pybind11.transform, MemoryPool.transform, replace_all.
  all: rewrite (F re_import_from) by (now left).
  all: rewrite (F re_import_side) by (right; now left).
  all: rewrite (F re_export_default) by (right; right; now left).
  all: apply (F re_export_decl); right; right; right; now left.
Qed.

Lemma transform_twice_witness :
  anticipated_only anticipated_sample = true /\
  transform Pybind11Page (transform Pybind11Page anticipated_sample)
  = transform Pybind11Page anticipated_sample.
Proof.
  assert (H : anticipated_only anticipated_sample = true)
    by (vm_compute; reflexivity).
  split; [exact H|].
  exact (transform_twice Pybind11Page anticipated_sample H).
Defined.

(** ** The extent of a match of the first pattern *)

Lemma space_not_quote (c : char) : is_space c = true -> is_quote c = false.
Proof.
  intros H. unfold is_quote, c_squote, c_dquote.
  destruct (N.eqb_spec c 39) as [->|_]; [discriminate|].
  destruct (N.eqb_spec c 34) as [->|_]; [discriminate|]. reflexivity.
Qed.

Lemma drop_while_app (p : char -> bool) (run rest : text) :
  forallb p run = true ->
  match rest with [] => True | c :: _ => p c = false end ->
  drop_while p (run ++ rest) = rest.
Proof.
  intros Hrun Hrest. induction run as [|c run IH].
  - cbn [app]. destruct rest as [|c rest]; [reflexivity|].
    cbn [drop_while]. now rewrite Hrest.
  - cbn [forallb] in Hrun. apply andb_prop in Hrun as [Hc Hrun].
    cbn [app drop_while]. rewrite Hc. now apply IH.
Qed.

(** The [from] clause, computed on a clause of the expected shape. *)
Lemma from_clause_match (ws path rest : text) (q q' : char) :
  ws <> [] -> forallb is_space ws = true -> is_quote q = true ->
  path <> [] -> forallb not_quote path = true -> is_quote q' = true ->
  rmatch re_from_clause (utf16 "from" ++ ws ++ q :: path ++ q' :: rest) [] k_done
  = Some (skip_semicolon rest, []).
Proof.
  intros Hws Hsp Hq Hpath Hnq Hq'.
  unfold re_from_clause. unfold kw. rewrite rmatch_Seq_Word, strip_prefix_app.
  destruct ws as [|c ws]; [congruence|]. destruct path as [|d path]; [congruence|].
  cbn [forallb] in Hsp, Hnq.
  apply andb_prop in Hsp as [Hc Hsp]. apply andb_prop in Hnq as [Hd Hnq].
  cbn [rmatch]. fold (Plus (Class is_space)). rewrite rmatch_Plus.
  cbn [app]. rewrite Hc.
  match goal with
  | |- rmatch (Star true (Class is_space)) ?s0 ?cs0 ?k = _ =>
    assert (Hk : forall c x cs, is_space c = true ->
                   k (c :: x) cs = None \/ k (c :: x) cs = k x cs);
    [|destruct (star_greedy_skip is_space k Hk s0 cs0) as [-> _]]
  end.
  { intros c0 x cs Hc0. left. cbn [rmatch].
    now rewrite (space_not_quote c0 Hc0). }
  rewrite drop_while_app;
    [|exact Hsp|destruct (is_space q) eqn:E; [|reflexivity];
                apply space_not_quote in E; congruence].
  cbn [rmatch]. rewrite Hq. rewrite rmatch_Plus. cbn [app]. rewrite Hd.
  match goal with
  | |- rmatch (Star true (Class ?p)) ?s0 ?cs0 ?k = _ =>
    assert (Hk2 : forall c x cs, p c = true ->
                    k (c :: x) cs = None \/ k (c :: x) cs = k x cs);
    [|destruct (star_greedy_skip p k Hk2 s0 cs0) as [-> _]]
  end.
  { intros c0 x cs Hc0. left. cbn [rmatch].
    unfold not_quote in Hc0. apply negb_true_iff in Hc0. now rewrite Hc0. }
  rewrite drop_while_app; [|exact Hnq|unfold not_quote; now rewrite Hq'].
  cbn [rmatch]. rewrite Hq'. unfold skip_semicolon, k_done.
  destruct rest as [|s rest]; [reflexivity|].
  unfold Opt. cbn [rmatch]. now destruct (s =? c_semi)%N.
Qed.

Lemma lazy_any_here (k : cont) (z : text) (cs : captures) (x : text * captures) :
  k z cs = Some x -> rmatch (Star false (Class is_any)) z cs k = Some x.
Proof.
  intros H. destruct z as [|c z].
  - now rewrite star_stop by exact I.
  - rewrite star_lazy_cons by apply is_any_true. now rewrite H.
Qed.

(** The lazy gap stops at the first place where the rest of the pattern
    matches. *)
Lemma lazy_any_first (k : cont) (pre z : text) (cs : captures) :
  (forall pre1 z1, pre = pre1 ++ z1 -> z1 <> [] -> k (z1 ++ z) cs = None) ->
  rmatch (Star false (Class is_any)) (pre ++ z) cs k
  = rmatch (Star false (Class is_any)) z cs k.
Proof.
  induction pre as [|c pre IH]; intros H; [reflexivity|].
  cbn [app]. rewrite star_lazy_cons by apply is_any_true.
  pose proof (H [] (c :: pre) eq_refl) as H0. cbn [app] in H0.
  rewrite H0 by discriminate.
  apply IH. intros pre1 z1 -> Hz1. now apply (H (c :: pre1) z1).
Qed.

Lemma rexec_import_from (s : text) :
  rexec re_import_from s =
  match strip_prefix w_import s with
  | Some (c :: s1) =>
    if is_space c then
      rmatch (Star false (Class is_any)) (drop_while is_space s1) []
             (fun z cs => rmatch re_from_clause z cs k_done)
    else None
  | _ => None
  end.
Proof.
  unfold rexec, re_import_from. unfold kw at 1.
  rewrite rmatch_Seq_Word. fold w_import.
  destruct (strip_prefix w_import s) as [[|c s1]|]; try reflexivity.
  cbn [rmatch]. fold (Plus (Class is_space)). rewrite rmatch_Plus.
  fold re_from_clause. change (repeat None (ngroups _)) with (@nil (option text)).
  destruct (is_space c); [|reflexivity].
  match goal with
  | |- rmatch (Star true (Class is_space)) s1 ?cs0 ?k = _ =>
    assert (Hk : forall c x cs, is_space c = true ->
                   k (c :: x) cs = None \/ k (c :: x) cs = k x cs);
    [|destruct (star_greedy_skip is_space k Hk s1 cs0) as [-> _]]
  end.
  - intros c0 x cs Hc0. right. cbn [rmatch].
    change (rmatch (Star false (Class is_any)) (c0 :: x) cs
              (fun s' cs' => rmatch re_from_clause s' cs' k_done)
            = rmatch (Star false (Class is_any)) x cs
                (fun s' cs' => rmatch re_from_clause s' cs' k_done)).
    rewrite star_lazy_cons by apply is_any_true.
    now rewrite from_clause_not_space.
  - reflexivity.
Qed.

Lemma strip_prefix_longer (w a b : text) :
  List.length w <= List.length a ->
  strip_prefix w (a ++ b) = option_map (fun r => r ++ b) (strip_prefix w a).
Proof.
  revert a. induction w as [|c w IH]; intros a Hlen; [reflexivity|].
  destruct a as [|x a]; [cbn [List.length] in Hlen; lia|].
  cbn [app strip_prefix]. destruct (x =? c)%N; [|reflexivity].
  apply IH. cbn [List.length] in Hlen. lia.
Qed.

Lemma drop_while_before (p : char -> bool) (gap f : text) :
  match f with [] => True | c :: _ => p c = false end ->
  exists g1 g2, gap = g1 ++ g2 /\ drop_while p (gap ++ f) = g2 ++ f.
Proof.
  intros Hf. induction gap as [|c gap (g1 & g2 & Hg & Hd)].
  - exists [], []. split; [reflexivity|]. cbn [app].
    destruct f as [|c f]; [reflexivity|]. cbn [drop_while]. now rewrite Hf.
  - cbn [app drop_while]. destruct (p c).
    + exists (c :: g1), g2. split; [now rewrite Hg|exact Hd].
    + now exists [], (c :: gap).
Qed.

Lemma no_clause_within_at (pre z : text) :
  forall n, no_clause_within n (pre ++ z) = true -> List.length pre < n ->
            rmatch re_from_clause z [] k_done = None.
Proof.
  induction pre as [|c pre IH]; intros n H Hn.
  - destruct n as [|n]; [lia|]. cbn [app no_clause_within] in H.
    apply andb_prop in H as [H _]. apply negb_true_iff in H.
    unfold matches, rexec in H.
    change (repeat None (ngroups re_from_clause)) with (@nil (option text)) in H.
    fold k_done in H.
    now destruct (rmatch re_from_clause z [] k_done).
  - destruct n as [|n]; [cbn [List.length] in Hn; lia|].
    cbn [app no_clause_within] in H. apply andb_prop in H as [_ H].
    apply (IH n H). cbn [List.length] in Hn. lia.
Qed.

(** The first pattern at an import statement: the match runs from [import]
    to the end of the first [from] clause. *)
Lemma rexec_import_statement (c q q' : char) (gap ws path rest : text) :
  is_space c = true ->
  ws <> [] -> forallb is_space ws = true -> is_quote q = true ->
  path <> [] -> forallb not_quote path = true -> is_quote q' = true ->
  no_clause_within (List.length gap)
    (gap ++ utf16 "from" ++ ws ++ q :: path ++ q' :: rest) = true ->
  rexec re_import_from
        (w_import ++ c :: gap ++ utf16 "from" ++ ws ++ q :: path ++ q' :: rest)
  = Some (skip_semicolon rest, []).
Proof.
  intros Hc Hws Hsp Hq Hpath Hnq Hq' Hgap.
  rewrite rexec_import_from, strip_prefix_app, Hc.
  destruct (drop_while_before is_space gap
              (utf16 "from" ++ ws ++ q :: path ++ q' :: rest))
    as (g1 & g2 & Hg & ->); [reflexivity|].
  rewrite lazy_any_first.
  - apply lazy_any_here. now apply from_clause_match.
  - intros pre1 z1 Hg2 Hz1.
    apply (no_clause_within_at (g1 ++ pre1)
             (z1 ++ utf16 "from" ++ ws ++ q :: path ++ q' :: rest)
             (List.length gap)).
    + subst gap g2. revert Hgap. rewrite <- !app_assoc. intros Hgap. exact Hgap.
    + rewrite Hg, Hg2, !length_app. destruct z1; [congruence|].
      cbn [List.length]. lia.
Qed.

(** A scan with the empty template does not depend on its fuel, once there
    is enough of it, nor on what was read before. *)
Lemma replace_from_enough (r : regex) (fuel1 : nat) :
  forall fuel2 b1 b2 s,
    List.length s < fuel1 -> List.length s < fuel2 ->
    replace_from fuel1 r [] b1 s = replace_from fuel2 r [] b2 s.
Proof.
  induction fuel1 as [|fuel1 IH]; intros fuel2 b1 b2 s H1 H2; [lia|].
  destruct fuel2 as [|fuel2]; [lia|]. cbn [replace_from].
  destruct (rexec r s) as [[rest cs]|] eqn:E.
  - destruct (rexec_consumes r s rest cs E) as (m & ->).
    rewrite firstn_matched. cbn [GetSubstitution app].
    destruct m as [|x m].
    + cbn [app] in *. destruct rest as [|c rest]; [reflexivity|].
      f_equal. apply IH; cbn [List.length] in *; lia.
    + apply IH; rewrite length_app in *; cbn [List.length] in *; lia.
  - destruct s as [|c s]; [reflexivity|].
    f_equal. apply IH; cbn [List.length] in *; lia.
Qed.

Lemma replace_all_after_match (r : regex) (m rest : text) (cs : captures) :
  m <> [] -> rexec r (m ++ rest) = Some (rest, cs) ->
  replace_all (m ++ rest) r [] = replace_all rest r [].
Proof.
  intros Hm E. unfold replace_all.
  transitivity (replace_from (List.length (m ++ rest)) r [] ([] ++ m) rest).
  - cbn [replace_from]. rewrite E, firstn_matched.
    destruct m as [|x m]; [congruence|]. reflexivity.
  - destruct m as [|x m]; [congruence|].
    apply replace_from_enough; rewrite ?length_app; cbn [List.length]; lia.
Qed.

(** An import statement is deleted whole, with whatever stands between
    [import] and the first [from] clause: the rewrite of a document that
    starts with [import], a white-space code unit, any text [gap], and then
    a [from] clause ([from], white space, a quoted non-empty path, an
    optional semicolon) that is the first one after the [import] (the
    pattern of the clause matches at no position of [gap]) is the rewrite
    of what follows the clause.  The gap may hold line breaks, other
    statements, side-effect imports and the letters [from]. *)
Theorem import_statement_removed (p : page) (c q q' : char)
        (gap ws path rest : text) :
  is_space c = true ->
  ws <> [] -> forallb is_space ws = true -> is_quote q = true ->
  path <> [] -> forallb not_quote path = true -> is_quote q' = true ->
  no_clause_within (List.length gap)
    (gap ++ utf16 "from" ++ ws ++ q :: path ++ q' :: rest) = true ->
  transform p (utf16 "import" ++ c :: gap ++ utf16 "from" ++ ws
               ++ q :: path ++ q' :: rest)
  = transform p (skip_semicolon rest).
Proof.
  intros Hc Hws Hsp Hq Hpath Hnq Hq' Hgap.
  pose proof (rexec_import_statement c q q' gap ws path rest
                Hc Hws Hsp Hq Hpath Hnq Hq' Hgap) as E.
  destruct (rexec_consumes _ _ _ _ E) as (m & Hm).
  assert (Hne : m <> []).
  { intros ->. cbn [app] in Hm. apply (f_equal (@List.length char)) in Hm.
    repeat first [rewrite length_app in Hm | progress (cbn [List.length] in Hm)].
    assert (List.length (skip_semicolon rest) <= List.length rest).
    { unfold skip_semicolon. destruct rest as [|s rest]; [auto|].
      destruct (s =? c_semi)%N; cbn [List.length]; auto. }
    lia. }
  fold w_import. rewrite Hm in E |- *.
  pose proof (replace_all_after_match re_import_from m (skip_semicolon rest) [] Hne E)
    as Hpass.
  destruct p; cbn [transform]; unfold Pybind11.transform, MemoryPool.transform;
    now rewrite Hpass.
Qed.

Lemma import_statement_removed_witness :
  no_clause_within
    (List.length (utf16 "'./style.css';
const from = fromEvent(a);
import { x } "))
    (utf16 "'./style.css';
const from = fromEvent(a);
import { x } " ++ utf16 "from" ++ utf16 " " ++ 39%N :: utf16 "y" ++ 39%N
     :: utf16 ";
const b = 2;") = true /\
  transform Pybind11Page
    (utf16 "import" ++ 32%N :: utf16 "'./style.css';
const from = fromEvent(a);
import { x } " ++ utf16 "from" ++ utf16 " " ++ 39%N :: utf16 "y" ++ 39%N
     :: utf16 ";
const b = 2;")
  = transform Pybind11Page (utf16 "
const b = 2;").
Proof.
  split; [vm_compute; reflexivity|].
  apply (import_statement_removed Pybind11Page 32%N 39%N 39%N
           (utf16 "'./style.css';
const from = fromEvent(a);
import { x } ") (utf16 " ") (utf16 "y") (utf16 ";
const b = 2;")); try (vm_compute; reflexivity); discriminate.
Defined.

(* ===================================================================== *)
(** * More on the handler                                                 *)
(* ===================================================================== *)

Lemma file_effects_warnings (net : network) (files : list text) :
  warnings (concat (map (file_effects Pybind11Page net) files)) =
  map (fun f => utf16 "Error processing " ++ f)
      (filter (fun f => match fetched net f with None => true | Some _ => false end)
              files).
Proof.
  induction files as [|f files IH]; [reflexivity|].
  cbn [map concat filter]. rewrite warnings_app, IH. unfold file_effects.
  destruct (fetched net f); reflexivity.
Qed.

Lemma handleDownload_idle (p : page) (net : network) (w : world) :
  isDownloading w = false ->
  handleDownload p net w =
  (Done tt,
   World false
         (trace w ++ match fetched net index_html with
                     | Some html => success_log p net html
                     | None => failure_log p net
                     end)).
Proof.
  intros Hidle. destruct (fetched net index_html) as [html|] eqn:E.
  - now apply handleDownload_success.
  - now apply handleDownload_failure.
Qed.

(** The base document is fetched first; when it arrives the five manifest
    paths are fetched once each, in manifest order, whatever the outcome of
    each fetch (no retry, no early stop); when it does not arrive nothing
    else is fetched. *)
Theorem fetch_discipline (p : page) (net : network) (w : world) :
  isDownloading w = false ->
  exists tr,
    handleDownload p net w = (Done tt, World false (trace w ++ tr)) /\
    fetches tr =
    utf16 "index.html"
    :: match fetched net (utf16 "index.html") with
       | Some _ => filesToBundle
       | None => []
       end.
Proof.
  intros Hidle. eexists. split; [now apply handleDownload_idle|].
  fold index_html. destruct (fetched net index_html) as [html|].
  - unfold success_log. rewrite !fetches_app, file_effects_fetches.
    cbn [fetches flat_map app]. now rewrite app_nil_r.
  - destruct p; reflexivity.
Qed.

Lemma fetch_discipline_witness :
  isDownloading (World false []) = false /\
  exists tr,
    handleDownload Pybind11Page demo_site (World false []) =
      (Done tt, World false tr) /\
    fetches tr = utf16 "index.html" :: filesToBundle.
Proof.
  split; [reflexivity|].
  destruct (fetch_discipline Pybind11Page demo_site (World false []) eq_refl)
    as (tr & Hrun & Hf).
  exists tr. split; [exact Hrun|exact Hf].
Defined.

(** An invocation from idle never lets an exception escape and always
    resets the flag; its log holds either exactly one alert and no archive,
    or exactly one saved archive (of two entries) and no alert. *)
Theorem one_alert_or_one_archive (p : page) (net : network) (w : world) :
  isDownloading w = false ->
  exists tr,
    handleDownload p net w = (Done tt, World false (trace w ++ tr)) /\
    ((List.length (alerts tr) = 1 /\ saves tr = [] /\ zip_entries tr = [])
     \/ (alerts tr = [] /\ List.length (saves tr) = 1
         /\ List.length (zip_entries tr) = 2)).
Proof.
  intros Hidle. eexists. split; [now apply handleDownload_idle|].
  destruct (fetched net index_html) as [html|].
  - right. rewrite success_log_alerts, success_log_saves, success_log_zip_entries.
    repeat split.
  - left. destruct p; repeat split.
Qed.

Lemma one_alert_or_one_archive_witness :
  isDownloading (World false []) = false /\
  exists tr,
    handleDownload MemoryPoolPage offline (World false []) =
      (Done tt, World false tr) /\
    List.length (alerts tr) + List.length (saves tr) = 1.
Proof.
  split; [reflexivity|].
  destruct (one_alert_or_one_archive MemoryPoolPage offline (World false []) eq_refl)
    as (tr & Hrun & Hcases).
  exists tr. split; [exact Hrun|].
  destruct Hcases as [(Ha & Hs & _)|(Ha & Hs & _)]; rewrite Ha, Hs; reflexivity.
Defined.

Lemma off_console_app (a b : list effect) :
  off_console (a ++ b) = off_console a ++ off_console b.
Proof. apply filter_app. Qed.

Lemma file_effects_off_console (p : page) (net : network) (files : list text) :
  off_console (concat (map (file_effects p net) files)) = map Fetch files.
Proof.
  induction files as [|f files IH]; [reflexivity|].
  cbn [map concat]. rewrite off_console_app, IH. unfold file_effects.
  destruct (fetched net f); destruct p; reflexivity.
Qed.

Lemma file_effects_memory_pool (net : network) (files : list text) :
  concat (map (file_effects MemoryPoolPage net) files) = map Fetch files.
Proof.
  induction files as [|f files IH]; [reflexivity|].
  cbn [map concat]. rewrite IH. unfold file_effects.
  destruct (fetched net f); reflexivity.
Qed.

Lemma file_effects_warnings_any (p : page) (net : network) (files : list text) :
  warnings (concat (map (file_effects p net) files)) =
  match p with
  | Pybind11Page =>
    map (fun f => utf16 "Error processing " ++ f)
        (filter (fun f => match fetched net f with None => true | Some _ => false end)
                files)
  | MemoryPoolPage => []
  end.
Proof.
  destruct p; [apply file_effects_warnings|apply memory_pool_never_warns].
Qed.

(** Apart from the error objects handed to the console, the result depends
    only on which of the six documents arrive and on their texts: two
    networks that agree on that give the same return, the same flag, the
    same effects off the console (fetches, alert, zip entries, saved
    archive) and the same warning messages, even when their failures are of
    different kinds (a rejected promise, an error status, an unreadable
    body) or when they differ on other addresses.  On the memory-pool page,
    which never writes to the console, the whole result is the same. *)
Theorem outcome_depends_on_documents (p : page) (net1 net2 : network) (w : world) :
  (forall url, In url (utf16 "index.html" :: filesToBundle) ->
               fetched net1 url = fetched net2 url) ->
  let r1 := handleDownload p net1 w in
  let r2 := handleDownload p net2 w in
  fst r1 = fst r2 /\
  isDownloading (snd r1) = isDownloading (snd r2) /\
  off_console (trace (snd r1)) = off_console (trace (snd r2)) /\
  warnings (trace (snd r1)) = warnings (trace (snd r2)) /\
  (p = MemoryPoolPage -> r1 = r2).
Proof.
  intros H r1 r2. subst r1 r2. destruct (isDownloading w) eqn:Hw.
  - rewrite !handleDownload_busy by exact Hw. repeat split; reflexivity.
  - rewrite !handleDownload_idle by exact Hw.
    rewrite <- (H index_html) by now left.
    cbn [fst snd isDownloading trace].
    assert (Hb : combinedCode p net1 = combinedCode p net2).
    { unfold combinedCode. f_equal. f_equal.
      apply map_ext_in. intros f Hf. unfold file_block.
      rewrite (H f) by (now right). reflexivity. }
    assert (Hf : filter (fun f => match fetched net1 f with
                                  | None => true | Some _ => false end)
                        filesToBundle
                 = filter (fun f => match fetched net2 f with
                                    | None => true | Some _ => false end)
                          filesToBundle).
    { apply filter_ext_in. intros f Hf. rewrite (H f) by (now right).
      reflexivity. }
    split; [reflexivity|]. split; [reflexivity|].
    destruct (fetched net1 index_html) as [html|].
    + unfold success_log. rewrite <- Hb.
      split; [|split].
      * rewrite !off_console_app, !file_effects_off_console. reflexivity.
      * rewrite !warnings_app, !file_effects_warnings_any, Hf. reflexivity.
      * intros ->. rewrite !file_effects_memory_pool. reflexivity.
    + split; [|split].
      * rewrite !off_console_app. destruct p; reflexivity.
      * rewrite !warnings_app. destruct p; reflexivity.
      * intros ->. reflexivity.
Qed.

Lemma outcome_depends_on_documents_witness :
  (forall url, In url (utf16 "index.html" :: filesToBundle) ->
               fetched offline url = fetched all_errors url) /\
  off_console (trace (snd (handleDownload Pybind11Page offline (World false []))))
  = off_console (trace (snd (handleDownload Pybind11Page all_errors (World false []))))
  /\
  trace (snd (handleDownload Pybind11Page offline (World false [])))
  <> trace (snd (handleDownload Pybind11Page all_errors (World false []))).
Proof.
  assert (H : forall url, In url (utf16 "index.html" :: filesToBundle) ->
                          fetched offline url = fetched all_errors url)
    by (intros url _; reflexivity).
  split; [exact H|]. split.
  - exact (proj1 (proj2 (proj2
             (outcome_depends_on_documents Pybind11Page offline all_errors
                                           (World false []) H)))).
  - vm_compute. discriminate.
Defined.

(** On the pybind11 page the console warnings of a bundle are exactly one
    per manifest file whose fetch failed, in manifest order, each naming the
    path; the memory-pool page never writes a warning. *)
Theorem warnings_name_failed_files (p : page) (net : network) (w : world)
        (html : text) :
  isDownloading w = false ->
  fetched net index_html = Some html ->
  exists tr,
    handleDownload p net w = (Done tt, World false (trace w ++ tr)) /\
    warnings tr =
    match p with
    | Pybind11Page =>
      map (fun f => utf16 "Error processing " ++ f) (failed_files net)
    | MemoryPoolPage => []
    end.
Proof.
  intros Hidle Hbase. exists (success_log p net html).
  split; [now apply handleDownload_success|].
  unfold success_log. rewrite !warnings_app. destruct p.
  - rewrite file_effects_warnings. cbn [warnings flat_map app].
    now rewrite app_nil_r.
  - now rewrite memory_pool_never_warns.
Qed.

Lemma warnings_name_failed_files_witness :
  isDownloading (World false []) = false /\
  fetched demo_site index_html = Some (utf16 "<html><body></body></html>") /\
  exists tr,
    handleDownload Pybind11Page demo_site (World false []) =
      (Done tt, World false tr) /\
    warnings tr =
    [utf16 "Error processing components/QuantumScene.tsx";
     utf16 "Error processing components/Diagrams.tsx";
     utf16 "Error processing App.tsx";
     utf16 "Error processing index.tsx"].
Proof.
  split; [reflexivity|]. split; [reflexivity|].
  destruct (warnings_name_failed_files Pybind11Page demo_site (World false [])
              (utf16 "<html><body></body></html>") eq_refl eq_refl)
    as (tr & Hrun & Hw).
  exists tr. split; [exact Hrun|]. rewrite Hw. vm_compute. reflexivity.
Defined.

(** Invocations do not depend on what happened before: after an invocation
    from idle has finished, whatever its outcome, the next one runs as a
    first one would, and the log of the two is the concatenation of their
    logs. *)
Theorem invocations_compose (p : page) (net1 net2 : network) (w : world) :
  isDownloading w = false ->
  exists tr1 tr2,
    handleDownload p net1 (World false []) = (Done tt, World false tr1) /\
    handleDownload p net2 (World false []) = (Done tt, World false tr2) /\
    handleDownload p net2 (snd (handleDownload p net1 w))
    = (Done tt, World false (trace w ++ tr1 ++ tr2)).
Proof.
  intros Hidle. eexists. eexists.
  split; [now apply handleDownload_idle|].
  split; [now apply handleDownload_idle|].
  rewrite (handleDownload_idle p net1 w Hidle). cbn [snd].
  rewrite handleDownload_idle by reflexivity. cbn [trace app].
  now rewrite <- app_assoc.
Qed.

Lemma invocations_compose_witness :
  isDownloading (World false []) = false /\
  exists tr1 tr2,
    handleDownload Pybind11Page offline (World false []) = (Done tt, World false tr1) /\
    handleDownload Pybind11Page demo_site (World false []) = (Done tt, World false tr2) /\
    handleDownload Pybind11Page demo_site
      (snd (handleDownload Pybind11Page offline (World false [])))
    = (Done tt, World false (tr1 ++ tr2)).
Proof.
  split; [reflexivity|].
  exact (invocations_compose Pybind11Page offline demo_site (World false []) eq_refl).
Defined.

(** ** The place of the script block *)

Lemma find_first_at (p b a : text) :
  p <> [] -> includes (b ++ removelast p) p = false ->
  find_first p (b ++ p ++ a) = Some (b, a).
Proof.
  intros Hp. induction b as [|c b IH]; intros H.
  - cbn [app]. now rewrite find_first_eq, strip_prefix_app.
  - unfold includes in H. rewrite find_first_eq in H. cbn [app] in H.
    destruct (strip_prefix p (c :: b ++ removelast p)) as [r|] eqn:E;
      [discriminate|].
    rewrite find_first_eq. cbn [app].
    assert (E2 : strip_prefix p (c :: b ++ p ++ a) = None).
    { assert (Heq : c :: b ++ p ++ a
                    = (c :: b ++ removelast p) ++ [last p 0%N] ++ a).
      { cbn [app]. f_equal. rewrite <- app_assoc. f_equal.
        rewrite (app_removelast_last 0%N Hp) at 1. now rewrite <- app_assoc. }
      rewrite Heq, strip_prefix_longer; [now rewrite E|].
      cbn [List.length]. rewrite length_app.
      rewrite (app_removelast_last 0%N Hp) at 1.
      rewrite length_app. cbn [List.length]. unfold text, char in *. lia. }
    rewrite E2, IH; [reflexivity|].
    unfold includes. now destruct (find_first p (b ++ removelast p)) as [[? ?]|].
Qed.

(** When the combined code holds no dollar sign, the script block lands in
    the base document as it is: right before the first [</body>] (with a
    line break between them), or at the end of a document without
    [</body>]; the rest of the document is unchanged. *)
Theorem script_before_first_body_close (html cc : text) :
  has_dollar cc = false ->
  (includes html (utf16 "</body>") = false ->
   inject html cc = html ++ script_block cc) /\
  (forall before after,
      html = before ++ utf16 "</body>" ++ after ->
      includes (before ++ utf16 "</body") (utf16 "</body>") = false ->
      inject html cc = before ++ script_block cc ++ utf16 "
</body>" ++ after).
Proof.
  intros Hcc. rewrite (inject_plain html cc Hcc). split.
  - unfold includes. fold body_close.
    now destruct (find_first body_close html) as [[? ?]|].
  - intros before after -> Hfirst. fold body_close.
    rewrite find_first_at; [reflexivity|discriminate|exact Hfirst].
Qed.

Lemma script_before_first_body_close_witness :
  has_dollar (utf16 "const a = 1;") = false /\
  inject (utf16 "<html><body></body><!-- </body> --></html>") (utf16 "const a = 1;")
  = utf16 "<html><body>" ++ script_block (utf16 "const a = 1;") ++ utf16 "
</body>" ++ utf16 "<!-- </body> --></html>".
Proof.
  split; [vm_compute; reflexivity|].
  refine (proj2 (script_before_first_body_close
                   (utf16 "<html><body></body><!-- </body> --></html>")
                   (utf16 "const a = 1;") _)
                (utf16 "<html><body>") (utf16 "<!-- </body> --></html>") _ _);
    vm_compute; reflexivity.
Defined.

(* ===================================================================== *)
(** * The free-list visualizer                                            *)
(* ===================================================================== *)

Module VisualizerFacts.
Import MemoryPoolVisualizer.

Lemma findIndex_from_spec (f : entry -> bool) (l : list entry) (i : Z) :
  (findIndex_from f l i = (-1)%Z /\ Forall (fun x => f x = false) l) \/
  (exists k x,
      findIndex_from f l i = (i + Z.of_nat k)%Z /\
      nth_error l k = Some x /\ f x = true /\
      forall j y, j < k -> nth_error l j = Some y -> f y = false).
Proof.
  revert i. induction l as [|x l IH]; intros i; cbn [findIndex_from].
  - left. split; [reflexivity|constructor].
  - destruct (f x) eqn:E.
    + right. exists 0, x. repeat split; [lia|assumption|intros j y Hj; lia].
    + destruct (IH (i + 1)%Z) as [[Hr Hall]|(k & y & Hr & Hn & Hy & Hlt)].
      * left. split; [exact Hr|now constructor].
      * right. exists (S k), y. repeat split; [lia|assumption|assumption|].
        intros [|j] z Hj Hz; cbn [nth_error] in Hz.
        -- now inversion Hz; subst.
        -- apply (Hlt j z); [lia|exact Hz].
Qed.

Lemma map_index_In (l : list entry) (i z : Z) :
  In z (map_index l i) -> z <> (-1)%Z ->
  exists k b, z = (i + Z.of_nat k)%Z /\ nth_error l k = Some b /\ falsy b = true.
Proof.
  revert i. induction l as [|b l IH]; intros i Hin Hz; [destruct Hin|].
  cbn [map_index In] in Hin. destruct Hin as [Hin|Hin].
  - destruct (falsy b) eqn:E; [|congruence].
    exists 0, b. repeat split; [lia|assumption].
  - destruct (IH (i + 1)%Z Hin Hz) as (k & b' & -> & Hn & Hb).
    exists (S k), b'. repeat split; [lia|assumption|assumption].
Qed.

Lemma usedIndices_In (bs : list entry) (z : Z) :
  In z (usedIndices bs) ->
  exists k b, z = Z.of_nat k /\ nth_error bs k = Some b /\ falsy b = true.
Proof.
  unfold usedIndices. intros H. apply filter_In in H as [Hin Hz].
  apply negb_true_iff, Z.eqb_neq in Hz.
  destruct (map_index_In bs 0 z Hin Hz) as (k & b & -> & Hn & Hb).
  now exists k, b.
Qed.

Lemma set_nth_inside (l : list entry) (n : nat) (v : bool) :
  n < List.length l ->
  List.length (set_nth l n v) = List.length l /\
  (Forall (fun b => b <> None) l -> Forall (fun b => b <> None) (set_nth l n v)).
Proof.
  revert n. induction l as [|x l IH]; intros n Hn; [cbn in Hn; lia|].
  destruct n as [|n]; cbn [set_nth List.length].
  - split; [reflexivity|]. intros H. inversion H; subst.
    constructor; [discriminate|assumption].
  - cbn [List.length] in Hn. destruct (IH n) as [Hlen Hall]; [lia|].
    split; [now rewrite Hlen|]. intros H. inversion H; subst.
    constructor; [assumption|now apply Hall].
Qed.

Lemma set_nth_free_count (l : list entry) (n : nat) (b : entry) (v : bool) :
  nth_error l n = Some b ->
  free_count (set_nth l n v) + (if is_true b then 1 else 0)
  = free_count l + (if v then 1 else 0).
Proof.
  unfold free_count. revert n. induction l as [|x l IH]; intros n Hn.
  - destruct n; discriminate.
  - destruct n as [|n]; cbn [nth_error] in Hn.
    + inversion Hn; subst.
      destruct b as [[|]|]; destruct v; cbn; lia.
    + cbn [set_nth filter]. specialize (IH n Hn).
      destruct (is_true x), (is_true b), v; cbn [List.length] in *; lia.
Qed.

Lemma nth_error_In_range (l : list entry) (k : nat) (b : entry) :
  nth_error l k = Some b -> k < List.length l.
Proof. intros H. apply nth_error_Some. congruence. Qed.

(** ** The array keeps its shape *)

Lemma tick_six_blocks (s : system) (rnd : randoms) :
  six_blocks s ->
  six_blocks (System (fst (tick (comp s) rnd)) (timers s ++ snd (tick (comp s) rnd))).
Proof.
  intros (Hlen & Hall & Htimers). unfold six_blocks, tick. cbn [comp timers].
  destruct (findIndex_from_spec is_true (blocks (comp s)) 0)
    as [[Hfree _]|(k & x & Hfree & Hk & _)];
    unfold findIndex; rewrite Hfree.
  - rewrite andb_false_r.
    destruct (negb (findIndex_from is_false (blocks (comp s)) 0 =? -1)%Z).
    + cbn [fst snd blocks]. repeat split; try assumption.
      apply Forall_app. split; [assumption|]. constructor; [|constructor].
      unfold targets_within. cbn [index].
      destruct (nth_error (usedIndices (blocks (comp s))) (pick rnd)) as [z|] eqn:E;
        [|exact I].
      apply nth_error_In, usedIndices_In in E as (j & b & -> & Hj & _).
      apply nth_error_In_range in Hj. lia.
    + cbn [fst snd]. rewrite app_nil_r. repeat split; assumption.
  - apply nth_error_In_range in Hk.
    destruct (allocate rnd); cbn [andb].
    + replace (negb (0 + Z.of_nat k =? -1)%Z) with true
        by (symmetry; apply negb_true_iff, Z.eqb_neq; lia).
      cbn [fst snd blocks]. repeat split; try assumption.
      apply Forall_app. split; [assumption|]. constructor; [|constructor].
      unfold targets_within. cbn [index]. lia.
    + destruct (negb (findIndex_from is_false (blocks (comp s)) 0 =? -1)%Z).
      * cbn [fst snd blocks]. repeat split; try assumption.
        apply Forall_app. split; [assumption|]. constructor; [|constructor].
        unfold targets_within. cbn [index].
        destruct (nth_error (usedIndices (blocks (comp s))) (pick rnd)) as [z|] eqn:E;
          [|exact I].
        apply nth_error_In, usedIndices_In in E as (j & b & -> & Hj & _).
        apply nth_error_In_range in Hj. lia.
      * cbn [fst snd]. rewrite app_nil_r. repeat split; assumption.
Qed.

Lemma step_six_blocks (s s' : system) (e : event) :
  six_blocks s -> step s e = Some s' -> six_blocks s'.
Proof.
  intros Hs Hstep. destruct e as [rnd|]; cbn [step] in Hstep.
  - pose proof (tick_six_blocks s rnd Hs) as H.
    destruct (tick (comp s) rnd) as [st' ups]. now inversion Hstep; subst.
  - destruct Hs as (Hlen & Hall & Htimers).
    destruct (timers s) as [|u ts] eqn:Et; [discriminate|].
    inversion Hstep; subst. inversion Htimers; subst.
    unfold six_blocks, apply_update. cbn [comp timers blocks].
    unfold targets_within in H1. unfold array_set.
    destruct (index u) as [z|]; [|repeat split; assumption].
    replace (0 <=? z)%Z with true by (symmetry; apply Z.leb_le; lia).
    destruct (set_nth_inside (blocks (comp s)) (Z.to_nat z) (value u))
      as [Hl Hh]; [lia|].
    repeat split; [now rewrite Hl|now apply Hh|assumption].
Qed.

(** However ticks and timers interleave and whatever the random draws, the
    array always has exactly six entries, none of them a hole, and every
    pending write targets one of the six blocks: the visualizer never
    writes outside its array. *)
Theorem blocks_keep_shape (es : list event) (s : system) :
  run start es = Some s ->
  List.length (blocks (comp s)) = 6 /\
  Forall (fun b => b <> None) (blocks (comp s)) /\
  Forall (targets_within 6) (timers s).
Proof.
  assert (H : forall es s0 s, six_blocks s0 -> run s0 es = Some s -> six_blocks s).
  { clear. induction es as [|e es IH]; intros s0 s Hs Hrun; cbn [run] in Hrun.
    - now inversion Hrun; subst.
    - destruct (step s0 e) as [s1|] eqn:E; [|discriminate].
      apply (IH s1 s); [|exact Hrun]. exact (step_six_blocks s0 s1 e Hs E). }
  intros Hrun. apply (H es start s); [|exact Hrun].
  unfold six_blocks, start, initial. cbn [comp timers blocks].
  split; [reflexivity|]. split; [|constructor].
  repeat (constructor; [discriminate|]). constructor.
Qed.

Lemma blocks_keep_shape_witness :
  run start [Tick (Randoms true 0); Tick (Randoms false 1); Fire; Fire]
  = Some (System (Component
                    [Some false; Some true; Some true; Some true; Some false; Some true]
                    (Some 5%Z) FREE) []) /\
  List.length [Some false; Some true; Some true; Some true; Some false; Some true] = 6.
Proof.
  split; [reflexivity|].
  exact (proj1 (blocks_keep_shape
                  [Tick (Randoms true 0); Tick (Randoms false 1); Fire; Fire]
                  _ eq_refl)).
Defined.

(** ** What a tick decides *)

(** When the draw says allocate and a block is free, the tick points at the
    first free block (every block before it is not free) and schedules the
    write that marks it used; the array itself is not touched by the tick. *)
Theorem tick_allocates_first_free (st : component) (rnd : randoms) :
  allocate rnd = true ->
  In (Some true) (blocks st) ->
  exists i,
    tick st rnd = (Component (blocks st) (Some (Z.of_nat i)) ALLOC,
                   [Update (Some (Z.of_nat i)) false]) /\
    nth_error (blocks st) i = Some (Some true) /\
    forall j, j < i -> nth_error (blocks st) j <> Some (Some true).
Proof.
  intros Ha Hfree. unfold tick, findIndex.
  destruct (findIndex_from_spec is_true (blocks st) 0)
    as [[_ Hall]|(k & x & Hr & Hk & Hx & Hlt)].
  - exfalso. rewrite Forall_forall in Hall. now specialize (Hall _ Hfree).
  - rewrite Hr, Ha. cbn [andb].
    replace (negb (0 + Z.of_nat k =? -1)%Z) with true
      by (symmetry; apply negb_true_iff, Z.eqb_neq; lia).
    exists k. replace (0 + Z.of_nat k)%Z with (Z.of_nat k) by lia.
    split; [reflexivity|]. split.
    + destruct x as [[|]|]; try discriminate. exact Hk.
    + intros j Hj Hn. now specialize (Hlt j _ Hj Hn).
Qed.

Lemma tick_allocates_first_free_witness :
  allocate (Randoms true 0) = true /\
  In (Some true) [Some false; Some true; Some true] /\
  tick (Component [Some false; Some true; Some true] (Some 0%Z) IDLE) (Randoms true 0)
  = (Component [Some false; Some true; Some true] (Some 1%Z) ALLOC,
     [Update (Some 1%Z) false]).
Proof.
  split; [reflexivity|]. split; [right; now left|].
  destruct (tick_allocates_first_free
              (Component [Some false; Some true; Some true] (Some 0%Z) IDLE)
              (Randoms true 0) eq_refl (or_intror (or_introl eq_refl)))
    as (i & Htick & _).
  reflexivity.
Defined.

Lemma findIndex_not_found (f : entry -> bool) (l : list entry) :
  Forall (fun x => f x = false) l -> findIndex f l = (-1)%Z.
Proof.
  unfold findIndex. intros H.
  destruct (findIndex_from_spec f l 0) as [[Hr _]|(k & x & _ & Hk & Hx & _)];
    [exact Hr|].
  rewrite Forall_forall in H. apply nth_error_In in Hk.
  specialize (H _ Hk). congruence.
Qed.

Lemma findIndex_found (f : entry -> bool) (l : list entry) (x : entry) :
  In x l -> f x = true -> findIndex f l <> (-1)%Z.
Proof.
  unfold findIndex. intros Hin Hx.
  destruct (findIndex_from_spec f l 0) as [[_ Hall]|(k & y & Hr & _)].
  - rewrite Forall_forall in Hall. specialize (Hall _ Hin). congruence.
  - rewrite Hr. lia.
Qed.

(** The edges of the pool.  When no block is free, the tick frees a block
    whatever the first draw says: it points at a block that is not free,
    chosen by the second draw, and schedules the write that marks it free.
    When every block is free and the draw says free, the tick does nothing:
    no state changes and no write is scheduled. *)
Theorem tick_at_the_edges (st : component) (rnd : randoms) :
  (Forall (fun b => is_true b = false) (blocks st) ->
   In (Some false) (blocks st) ->
   pick rnd < List.length (usedIndices (blocks st)) ->
   exists i b,
     tick st rnd = (Component (blocks st) (Some (Z.of_nat i)) FREE,
                    [Update (Some (Z.of_nat i)) true]) /\
     nth_error (blocks st) i = Some b /\ b <> Some true) /\
  (Forall (fun b => b = Some true) (blocks st) ->
   allocate rnd = false ->
   tick st rnd = (st, [])).
Proof.
  split.
  - intros Hnone Hused Hpick. unfold tick.
    rewrite (findIndex_not_found is_true _ Hnone), andb_false_r.
    replace (negb (findIndex is_false (blocks st) =? -1)%Z) with true
      by (symmetry; apply negb_true_iff, Z.eqb_neq;
          now apply (findIndex_found is_false _ (Some false))).
    destruct (nth_error (usedIndices (blocks st)) (pick rnd)) as [z|] eqn:E.
    + apply nth_error_In, usedIndices_In in E as (k & b & -> & Hk & Hb).
      exists k, b. repeat split; [assumption|].
      intros ->. discriminate.
    + apply nth_error_None in E. lia.
  - intros Hall Ha. unfold tick. rewrite Ha. cbn [andb].
    rewrite (findIndex_not_found is_false); [reflexivity|].
    apply Forall_forall. intros x Hx. rewrite Forall_forall in Hall.
    now rewrite (Hall x Hx).
Qed.

Lemma tick_at_the_edges_witness :
  tick (Component [Some false; Some false] (Some 0%Z) IDLE) (Randoms true 1)
  = (Component [Some false; Some false] (Some 1%Z) FREE, [Update (Some 1%Z) true]) /\
  tick (Component [Some true; Some true] (Some 0%Z) ALLOC) (Randoms false 0)
  = (Component [Some true; Some true] (Some 0%Z) ALLOC, []).
Proof.
  pose proof (tick_at_the_edges
                (Component [Some false; Some false] (Some 0%Z) IDLE)
                (Randoms true 1)) as [H1 _].
  pose proof (tick_at_the_edges
                (Component [Some true; Some true] (Some 0%Z) ALLOC)
                (Randoms false 0)) as [_ H2].
  split.
  - destruct H1 as (i & b & Htick & _);
      [repeat constructor|now left|cbn; lia|reflexivity].
  - apply H2; [repeat constructor|reflexivity].
Defined.

Lemma map_index_nth (l : list entry) (i : Z) (k : nat) (b : entry) :
  nth_error l k = Some b -> falsy b = true ->
  In (i + Z.of_nat k)%Z (map_index l i).
Proof.
  revert i k. induction l as [|x l IH]; intros i k Hk Hb; [destruct k; discriminate|].
  destruct k as [|k]; cbn [nth_error] in Hk; cbn [map_index].
  - inversion Hk; subst. rewrite Hb. left. lia.
  - right. replace (i + Z.of_nat (S k))%Z with (i + 1 + Z.of_nat k)%Z by lia.
    now apply IH.
Qed.

Lemma free_branch (st : component) (rnd : randoms) :
  Forall (fun b => b <> None) (blocks st) ->
  pick rnd < List.length (usedIndices (blocks st)) \/ usedIndices (blocks st) = [] ->
  match
    (if negb (findIndex_from is_false (blocks st) 0 =? -1)%Z
     then (Component (blocks st) (nth_error (usedIndices (blocks st)) (pick rnd)) FREE,
           [Update (nth_error (usedIndices (blocks st)) (pick rnd)) true])
     else (st, []))
  with
  | (st1, [u]) =>
    blocks st1 = blocks st /\
    (action st1 = ALLOC ->
     S (free_count (blocks (apply_update u st1))) = free_count (blocks st)) /\
    (action st1 = FREE ->
     free_count (blocks (apply_update u st1)) = S (free_count (blocks st)))
  | (st1, _) => st1 = st
  end.
Proof.
  intros Hsolid Hpick.
  destruct (findIndex_from_spec is_false (blocks st) 0)
    as [[Hused _]|(k & x & Hused & Hk & Hx & _)]; rewrite Hused.
  - reflexivity.
  - replace (negb (0 + Z.of_nat k =? -1)%Z) with true
      by (symmetry; apply negb_true_iff, Z.eqb_neq; lia).
    cbn [blocks action apply_update index value].
    split; [reflexivity|]. split; [discriminate|]. intros _.
    assert (Hin : In (Z.of_nat k) (usedIndices (blocks st))).
    { unfold usedIndices. apply filter_In. split.
      - apply (map_index_nth (blocks st) 0 k x Hk).
        now destruct x as [[|]|].
      - apply negb_true_iff, Z.eqb_neq. lia. }
    destruct Hpick as [Hpick|Hnil]; [|rewrite Hnil in Hin; destruct Hin].
    destruct (nth_error (usedIndices (blocks st)) (pick rnd)) as [z|] eqn:E;
      [|apply nth_error_None in E; lia].
    apply nth_error_In, usedIndices_In in E as (j & b & -> & Hj & Hb).
    unfold array_set.
    replace (0 <=? Z.of_nat j)%Z with true by (symmetry; apply Z.leb_le; lia).
    rewrite Nat2Z.id.
    pose proof (set_nth_free_count (blocks st) j b true Hj) as Hc.
    replace (is_true b) with false in Hc by (now destruct b as [[|]|]).
    lia.
Qed.

(** A tick followed by its timer changes the number of free blocks by
    exactly one: an allocation takes one away, a release gives one back. *)
Theorem operation_moves_one_block (st : component) (rnd : randoms) :
  Forall (fun b => b <> None) (blocks st) ->
  pick rnd < List.length (usedIndices (blocks st)) \/ usedIndices (blocks st) = [] ->
  match tick st rnd with
  | (st1, [u]) =>
    blocks st1 = blocks st /\
    (action st1 = ALLOC ->
     S (free_count (blocks (apply_update u st1))) = free_count (blocks st)) /\
    (action st1 = FREE ->
     free_count (blocks (apply_update u st1)) = S (free_count (blocks st)))
  | (st1, _) => st1 = st
  end.
Proof.
  intros Hsolid Hpick. unfold tick, findIndex.
  destruct (findIndex_from_spec is_true (blocks st) 0)
    as [[Hfree _]|(k & x & Hfree & Hk & Hx & _)]; rewrite Hfree.
  - rewrite andb_false_r. apply (free_branch st rnd Hsolid Hpick).
  - destruct (allocate rnd); cbn [andb].
    + replace (negb (0 + Z.of_nat k =? -1)%Z) with true
        by (symmetry; apply negb_true_iff, Z.eqb_neq; lia).
      cbn [blocks action apply_update index value].
      split; [reflexivity|]. split; [|discriminate]. intros _.
      unfold array_set.
      replace (0 <=? 0 + Z.of_nat k)%Z with true by (symmetry; apply Z.leb_le; lia).
      replace (Z.to_nat (0 + Z.of_nat k)) with k by lia.
      pose proof (set_nth_free_count (blocks st) k x false Hk) as Hc.
      rewrite Hx in Hc. lia.
    + apply (free_branch st rnd Hsolid Hpick).
Qed.

Lemma operation_moves_one_block_witness :
  Forall (fun b : entry => b <> None) (blocks initial) /\
  pick (Randoms true 1) < List.length (usedIndices (blocks initial)) /\
  match tick initial (Randoms true 1) with
  | (st1, [u]) =>
    blocks st1 = blocks initial /\
    (action st1 = ALLOC ->
     S (free_count (blocks (apply_update u st1))) = free_count (blocks initial)) /\
    (action st1 = FREE ->
     free_count (blocks (apply_update u st1)) = S (free_count (blocks initial)))
  | (st1, _) => st1 = initial
  end.
Proof.
  assert (H : Forall (fun b : entry => b <> None) (blocks initial))
    by (repeat (constructor; [discriminate|]); constructor).
  assert (Hp : pick (Randoms true 1) < List.length (usedIndices (blocks initial)))
    by (cbn; lia).
  split; [exact H|]. split; [exact Hp|].
  exact (operation_moves_one_block initial (Randoms true 1) H (or_introl Hp)).
Defined.

(** ** The head marker *)

Lemma findIndex_from_ext (f g : entry -> bool) (l : list entry) (i : Z) :
  (forall x, f x = g x) -> findIndex_from f l i = findIndex_from g l i.
Proof.
  intros H. revert i. induction l as [|x l IH]; intros i; [reflexivity|].
  cbn [findIndex_from]. rewrite (H x), IH. reflexivity.
Qed.

Lemma truthy_is_true (b : entry) : truthy b = is_true b.
Proof. now destruct b as [[|]|]. Qed.

Lemma head_marks_past (all l : list entry) (i : Z) :
  (findIndex truthy all < i)%Z -> head_marks_from all l i = [].
Proof.
  revert i. induction l as [|b l IH]; intros i Hi; [reflexivity|].
  cbn [head_marks_from].
  replace (i =? findIndex truthy all)%Z with false
    by (symmetry; apply Z.eqb_neq; lia).
  rewrite andb_false_r. cbn [app]. apply IH. lia.
Qed.

Lemma head_marks_at (all l : list entry) (i : Z) (k : nat) (x : entry) :
  findIndex truthy all = (i + Z.of_nat k)%Z ->
  nth_error l k = Some x -> truthy x = true ->
  head_marks_from all l i = [(i + Z.of_nat k)%Z].
Proof.
  revert i k. induction l as [|b l IH]; intros i k Hr Hk Hx;
    [destruct k; discriminate|].
  cbn [head_marks_from]. destruct k as [|k]; cbn [nth_error] in Hk.
  - inversion Hk; subst. rewrite Hx, Hr.
    replace (i =? i + Z.of_nat 0)%Z with true by (symmetry; apply Z.eqb_eq; lia).
    cbn [andb app]. rewrite head_marks_past by lia. f_equal. lia.
  - replace (i =? findIndex truthy all)%Z with false
      by (symmetry; apply Z.eqb_neq; lia).
    rewrite andb_false_r. cbn [app].
    replace (i + Z.of_nat (S k))%Z with (i + 1 + Z.of_nat k)%Z by lia.
    apply (IH (i + 1)%Z k); [lia|exact Hk|exact Hx].
Qed.

Lemma head_marks_none (all l : list entry) (i : Z) :
  Forall (fun b => truthy b = false) l -> head_marks_from all l i = [].
Proof.
  intros H. revert i. induction H as [|b l Hb _ IH]; intros i; [reflexivity|].
  cbn [head_marks_from]. rewrite Hb. cbn [andb app]. apply IH.
Qed.

(** The render marks at most one block as [Head].  While a block is free the
    marker sits on exactly one block, and that is the block an allocating
    tick points at; when no block is free, no block carries the marker. *)
Theorem head_marks_next_allocation (st : component) :
  (In (Some true) (blocks st) ->
   forall rnd, allocate rnd = true ->
   exists h, head_marks (blocks st) = [h] /\
             pointerIndex (fst (tick st rnd)) = Some h) /\
  (~ In (Some true) (blocks st) -> head_marks (blocks st) = []).
Proof.
  split.
  - intros Hfree rnd Ha.
    destruct (findIndex_from_spec truthy (blocks st) 0)
      as [[_ Hall]|(k & x & Hr & Hk & Hx & _)].
    + exfalso. rewrite Forall_forall in Hall. now specialize (Hall _ Hfree).
    + exists (0 + Z.of_nat k)%Z. split.
      * exact (head_marks_at (blocks st) (blocks st) 0 k x Hr Hk Hx).
      * unfold tick, findIndex.
        rewrite <- (findIndex_from_ext truthy is_true _ _ truthy_is_true), Hr, Ha.
        cbn [andb].
        replace (negb (0 + Z.of_nat k =? -1)%Z) with true
          by (symmetry; apply negb_true_iff, Z.eqb_neq; lia).
        reflexivity.
  - intros Hnone. apply head_marks_none. apply Forall_forall.
    intros b Hb. destruct b as [[|]|]; [contradiction|reflexivity|reflexivity].
Qed.

Lemma head_marks_next_allocation_witness :
  In (Some true) [Some false; Some true; Some false; Some true] /\
  ~ In (Some true) [Some false; Some false] /\
  head_marks [Some false; Some true; Some false; Some true] = [1%Z] /\
  head_marks [Some false; Some false] = [].
Proof.
  assert (H1 : In (Some true) [Some false; Some true; Some false; Some true])
    by (right; now left).
  assert (H2 : ~ In (Some true) [Some false; Some false])
    by (intros [H|[H|[]]]; discriminate).
  split; [exact H1|]. split; [exact H2|]. split.
  - destruct (proj1 (head_marks_next_allocation
                       (Component [Some false; Some true; Some false; Some true]
                                  (Some 0%Z) IDLE))
                    H1 (Randoms true 0) eq_refl) as (h & Hm & Hp).
    cbn in Hp. injection Hp as <-. exact Hm.
  - exact (proj2 (head_marks_next_allocation
                    (Component [Some false; Some false] (Some 0%Z) IDLE)) H2).
Defined.

End VisualizerFacts.

(* ===================================================================== *)
(** * The bridge animation                                                *)
(* ===================================================================== *)

Module BridgeFacts.
Import BridgeAnimation.

Lemma phase_after_mod (n : nat) : phase_after n = (Z.of_nat n mod 4)%Z.
Proof.
  induction n as [|n IH]; [reflexivity|].
  cbn [phase_after]. unfold next_phase. rewrite IH.
  pose proof (Z.mod_pos_bound (Z.of_nat n) 4 eq_refl) as Hb.
  rewrite Z.rem_mod_nonneg by lia.
  rewrite Zplus_mod_idemp_l. f_equal. lia.
Qed.

(** The packet of the bridge animation goes round in four phases for ever:
    after [n] ticks the phase is [n mod 4], never negative and never 4 or
    more; the packet is yellow exactly when it is at the middle of the
    bridge, and it rests at an end of the bridge exactly on even ticks. *)
Theorem bridge_cycle (n : nat) :
  phase_after n = Z.of_nat (n mod 4) /\
  (backgroundColor (phase_after n) = Yellow <-> left (phase_after n) = 50%Z) /\
  (left (phase_after n) <> 50%Z <-> Nat.even n = true) /\
  phase_after (n + 4) = phase_after n.
Proof.
  assert (E : phase_after n = Z.of_nat (n mod 4)).
  { rewrite phase_after_mod. rewrite Nat2Z.inj_mod. reflexivity. }
  split; [exact E|].
  assert (Hev : Nat.even n = Nat.even (n mod 4)).
  { rewrite (Nat.div_mod_eq n 4) at 1.
    rewrite Nat.even_add, Nat.even_mul. cbn [Nat.even orb].
    now destruct (Nat.even (n mod 4)). }
  pose proof (Nat.mod_upper_bound n 4 (Nat.neq_succ_0 3)) as Hlt.
  split; [|split].
  - rewrite E.
    destruct (n mod 4) as [|[|[|[|k]]]]; [| | | |lia]; cbn; split;
      congruence.
  - rewrite E, Hev.
    destruct (n mod 4) as [|[|[|[|k]]]]; [| | | |lia]; cbn; split;
      congruence.
  - rewrite !phase_after_mod. rewrite Nat2Z.inj_add.
    change (Z.of_nat 4) with (1 * 4)%Z. now rewrite Z.mod_add.
Qed.

End BridgeFacts.
